(** * BloodLink certificate verification: ledger contract, hash engine,
      approval orchestrator and verifier.

    Part I follows the sources:
    - [supabase/contracts/DonorVerification.sol]       (module [DonorVerification])
    - [src/utils/certificateHash.js]                   (module [CertificateHash])
    - [supabase/functions/verify-certificate/index.ts] (module [VerifyCertificate])
    - the blockchain verification service and the upload, verification
      and approval components of the front end         (module [Browser])
    with the platform primitives they call: SHA-256 of the Web Crypto
    API ([Sha256]), and [keccak256] and [isAddress] of ethers ([Keccak],
    [Ethers]).  Part II states and proves the properties. *)

From Stdlib Require Import NArith List String Ascii Bool Lia.
From Stdlib.Strings Require Import Byte.
From stdpp Require Import gmap strings.
Import ListNotations.

Local Open Scope N_scope.
Local Open Scope string_scope.

(** ** Results of calls that may fail *)

(** A Solidity call either returns or reverts with a reason string; a
    JavaScript computation either returns or throws an [Error] with a
    message.  Both are the same sum. *)
Inductive Result (A : Type) : Type :=
| Ok (a : A)
| Failed (reason : string).
Arguments Ok {A} a.
Arguments Failed {A} reason.

Definition is_ok {A} (r : Result A) : bool :=
  match r with Ok _ => true | Failed _ => false end.

(** * The verification ledger: DonorVerification.sol *)
Module DonorVerification.

Definition address := N.
Definition bytes32 := N.
Definition uint256 := N.

(** [struct Record] *)
Record Record_ : Type := mkRecord {
  donor : address;
  certHash : bytes32;
  eligible : bool;
  timestamp : uint256;
  exists_ : bool
}.

(** The value Solidity reads from a mapping slot that was never written. *)
Definition zeroRecord : Record_ := mkRecord 0 0 false 0 false.

Inductive Event : Type :=
| RecordAdded (donor : address) (certHash : bytes32) (eligible : bool)
    (timestamp : uint256) (verifier : address)
| RecordUpdated (donor : address) (oldHash newHash : bytes32) (eligible : bool)
    (timestamp : uint256)
| AdminChanged (oldAdmin newAdmin : address).

(** Contract storage, together with the log of the events emitted so far
    (oldest first). *)
Record State : Type := mkState {
  records : gmap address Record_;
  admin : address;
  log : list Event
}.

(** [msg.sender] and [block.timestamp] of the enclosing transaction. *)
Record Msg : Type := mkMsg {
  sender : address;
  block_timestamp : uint256
}.

(** A contract function: reads the transaction context, threads the
    state, and may revert.  A revert carries no state: the enclosing
    transaction discards every effect (see [transact]). *)
Definition Contract (A : Type) : Type := Msg -> State -> Result (A * State).

Definition ret {A} (a : A) : Contract A := fun _ s => Ok (a, s).

Definition bind {A B} (c : Contract A) (k : A -> Contract B) : Contract B :=
  fun m s =>
    match c m s with
    | Ok (a, s') => k a m s'
    | Failed r => Failed r
    end.

Declare Scope contract_scope.
Delimit Scope contract_scope with contract.
Notation "'let*' x ':=' c 'in' k" := (bind c (fun x => k))
  (at level 10, x pattern, c at level 100, k at level 200) : contract_scope.
Notation "c1 ';;;' c2" := (bind c1 (fun _ => c2))
  (at level 100, c2 at level 200, right associativity) : contract_scope.
Local Open Scope contract_scope.

Definition revert {A} (reason : string) : Contract A := fun _ _ => Failed reason.

Definition require (cond : bool) (reason : string) : Contract unit :=
  if cond then ret tt else revert reason.

Definition msg_sender : Contract address := fun m s => Ok (sender m, s).
Definition block_now : Contract uint256 := fun m s => Ok (block_timestamp m, s).
Definition get_admin : Contract address := fun _ s => Ok (admin s, s).

(** [records[_donor]] as an r-value. *)
Definition records_at (s : State) (_donor : address) : Record_ :=
  default zeroRecord (records s !! _donor).

Definition read_record (_donor : address) : Contract Record_ :=
  fun _ s => Ok (records_at s _donor, s).

(** [records[_donor] = r] *)
Definition write_record (_donor : address) (r : Record_) : Contract unit :=
  fun _ s => Ok (tt, mkState (<[_donor := r]> (records s)) (admin s) (log s)).

Definition set_admin (a : address) : Contract unit :=
  fun _ s => Ok (tt, mkState (records s) a (log s)).

Definition emit (e : Event) : Contract unit :=
  fun _ s => Ok (tt, mkState (records s) (admin s) (log s ++ [e])).

(** [modifier onlyAdmin] *)
Definition onlyAdmin {A} (body : Contract A) : Contract A :=
  let* caller := msg_sender in
  let* a := get_admin in
  require (caller =? a)%N "Only admin can call this function" ;;;
  body.

(** [constructor()] *)
Definition constructor (m : Msg) : State :=
  mkState ∅ (sender m) [].

Definition storeVerification (_donor : address) (_certHash : bytes32)
    (_eligible : bool) : Contract unit :=
  onlyAdmin (
    require (negb (_certHash =? 0)%N) "Certificate hash cannot be empty" ;;;
    let* r := read_record _donor in
    let isUpdate := exists_ r in
    let oldHash := certHash r in
    let* now := block_now in
    write_record _donor (mkRecord _donor _certHash _eligible now true) ;;;
    if isUpdate then
      emit (RecordUpdated _donor oldHash _certHash _eligible now)
    else
      let* caller := msg_sender in
      emit (RecordAdded _donor _certHash _eligible now caller)).

Definition verify (_donor : address) (_certHash : bytes32)
    : Contract (bool * uint256 * bool) :=
  let* r := read_record _donor in
  if negb (exists_ r) then ret (false, 0, false)
  else
    let matches := (certHash r =? _certHash)%N in
    ret (eligible r, timestamp r, matches).

Definition getRecord (_donor : address)
    : Contract (bytes32 * bool * uint256 * bool) :=
  let* r := read_record _donor in
  ret (certHash r, eligible r, timestamp r, exists_ r).

Definition changeAdmin (_newAdmin : address) : Contract unit :=
  onlyAdmin (
    require (negb (_newAdmin =? 0)%N) "New admin cannot be zero address" ;;;
    let* oldAdmin := get_admin in
    set_admin _newAdmin ;;;
    emit (AdminChanged oldAdmin _newAdmin)).

Definition hasRecord (_donor : address) : Contract bool :=
  let* r := read_record _donor in
  ret (exists_ r).

(** *** Transactions *)

(** The state-changing entry points. *)
Inductive Tx : Type :=
| TxStoreVerification (_donor : address) (_certHash : bytes32) (_eligible : bool)
| TxChangeAdmin (_newAdmin : address).

Definition call (t : Tx) : Contract unit :=
  match t with
  | TxStoreVerification d h e => storeVerification d h e
  | TxChangeAdmin a => changeAdmin a
  end.

(** A transaction commits the state its call returns, and leaves the
    state as it was when the call reverts. *)
Definition transact (m : Msg) (t : Tx) (s : State) : State :=
  match call t m s with
  | Ok (_, s') => s'
  | Failed _ => s
  end.

Definition succeeds (m : Msg) (t : Tx) (s : State) : bool :=
  is_ok (call t m s).

(** The events a transaction adds to the log. *)
Definition emitted (m : Msg) (t : Tx) (s : State) : list Event :=
  drop (length (log s)) (log (transact m t s)).

(** A history is the deployment followed by transactions, oldest first. *)
Fixpoint run (s : State) (h : list (Msg * Tx)) : State :=
  match h with
  | [] => s
  | (m, t) :: h' => run (transact m t s) h'
  end.

(** The last successful [storeVerification] for [a] in a history that
    starts in state [s], if any: its hash, eligibility and block time. *)
Fixpoint last_write (a : address) (s : State) (h : list (Msg * Tx))
    (acc : option (bytes32 * bool * uint256)) : option (bytes32 * bool * uint256) :=
  match h with
  | [] => acc
  | (m, t) :: h' =>
      let acc' :=
        match t with
        | TxStoreVerification d c e =>
            if succeeds m t s && (d =? a)%N then Some (c, e, block_timestamp m)
            else acc
        | TxChangeAdmin _ => acc
        end in
      last_write a (transact m t s) h' acc'
  end.

Definition is_record_event (e : Event) : bool :=
  match e with
  | RecordAdded _ _ _ _ _ | RecordUpdated _ _ _ _ _ => true
  | AdminChanged _ _ => false
  end.

Definition is_added_for (a : address) (e : Event) : bool :=
  match e with
  | RecordAdded d _ _ _ _ => (d =? a)%N
  | _ => false
  end.

End DonorVerification.

(** * Strings as JavaScript uses them *)
Module Js.

Definition chars (s : string) : list ascii := list_ascii_of_string s.
Definition str (l : list ascii) : string := string_of_list_ascii l.

Definition code (c : ascii) : N := N_of_ascii c.

Definition in_range (lo hi c : ascii) : bool :=
  (code lo <=? code c)%N && (code c <=? code hi)%N.

Definition is_digit (c : ascii) : bool := in_range "0" "9" c.
Definition is_lower_af (c : ascii) : bool := in_range "a" "f" c.
Definition is_upper_AF (c : ascii) : bool := in_range "A" "F" c.
Definition is_lower (c : ascii) : bool := in_range "a" "z" c.
Definition is_upper (c : ascii) : bool := in_range "A" "Z" c.

(** The character class [[0-9a-f]]. *)
Definition is_lower_hex (c : ascii) : bool := is_digit c || is_lower_af c.
(** The character class [[a-fA-F0-9]]. *)
Definition is_hex (c : ascii) : bool := is_digit c || is_lower_af c || is_upper_AF c.

Definition toLowerCase_char (c : ascii) : ascii :=
  if is_upper c then ascii_of_N (code c + 32) else c.
Definition toUpperCase_char (c : ascii) : ascii :=
  if is_lower c then ascii_of_N (code c - 32) else c.

(** [String.prototype.toLowerCase] / [toUpperCase] on the ASCII range. *)
Definition toLowerCase (s : string) : string := str (List.map toLowerCase_char (chars s)).
Definition toUpperCase (s : string) : string := str (List.map toUpperCase_char (chars s)).


(** [s.startsWith(p)] *)
Definition startsWith (p s : string) : bool := String.prefix p s.

(** [!s] for a value that is a string or missing. *)
Definition falsy (o : option string) : bool :=
  match o with
  | None => true
  | Some s => (String.length s =? 0)%nat
  end.

(** The value of a hex digit, of either case. *)
Definition hex_value (c : ascii) : option N :=
  if is_digit c then Some (code c - code "0")
  else if is_lower_af c then Some (code c - code "a" + 10)
  else if is_upper_AF c then Some (code c - code "A" + 10)
  else None.

(** The number a string of hex digits denotes, most significant first. *)
Fixpoint hex_number (l : list ascii) (acc : N) : option N :=
  match l with
  | [] => Some acc
  | c :: l' =>
      match hex_value c with
      | Some d => hex_number l' (16 * acc + d)
      | None => None
      end
  end.

Definition hex_digit (d : N) : ascii :=
  nth (N.to_nat d) (chars "0123456789abcdef") "0"%char.

Fixpoint digits16 (fuel : nat) (n : N) (acc : list ascii) : list ascii :=
  match fuel with
  | O => acc
  | S fuel' =>
      let acc' := hex_digit (n mod 16) :: acc in
      if (n / 16 =? 0)%N then acc' else digits16 fuel' (n / 16) acc'
  end.

(** [n.toString(16)] for a non-negative integer. *)
Definition toString16 (n : N) : string :=
  str (digits16 (S (N.to_nat (N.log2 n))) n []).

(** [s.padStart(n, c)] with a one-character filler. *)
Definition padStart (n : nat) (c : ascii) (s : string) : string :=
  str (repeat c (n - String.length s)) ++ s.

(** [s.replace(pat, rep)] with a string pattern: the first occurrence. *)
Fixpoint replace_first (pat rep s : string) : string :=
  if String.prefix pat s then
    rep ++ substring (String.length pat) (String.length s - String.length pat) s
  else
    match s with
    | EmptyString => EmptyString
    | String c s' => String c (replace_first pat rep s')
    end.

(** [parts.join('')] *)
Definition join (parts : list string) : string :=
  fold_right String.append "" parts.

(** [parts.join(sep)] *)
Fixpoint join_with (sep : string) (parts : list string) : string :=
  match parts with
  | [] => ""
  | [x] => x
  | x :: rest => x ++ sep ++ join_with sep rest
  end.

(** [s.endsWith(suffix)] *)
Definition endsWith (suffix s : string) : bool :=
  String.eqb (str (drop (String.length s - String.length suffix) (chars s))) suffix.

Definition double_quote : ascii := ascii_of_N 34.
Definition backslash : ascii := ascii_of_N 92.

(** How [JSON.stringify] writes one character of a string. *)
Definition json_escape (c : ascii) : list ascii :=
  if (code c =? 34)%N then [backslash; double_quote]
  else if (code c =? 92)%N then [backslash; backslash]
  else if (code c =? 8)%N then [backslash; "b"%char]
  else if (code c =? 9)%N then [backslash; "t"%char]
  else if (code c =? 10)%N then [backslash; "n"%char]
  else if (code c =? 12)%N then [backslash; "f"%char]
  else if (code c =? 13)%N then [backslash; "r"%char]
  else if (code c <? 32)%N then
    [backslash; "u"%char; "0"%char; "0"%char;
     hex_digit (code c / 16); hex_digit (code c mod 16)]
  else [c].

(** [JSON.stringify(s)] for a string. *)
Definition JSON_stringify (s : string) : string :=
  str (double_quote
       :: List.app (List.concat (List.map json_escape (chars s))) [double_quote]).

(** [Number(n)] for a bigint [n]: the nearest double, ties to even.
    Integers up to 2^53 are kept; a [uint256] is far below the range in
    which a double overflows. *)
Definition Number (n : N) : N :=
  let bits := N.size n in
  if (bits <=? 53)%N then n
  else
    let shift := (bits - 53)%N in
    let q := N.shiftr n shift in
    let r := N.land n (N.ones shift) in
    let half := N.shiftl 1 (shift - 1) in
    let q' := if (half <? r)%N || ((r =? half)%N && N.odd q) then (q + 1)%N else q in
    N.shiftl q' shift.

(** [a * b] for two doubles that hold non-negative integers. *)
Definition times (a b : N) : N := Number (a * b).

(** A [Date] object: its time value in milliseconds, or the invalid
    date. *)
Inductive Date : Type :=
| ValidDate (ms : N)
| InvalidDate.

(** [new Date(ms)] for a double that holds a non-negative integer. *)
Definition new_Date (ms : N) : Date :=
  if (ms <=? 8640000000000000)%N then ValidDate ms else InvalidDate.

End Js.

(** * SHA-256, as [crypto.subtle.digest("SHA-256", _)] computes it *)

(** The platform primitive both hash functions call (FIPS 180-4), on
    32-bit words held in [N]. *)
Module Sha256.

Definition mask32 : N := 0xFFFFFFFF.
Definition add32 (x y : N) : N := N.land (x + y) mask32.
Definition rotr (n x : N) : N :=
  N.lor (N.shiftr x n) (N.land (N.shiftl x (32 - n)) mask32).
Definition not32 (x : N) : N := N.lxor x mask32.

Definition Ch (x y z : N) : N := N.lxor (N.land x y) (N.land (not32 x) z).
Definition Maj (x y z : N) : N :=
  N.lxor (N.lxor (N.land x y) (N.land x z)) (N.land y z).
Definition Sigma0 (x : N) : N := N.lxor (N.lxor (rotr 2 x) (rotr 13 x)) (rotr 22 x).
Definition Sigma1 (x : N) : N := N.lxor (N.lxor (rotr 6 x) (rotr 11 x)) (rotr 25 x).
Definition sigma0 (x : N) : N := N.lxor (N.lxor (rotr 7 x) (rotr 18 x)) (N.shiftr x 3).
Definition sigma1 (x : N) : N := N.lxor (N.lxor (rotr 17 x) (rotr 19 x)) (N.shiftr x 10).

(** The constants are defined as FIPS 180-4 defines them: the first 32
    bits of the fractional parts of the cube roots (for [K]) and of the
    square roots (for [H0]) of the first primes. *)
Definition is_prime (n : nat) : bool :=
  forallb (fun d => negb (n mod d =? 0)%nat) (seq 2 (n - 2)).

Definition first_primes (count : nat) : list N :=
  List.map N.of_nat (take count (List.filter is_prime (seq 2 400))).

(** The largest [r] below [2 ^ bits] with [r ^ 3 <= n], bit by bit. *)
Fixpoint cube_root (bits : nat) (n r : N) : N :=
  match bits with
  | O => r
  | S bits' =>
      let r' := r + N.shiftl 1 (N.of_nat bits') in
      cube_root bits' n (if (r' * r' * r' <=? n)%N then r' else r)
  end.

Definition frac_cbrt (p : N) : N := N.land (cube_root 36 (N.shiftl p 96) 0) mask32.
Definition frac_sqrt (p : N) : N := N.land (N.sqrt (N.shiftl p 64)) mask32.

Definition K : list N :=
  Eval vm_compute in List.map frac_cbrt (first_primes 64).

(** The eight working variables / the chaining value. *)
Record Regs : Type := mkRegs {
  ra : N; rb : N; rc : N; rd : N; re : N; rf : N; rg : N; rh : N
}.

Definition regs_of (l : list N) : Regs :=
  mkRegs (nth 0 l 0) (nth 1 l 0) (nth 2 l 0) (nth 3 l 0)
         (nth 4 l 0) (nth 5 l 0) (nth 6 l 0) (nth 7 l 0).

Definition H0 : Regs :=
  Eval vm_compute in regs_of (List.map frac_sqrt (first_primes 8)).

(** Message padding: a 1 bit, zeros, and the bit length on 64 bits. *)
Definition be_bytes (width : nat) (x : N) : list N :=
  List.map (fun i => N.land (N.shiftr x (8 * N.of_nat i)) 0xFF) (rev (seq 0 width)).

Definition pad (msg : list N) : list N :=
  let len := length msg in
  let zeros := ((64 - (len + 9) mod 64) mod 64)%nat in
  msg ++ [0x80] ++ repeat 0 zeros ++ be_bytes 8 (8 * N.of_nat len).

Fixpoint be_word (bs : list N) (acc : N) : N :=
  match bs with
  | [] => acc
  | b :: bs' => be_word bs' (N.lor (N.shiftl acc 8) b)
  end.

Fixpoint words (fuel : nat) (bs : list N) : list N :=
  match fuel, bs with
  | S fuel', _ :: _ => be_word (take 4 bs) 0 :: words fuel' (drop 4 bs)
  | _, _ => []
  end.

Fixpoint blocks (fuel : nat) (ws : list N) : list (list N) :=
  match fuel, ws with
  | S fuel', _ :: _ => take 16 ws :: blocks fuel' (drop 16 ws)
  | _, _ => []
  end.

(** The message schedule, most recent word first. *)
Fixpoint extend (n : nat) (w : list N) : list N :=
  match n with
  | O => w
  | S n' =>
      match w with
      | _ :: w2 :: _ :: _ :: _ :: _ :: w7 :: _ :: _ :: _ :: _ :: _ :: _ :: _
          :: w15 :: w16 :: _ =>
          extend n' (add32 (add32 (sigma1 w2) w7) (add32 (sigma0 w15) w16) :: w)
      | _ => w
      end
  end.

Definition schedule (block : list N) : list N := rev (extend 48 (rev block)).

Definition round (r : Regs) (kw : N * N) : Regs :=
  let t1 := add32 (add32 (add32 (rh r) (Sigma1 (re r)))
                         (add32 (Ch (re r) (rf r) (rg r)) (fst kw))) (snd kw) in
  let t2 := add32 (Sigma0 (ra r)) (Maj (ra r) (rb r) (rc r)) in
  mkRegs (add32 t1 t2) (ra r) (rb r) (rc r) (add32 (rd r) t1) (re r) (rf r) (rg r).

Definition compress (h : Regs) (block : list N) : Regs :=
  let r := fold_left round (combine K (schedule block)) h in
  mkRegs (add32 (ra h) (ra r)) (add32 (rb h) (rb r)) (add32 (rc h) (rc r))
         (add32 (rd h) (rd r)) (add32 (re h) (re r)) (add32 (rf h) (rf r))
         (add32 (rg h) (rg r)) (add32 (rh h) (rh r)).

Definition regs_bytes (r : Regs) : list N :=
  be_bytes 4 (ra r) ++ be_bytes 4 (rb r) ++ be_bytes 4 (rc r) ++ be_bytes 4 (rd r) ++
  be_bytes 4 (re r) ++ be_bytes 4 (rf r) ++ be_bytes 4 (rg r) ++ be_bytes 4 (rh r).

(** The digest of a byte sequence: 32 bytes, each a number below 256. *)
Definition sha256 (data : list Byte.byte) : list N :=
  let p := pad (List.map Byte.to_N data) in
  let ws := words (length p) p in
  regs_bytes (fold_left compress (blocks (length ws) ws) H0).

End Sha256.

(** * The hash engine *)
Module CertificateHash.
Import Js.

(** What a caller can hand to [computeCertificateHash]. *)
Inductive FileInput : Type :=
| AFile (name type : string) (content : list Byte.byte)
| ABlob (content : list Byte.byte)
| AnArrayBuffer (content : list Byte.byte)
| NotAFile.

(** The browser the client code runs in: [window.crypto.subtle] is
    missing outside secure contexts. *)
Record Window : Type := mkWindow { crypto_subtle : bool }.

(** [hashArray.map(b => b.toString(16).padStart(2, '0')).join('')] *)
Definition hashHex (hashArray : list N) : string :=
  join (List.map (fun b => padStart 2 "0" (toString16 b)) hashArray).

(** certificateHash.js, [computeCertificateHash]. *)
Definition computeCertificateHash (window : Window) (fileInput : FileInput)
    : Result string :=
  let attempt :=
    match
      match fileInput with
      | AFile _ _ content | ABlob content => Ok content
      | AnArrayBuffer content => Ok content
      | NotAFile => Failed "Invalid input type. Expected File, Blob, or ArrayBuffer"
      end
    with
    | Failed e => Failed e
    | Ok arrayBuffer =>
        if negb (crypto_subtle window) then
          Failed "Web Crypto API not available. Please use HTTPS or a modern browser."
        else
          let hashBuffer := Sha256.sha256 arrayBuffer in
          Ok ("0x" ++ hashHex hashBuffer)
    end in
  match attempt with
  | Ok h => Ok h
  | Failed message => Failed ("Failed to compute hash: " ++ message)
  end.

(** verify-certificate/index.ts, [computeFileHash]. *)
Definition computeFileHash (fileData : list Byte.byte) : string :=
  let hashBuffer := Sha256.sha256 fileData in
  "0x" ++ hashHex hashBuffer.


(** The bytes an input stands for, when it is one of the accepted kinds. *)
Definition content_of (fileInput : FileInput) : option (list Byte.byte) :=
  match fileInput with
  | AFile _ _ c | ABlob c | AnArrayBuffer c => Some c
  | NotAFile => None
  end.

(** Reading a rendered digest back: two hex digits per byte. *)
Fixpoint hex_bytes (l : list ascii) : option (list N) :=
  match l with
  | [] => Some []
  | c1 :: c2 :: l' =>
      match hex_value c1, hex_value c2, hex_bytes l' with
      | Some h, Some k, Some bs => Some (16 * h + k :: bs)
      | _, _, _ => None
      end
  | _ => None
  end.

End CertificateHash.

(** * Keccak-256, as ethers' [keccak256] computes it *)

(** The hash behind address checksums: Keccak-f[1600] with rate 136 and
    the original (pre-SHA-3) padding, on 64-bit lanes held in [N]; lane
    [(x, y)] sits at index [x + 5 * y]. *)
Module Keccak.

Definition mask64 : N := N.ones 64.
Definition rotl (n x : N) : N :=
  N.land (N.lor (N.shiftl x n) (N.shiftr x (64 - n))) mask64.

(** Rotation offsets: the triangular numbers along the walk
    [(x, y) -> (y, 2x + 3y)] that starts at [(1, 0)]. *)
Fixpoint walk (n : nat) (t : N) (x y : nat) (tbl : list N) : list N :=
  match n with
  | O => tbl
  | S n' =>
      walk n' (t + 1) y ((2 * x + 3 * y) mod 5)%nat
        (<[(x + 5 * y)%nat := ((t + 1) * (t + 2) / 2) mod 64]> tbl)
  end.

Definition rotation : list N := Eval vm_compute in walk 24 0 1 0 (repeat 0 25).

(** Round constants: bit [2^j - 1] of the constant of a round is the
    next output bit of the degree-8 LFSR. *)
Definition lfsr_step (l : N) : N :=
  N.land (if N.testbit l 7 then N.lxor (N.shiftl l 1) 0x71 else N.shiftl l 1) 0xFF.

Fixpoint round_constant (js : list N) (l c : N) : N * N :=
  match js with
  | [] => (l, c)
  | j :: js' =>
      round_constant js' (lfsr_step l)
        (if N.testbit l 0 then N.lxor c (N.shiftl 1 (2 ^ j - 1)) else c)
  end.

Fixpoint round_constants (n : nat) (l : N) : list N :=
  match n with
  | O => []
  | S n' =>
      let (l', c) := round_constant [0; 1; 2; 3; 4; 5; 6] l 0 in
      c :: round_constants n' l'
  end.

Definition RC : list N := Eval vm_compute in round_constants 24 1.

Definition lane (A : list N) (x y : nat) : N :=
  nth (x mod 5 + 5 * (y mod 5))%nat A 0.

Definition column (A : list N) (x : nat) : N :=
  N.lxor (lane A x 0) (N.lxor (lane A x 1) (N.lxor (lane A x 2)
    (N.lxor (lane A x 3) (lane A x 4)))).

Definition theta (A : list N) : list N :=
  List.map (fun i =>
      N.lxor (nth i A 0)
        (N.lxor (column A (i mod 5 + 4)) (rotl 1 (column A (i mod 5 + 1)))))
    (seq 0 25).

Definition rho_pi (A : list N) : list N :=
  List.map (fun j =>
      let X := (j mod 5)%nat in
      let Y := (j / 5)%nat in
      let x := ((X + 3 * Y) mod 5)%nat in
      rotl (nth (x + 5 * X)%nat rotation 0) (lane A x X))
    (seq 0 25).

Definition chi (B : list N) : list N :=
  List.map (fun i =>
      let x := (i mod 5)%nat in
      let y := (i / 5)%nat in
      N.lxor (lane B x y)
        (N.land (N.lxor (lane B (x + 1) y) mask64) (lane B (x + 2) y)))
    (seq 0 25).

Definition iota (rc : N) (A : list N) : list N :=
  match A with
  | a :: A' => N.lxor a rc :: A'
  | [] => []
  end.

Definition keccak_f (A : list N) : list N :=
  fold_left (fun A rc => iota rc (chi (rho_pi (theta A)))) RC A.

Definition rate : nat := 136.

Definition pad (msg : list N) : list N :=
  let q := (rate - length msg mod rate)%nat in
  if (q =? 1)%nat then msg ++ [0x81]
  else msg ++ [0x01] ++ repeat 0 (q - 2) ++ [0x80].

Definition le_word (bs : list N) : N :=
  fold_right (fun b acc => b + 256 * acc) 0 bs.

Fixpoint le_words (fuel : nat) (bs : list N) : list N :=
  match fuel, bs with
  | S fuel', _ :: _ => le_word (take 8 bs) :: le_words fuel' (drop 8 bs)
  | _, _ => []
  end.

Fixpoint xor_into (A ls : list N) : list N :=
  match A, ls with
  | a :: A', l :: ls' => N.lxor a l :: xor_into A' ls'
  | _, _ => A
  end.

Fixpoint absorb (fuel : nat) (A : list N) (bs : list N) : list N :=
  match fuel, bs with
  | S fuel', _ :: _ =>
      absorb fuel' (keccak_f (xor_into A (le_words rate (take rate bs)))) (drop rate bs)
  | _, _ => A
  end.

Definition le_bytes (x : N) : list N :=
  List.map (fun i => N.land (N.shiftr x (8 * N.of_nat i)) 0xFF) (seq 0 8).

(** The 32-byte digest of a sequence of bytes. *)
Definition keccak256 (msg : list N) : list N :=
  let p := pad msg in
  List.concat (List.map le_bytes (take 4 (absorb (length p) (repeat 0 25) p))).

End Keccak.

(** * ethers' address validation *)

(** [ethers.isAddress] of ethers 6 (address/address.ts): a string is an
    address when [getAddress] does not throw. *)
Module Ethers.
Import Js.

Definition version : string := "6.9.0".

(** [makeError(message, code, info)]: the message of every error the
    library throws is the short message followed by the renderings
    [key=value] of [info], the code and the version. *)
Definition makeError (message code : string) (details : list string) : string :=
  message ++ " ("
  ++ join_with ", " (List.app details ["code=" ++ code; "version=" ++ version])
  ++ ")".

Definition detail (key value : string) : string := key ++ "=" ++ value.

(** [assertArgument(false, message, name, value)] for a string value. *)
Definition invalid_argument (message name value : string) : string :=
  makeError message "INVALID_ARGUMENT"
    [detail "argument" (JSON_stringify name); detail "value" (JSON_stringify value)].

(** An error of the library as its parts. *)
Record Thrown : Type := mkThrown {
  shortMessage : string;
  errorCode : string;
  info : list string
}.

Definition thrown_message (e : Thrown) : string :=
  makeError (shortMessage e) (errorCode e) (info e).

(** The text is one [makeError] builds. *)
Definition is_error_message (m : string) : bool :=
  endsWith (", version=" ++ version ++ ")") m.

Definition matches_hex40 (l : list ascii) : bool :=
  (length l =? 40)%nat && forallb is_hex l.

(** [/^(0x)?[0-9a-fA-F]{40}$/] *)
Definition is_hex_form (address : string) : bool :=
  matches_hex40 (chars address) ||
  match chars address with
  | "0"%char :: "x"%char :: h => matches_hex40 h
  | _ => false
  end.

(** [/([A-F].*[a-f])|([a-f].*[A-F])/] on a string without line breaks *)
Definition is_mixed_case (address : string) : bool :=
  existsb is_upper_AF (chars address) && existsb is_lower_af (chars address).

Definition is_alnum (c : ascii) : bool := is_digit c || is_upper c || is_lower c.

(** [/^XE[0-9]{2}[0-9A-Za-z]{30,31}$/] *)
Definition is_ican_form (address : string) : bool :=
  match chars address with
  | "X"%char :: "E"%char :: d1 :: d2 :: rest =>
      is_digit d1 && is_digit d2 &&
      ((length rest =? 30)%nat || (length rest =? 31)%nat) && forallb is_alnum rest
  | _ => false
  end.

Fixpoint checksum_case (cs : list ascii) (hashed : list N) : list ascii :=
  match hashed, cs with
  | h :: hashed', c1 :: c2 :: cs' =>
      (if (8 <=? N.shiftr h 4)%N then toUpperCase_char c1 else c1)
      :: (if (8 <=? N.land h 0x0f)%N then toUpperCase_char c2 else c2)
      :: checksum_case cs' hashed'
  | _, _ => cs
  end.

Definition getChecksumAddress (address : string) : string :=
  let cs := drop 2 (chars (toLowerCase address)) in
  let expanded := List.map code (take 40 cs) in
  let hashed := Keccak.keccak256 expanded in
  "0x" ++ str (checksum_case cs (take 20 hashed)).

Fixpoint dec_number (l : list ascii) (acc : N) : N :=
  match l with
  | [] => acc
  | c :: l' => dec_number l' (10 * acc + (code c - code "0"))
  end.

Fixpoint digits10 (fuel : nat) (n : N) (acc : list ascii) : list ascii :=
  match fuel with
  | O => acc
  | S fuel' =>
      let acc' := ascii_of_N (code "0" + n mod 10) :: acc in
      if (n / 10 =? 0)%N then acc' else digits10 fuel' (n / 10) acc'
  end.

(** [String(n)] for a non-negative integer. *)
Definition toString10 (n : N) : list ascii :=
  digits10 (S (N.to_nat (N.log2 n))) n [].

(** [ibanLookup]: digits stand for themselves, letters for 10 .. 35. *)
Definition ibanLookup (c : ascii) : list ascii :=
  if is_digit c then [c]
  else if is_upper c then toString10 (code c - code "A" + 10)
  else [].

Definition safeDigits : nat := 15.

Fixpoint iban_reduce (fuel : nat) (expanded : list ascii) : list ascii :=
  match fuel with
  | O => expanded
  | S fuel' =>
      if (safeDigits <=? length expanded)%nat then
        let block := take safeDigits expanded in
        iban_reduce fuel'
          (toString10 (dec_number block 0 mod 97) ++ drop safeDigits expanded)
      else expanded
  end.

Definition ibanChecksum (address : string) : string :=
  let address := chars (toUpperCase address) in
  let address := (drop 4 address ++ take 2 address ++ chars "00")%list in
  let expanded := List.concat (List.map ibanLookup address) in
  let expanded := iban_reduce (length expanded) expanded in
  let checksum := toString10 (98 - dec_number expanded 0 mod 97) in
  str (repeat "0"%char (2 - length checksum) ++ checksum)%list.

Definition base36_value (c : ascii) : N :=
  if is_digit c then code c - code "0" else code c - code "a" + 10.

Definition fromBase36 (value : string) : N :=
  fold_left (fun result c => result * 36 + base36_value c)
    (chars (toLowerCase value)) 0.

Definition getAddress (address : string) : Result string :=
  if is_hex_form address then
    let address := if startsWith "0x" address then address else "0x" ++ address in
    let result := getChecksumAddress address in
    if negb (negb (is_mixed_case address) || String.eqb result address)
    then Failed (invalid_argument "bad address checksum" "address" address)
    else Ok result
  else if is_ican_form address then
    if negb (String.eqb (str (take 2 (drop 2 (chars address)))) (ibanChecksum address))
    then Failed (invalid_argument "bad icap checksum" "address" address)
    else
      let result := toString16 (fromBase36 (str (drop 4 (chars address)))) in
      Ok (getChecksumAddress ("0x" ++ padStart 40 "0" result))
  else Failed (invalid_argument "invalid address" "address" address).

Definition isAddress (value : string) : bool := is_ok (getAddress value).

(** [/^0x[0-9a-f]{40}$/i] *)
Definition is_prefixed_form (target : string) : bool :=
  match chars target with
  | "0"%char :: x :: h =>
      (Ascii.eqb x "x" || Ascii.eqb x "X") && matches_hex40 h
  | _ => false
  end.

(** The network a provider finds itself on. *)
Record Network : Type := mkNetwork {
  network_name : string;
  chainId : N
}.

(** The network of the endpoint the sources name,
    [https://rpc-amoy.polygon.technology/]: Polygon Amoy, chain 80002,
    which this version of the library knows neither by name nor with a
    name service. *)
Definition amoy : Network := mkNetwork "unknown" 80002.

(** What [resolveName] comes to for a string that is not an address, on
    a network without a name service.  The empty name and ["."] resolve
    to nothing; for any other name the provider asks its network for the
    name service. *)
Definition unresolved_on (network : Network) (name : string) : string :=
  if String.eqb name "" || String.eqb name "." then
    makeError "unconfigured name" "UNCONFIGURED_NAME"
      [detail "value" (JSON_stringify name)]
  else
    makeError "network does not support ENS" "UNSUPPORTED_OPERATION"
      [detail "operation" (JSON_stringify "getEnsAddress");
       detail "info"
         ("{ " ++ JSON_stringify "network" ++ ": { "
          ++ JSON_stringify "chainId" ++ ": "
          ++ JSON_stringify (str (toString10 (chainId network))) ++ ", "
          ++ JSON_stringify "name" ++ ": "
          ++ JSON_stringify (network_name network) ++ " } }")].

Definition unresolved : string -> string := unresolved_on amoy.

(** [resolveAddress(target, resolver)], which every address argument
    and the target of a contract call go through: a string of the form
    0x and 40 hex digits is checked by [getAddress]; every other string
    is taken for a name. *)
Definition resolveAddress (target : string) : Result string :=
  if is_prefixed_form target then getAddress target
  else Failed (unresolved target).

(** The 20-byte value of an address a contract call is given. *)
Definition address_value (value : string) : Result N :=
  match resolveAddress value with
  | Failed e => Failed e
  | Ok a =>
      match hex_number (drop 2 (chars a)) 0 with
      | Some n =>
          if (n <? 2 ^ 160)%N then Ok n
          else Failed (invalid_argument "invalid address" "address" a)
      | None => Failed (invalid_argument "invalid address" "address" a)
      end
  end.

(** [/^0x([0-9a-f][0-9a-f])*$/i] *)
Definition is_bytes_form (value : string) : bool :=
  match chars value with
  | "0"%char :: x :: h =>
      (Ascii.eqb x "x" || Ascii.eqb x "X") && Nat.even (length h) && forallb is_hex h
  | _ => false
  end.

(** The value of the [bytes32] argument [_certHash]: 0x and 64 hex
    digits. *)
Definition bytes32_value (value : string) : Result N :=
  if is_bytes_form value then
    match (length (drop 2 (chars value)) =? 64)%nat,
          hex_number (drop 2 (chars value)) 0 with
    | true, Some n => Ok n
    | _, _ => Failed (invalid_argument "incorrect data length" "_certHash" value)
    end
  else Failed (invalid_argument "invalid BytesLike value" "value" value).

End Ethers.

(** * Programs that call collaborators *)

(** The JavaScript handlers are sequential programs over calls to
    collaborators (the identity provider, the record store, the file
    store, the ledger node, the browser).  A program is a finite tree:
    it returns, throws, or performs a call and continues with its answer.
    What the calls answer is the business of an oracle, given when the
    program is run; a run records every call with its answer. *)
Module Prog.

Inductive t (E : Type -> Type) (A : Type) : Type :=
| Ret (a : A)
| Throw (message : string)
| Vis {X : Type} (e : E X) (k : X -> t E A).
Arguments Ret {E A} a.
Arguments Throw {E A} message.
Arguments Vis {E A X} e k.

Fixpoint bind {E A B} (p : t E A) (k : A -> t E B) : t E B :=
  match p with
  | Ret a => k a
  | Throw m => Throw m
  | Vis e h => Vis e (fun x => bind (h x) k)
  end.

(** [await e] *)
Definition trigger {E X} (e : E X) : t E X := Vis e Ret.

(** [try { p } catch (error) { h error.message }] *)
Fixpoint try_catch {E A} (p : t E A) (h : string -> t E A) : t E A :=
  match p with
  | Ret a => Ret a
  | Throw m => h m
  | Vis e k => Vis e (fun x => try_catch (k x) h)
  end.

(** [try { p } finally { f }] *)
Fixpoint finally {E A} (p : t E A) (f : t E unit) : t E A :=
  match p with
  | Ret a => bind f (fun _ => Ret a)
  | Throw m => bind f (fun _ => Throw m)
  | Vis e k => Vis e (fun x => finally (k x) f)
  end.

(** A call that resolves or rejects. *)
Definition await {E A} (e : E (Result A)) : t E A :=
  Vis e (fun r => match r with Ok a => Ret a | Failed m => Throw m end).

Definition lift {E A} (r : Result A) : t E A :=
  match r with Ok a => Ret a | Failed m => Throw m end.

(** One performed call and its answer. *)
Inductive Call (E : Type -> Type) : Type :=
| MkCall {X : Type} (e : E X) (x : X).
Arguments MkCall {E X} e x.

Section Run.
Context {E : Type -> Type} {S : Type}.
Variable oracle : forall X, E X -> S -> X * S.

(** The calls performed (oldest first), the final state of the
    collaborators, and the outcome. *)
Fixpoint run {A} (p : t E A) (s : S) : list (Call E) * S * Result A :=
  match p with
  | Ret a => ([], s, Ok a)
  | Throw m => ([], s, Failed m)
  | Vis e k =>
      let (x, s') := oracle _ e s in
      let '(tr, s'', r) := run (k x) s' in
      (MkCall e x :: tr, s'', r)
  end.

Definition trace {A} (p : t E A) (s : S) : list (Call E) := fst (fst (run p s)).
Definition final {A} (p : t E A) (s : S) : S := snd (fst (run p s)).
Definition outcome {A} (p : t E A) (s : S) : Result A := snd (run p s).

End Run.

Declare Scope prog_scope.
Delimit Scope prog_scope with prog.
Notation "'let*' x ':=' c 'in' k" := (bind c (fun x => k))
  (at level 10, x pattern, c at level 100, k at level 200) : prog_scope.
Notation "c1 ';;;' c2" := (bind c1 (fun _ => c2))
  (at level 100, c2 at level 200, right associativity) : prog_scope.

End Prog.

(** * The answers of the hosted backend *)
Module Supabase.

(** The [{ data, error }] pair every client call resolves to. *)
Record Reply (A : Type) : Type := mkReply {
  data : option A;
  error : option string
}.
Arguments mkReply {A} data error.
Arguments data {A} r.
Arguments error {A} r.

(** A row of [donor_certificates]. *)
Record Certificate : Type := mkCertificate {
  id : string;
  donor_id : string;
  file_path : string;
  cert_hash : option string;
  donor_wallet_address : option string;
  eligible : option bool;
  tx_hash : option string;
  chain_address : option string;
  admin_notes : option string;
  verified_at : option string;
  reviewed_by : option string
}.

Record User : Type := mkUser { user_id : string }.
Record Profile : Type := mkProfile { role : string }.

End Supabase.

(** * The approval orchestrator: verify-certificate/index.ts *)
Module VerifyCertificate.
Import Js Prog Supabase.
Local Open Scope prog_scope.

(** [interface VerifyRequest]; a missing or null field is [None]. *)
Record VerifyRequest : Type := mkVerifyRequest {
  certificateId : option string;
  donorWalletAddress : option string;
  eligible : bool;
  adminNotes : option string
}.

(** What the handler reads of the HTTP request; [json] is what
    [req.json()] resolves to, or the error it rejects with. *)
Record Request : Type := mkRequest {
  method : string;
  authorization : option string;
  json : Result VerifyRequest
}.

Record SuccessData : Type := mkSuccessData {
  s_certificateId : string;
  s_certHash : string;
  s_txHash : string;
  s_blockNumber : N;
  s_contractAddress : string;
  s_eligible : bool;
  s_verifiedAt : string
}.

(** The body of a response: the preflight text, or the JSON object with
    [success: true] and [data], or with [success: false] and [error]. *)
Inductive Body : Type :=
| Text (text : string)
| Success (data : SuccessData)
| Failure (error : string).

Record Response : Type := mkResponse {
  status : N;
  body : Body
}.

(** An [ethers.Contract] connected to a wallet. *)
Record Contract : Type := mkContract {
  target : string;
  signer : DonorVerification.address
}.

Record TransactionResponse : Type := mkTransactionResponse {
  hash : string;
  nonce : N
}.

Record Receipt : Type := mkReceipt { blockNumber : N }.

(** The object given to [.update(...)]. *)
Record Update : Type := mkUpdate {
  u_cert_hash : string;
  u_eligible : bool;
  u_tx_hash : string;
  u_chain_address : string;
  u_verified_at : string;
  u_reviewed_by : string;
  u_admin_notes : option string
}.

(** The calls the handler makes. *)
Inductive E : Type -> Type :=
| EnvGet (name : string) : E (option string)
| CreateClient (url key : option string) : E (Result unit)
| AuthGetUser (token : string) : E (Reply User)
| SelectRole (userId : string) : E (Reply Profile)
| SelectCertificate (certificateId : string) : E (Reply Certificate)
| StorageDownload (path : string) : E (Reply (list Byte.byte))
| NewContract (rpcUrl privateKey contractAddress : string) : E (Result Contract)
| StoreVerification (c : Contract) (donor certHash : string) (eligible : bool)
    : E (Result TransactionResponse)
| Wait (tx : TransactionResponse) : E (Result Receipt)
| UpdateCertificate (certificateId : string) (u : Update) : E (option string)
| Now : E string
| ConsoleLog (line : string) : E unit
| ConsoleError (line : string) : E unit.

Definition computeFileHash := CertificateHash.computeFileHash.

(** [error?.message] inside a template literal. *)
Definition message_of (error : option string) : string :=
  match error with Some m => m | None => "undefined" end.

(** The body of the [try] block. *)
Definition attempt (req : Request) : Prog.t E Response :=
  let* supabaseUrl := trigger (EnvGet "SUPABASE_URL") in
  let* supabaseServiceKey := trigger (EnvGet "SUPABASE_SERVICE_ROLE_KEY") in
  await (CreateClient supabaseUrl supabaseServiceKey) ;;;
  match authorization req with
  | None => Throw "Missing authorization header"
  | Some authHeader =>
  if falsy (Some authHeader) then Throw "Missing authorization header" else
  let token := replace_first "Bearer " "" authHeader in
  let* auth := trigger (AuthGetUser token) in
  match error auth, data auth with
  | None, Some user =>
  let* prof := trigger (SelectRole (user_id user)) in
  match error prof, data prof with
  | None, Some profile =>
  if negb (String.eqb (role profile) "hospital")
  then Throw "Only hospital staff can verify certificates" else
  let* body := lift (json req) in
  match certificateId body, donorWalletAddress body with
  | Some certificateId, Some donorWalletAddress =>
  if falsy (Some certificateId) || falsy (Some donorWalletAddress)
  then Throw "Missing required fields: certificateId, donorWalletAddress" else
  if negb (Ethers.isAddress donorWalletAddress)
  then Throw "Invalid Ethereum address format" else
  let* cert := trigger (SelectCertificate certificateId) in
  match error cert, data cert with
  | None, Some certificate =>
  let* dl := trigger (StorageDownload (file_path certificate)) in
  match error dl, data dl with
  | None, Some fileData =>
  let certHash := computeFileHash fileData in
  trigger (ConsoleLog ("Computed certificate hash: " ++ certHash)) ;;;
  let* rpcUrl := trigger (EnvGet "RPC_URL") in
  let* privateKey := trigger (EnvGet "MINTER_PRIVATE_KEY") in
  let* contractAddress := trigger (EnvGet "DONOR_CONTRACT_ADDRESS") in
  match rpcUrl, privateKey, contractAddress with
  | Some rpcUrl, Some privateKey, Some contractAddress =>
  if falsy (Some rpcUrl) || falsy (Some privateKey) || falsy (Some contractAddress)
  then Throw "Missing blockchain configuration environment variables" else
  let* contract := await (NewContract rpcUrl privateKey contractAddress) in
  trigger (ConsoleLog "Storing verification on blockchain...") ;;;
  trigger (ConsoleLog ("Donor address: " ++ donorWalletAddress)) ;;;
  trigger (ConsoleLog ("Certificate hash: " ++ certHash)) ;;;
  trigger (ConsoleLog (if eligible body then "Eligible: true" else "Eligible: false")) ;;;
  let* tx := await (StoreVerification contract donorWalletAddress certHash
                      (eligible body)) in
  trigger (ConsoleLog ("Transaction submitted: " ++ hash tx)) ;;;
  let* receipt := await (Wait tx) in
  trigger (ConsoleLog "Transaction confirmed in block") ;;;
  let* verified_at := trigger Now in
  let* updateError := trigger (UpdateCertificate certificateId
      (mkUpdate certHash (eligible body) (hash tx) contractAddress verified_at
         (user_id user)
         (if falsy (adminNotes body) then None else adminNotes body))) in
  match updateError with
  | Some e =>
      trigger (ConsoleError ("Failed to update database: " ++ e)) ;;;
      Throw "Blockchain verification successful but database update failed"
  | None =>
      let* verifiedAt := trigger Now in
      Ret (mkResponse 200
             (Success (mkSuccessData certificateId certHash (hash tx)
                         (blockNumber receipt) contractAddress (eligible body)
                         verifiedAt)))
  end
  | _, _, _ => Throw "Missing blockchain configuration environment variables"
  end
  | downloadError, _ =>
      Throw ("Failed to download certificate file: " ++ message_of downloadError)
  end
  | _, _ => Throw "Certificate not found"
  end
  | _, _ => Throw "Missing required fields: certificateId, donorWalletAddress"
  end
  | _, _ => Throw "Only hospital staff can verify certificates"
  end
  | _, _ => Throw "Unauthorized"
  end
  end.

(** The handler given to [serve]. *)
Definition handler (req : Request) : Prog.t E Response :=
  if String.eqb (method req) "OPTIONS" then Ret (mkResponse 200 (Text "ok"))
  else
    try_catch (attempt req)
      (fun message =>
         trigger (ConsoleError ("Error in verify-certificate function: " ++ message)) ;;;
         Ret (mkResponse 400
                (Failure (if (String.length message =? 0)%nat
                          then "Internal server error" else message)))).

(** *** The collaborators *)

(** Which collaborators are failing.  The hosted backend fails with a
    message of its own.  A failure of the ledger node reaches the handler
    as the error the ledger client makes of it: [rpc_error] and
    [confirm_error] are that error for a request of the submission and of
    the wait; [revert_details] is what the client prints of the request
    (action, data, transaction, ...) with a call that reverts. *)
Record Outage : Type := mkOutage {
  auth_error : option string;
  select_error : option string;
  storage_error : option string;
  rpc_error : option Ethers.Thrown;
  confirm_error : option Ethers.Thrown;
  update_error : option string;
  revert_details : list string
}.

Definition no_outage : Outage := mkOutage None None None None None None [].

(** A transaction waiting to be mined. *)
Record Pending : Type := mkPending {
  p_sender : DonorVerification.address;
  p_call : DonorVerification.Tx
}.

(** The identity provider, the record store, the file store and the
    ledger node, as far as the handler can observe them. *)
Record World : Type := mkWorld {
  env : gmap string string;
  sessions : gmap string string;
  roles : gmap string string;
  certificates : gmap string Certificate;
  bucket : gmap string (list Byte.byte);
  wallets : gmap string DonorVerification.address;
  chain : DonorVerification.State;
  mempool : gmap N Pending;
  tx_count : N;
  block_number : N;
  block_time : N;
  clock : string;
  outage : Outage
}.

Definition with_certificates (w : World) (c : gmap string Certificate) : World :=
  mkWorld (env w) (sessions w) (roles w) c (bucket w) (wallets w) (chain w)
    (mempool w) (tx_count w) (block_number w) (block_time w) (clock w) (outage w).

Definition with_mempool (w : World) (m : gmap N Pending) (n : N) : World :=
  mkWorld (env w) (sessions w) (roles w) (certificates w) (bucket w) (wallets w)
    (chain w) m n (block_number w) (block_time w) (clock w) (outage w).

Definition with_block (w : World) (c : DonorVerification.State)
    (m : gmap N Pending) : World :=
  mkWorld (env w) (sessions w) (roles w) (certificates w) (bucket w) (wallets w)
    c m (tx_count w) (block_number w + 1) (block_time w + 1) (clock w) (outage w).

(** [.single()]: the row, or an error when there is none. *)
Definition single {A} (failing : option string) (row : option A) : Reply A :=
  match failing, row with
  | Some e, _ => mkReply None (Some e)
  | None, Some a => mkReply (Some a) None
  | None, None => mkReply None (Some "JSON object requested, multiple (or no) rows returned")
  end.

Definition apply_update (u : Update) (c : Certificate) : Certificate :=
  mkCertificate (id c) (donor_id c) (file_path c) (Some (u_cert_hash u))
    (donor_wallet_address c) (Some (u_eligible u)) (Some (u_tx_hash u))
    (Some (u_chain_address u)) (u_admin_notes u) (Some (u_verified_at u))
    (Some (u_reviewed_by u)).

(** Submitting [storeVerification].  The ledger client first resolves
    the address argument, encodes the arguments and resolves the target of
    the call, and fails by itself when one of them is not acceptable; only
    then does it turn to the node: the call is simulated against the
    current state (gas estimation), and the transaction enters the
    mempool. *)
Definition submit (w : World) (c : Contract) (donor certHash : string)
    (eligible : bool) : Result TransactionResponse * World :=
  match Ethers.address_value donor, Ethers.bytes32_value certHash,
        Ethers.address_value (target c) with
  | Failed e, _, _ => (Failed e, w)
  | _, Failed e, _ => (Failed e, w)
  | _, _, Failed e => (Failed e, w)
  | Ok d, Ok h, Ok _ =>
      match rpc_error (outage w) with
      | Some e => (Failed (Ethers.thrown_message e), w)
      | None =>
          let m := DonorVerification.mkMsg (signer c) (block_time w) in
          match DonorVerification.storeVerification d h eligible m (chain w) with
          | Failed reason =>
              (Failed (Ethers.makeError
                         ("execution reverted: " ++ JSON_stringify reason)
                         "CALL_EXCEPTION" (revert_details (outage w))), w)
          | Ok _ =>
              (Ok (mkTransactionResponse ("0x" ++ toString16 (tx_count w)) (tx_count w)),
               with_mempool w
                 (<[tx_count w :=
                      mkPending (signer c)
                        (DonorVerification.TxStoreVerification d h eligible)]>
                    (mempool w))
                 (tx_count w + 1))
          end
      end
  end.

(** Waiting for a transaction: it is mined in the next block, unless the
    node fails first. *)
Definition confirm (w : World) (tx : TransactionResponse) : Result Receipt * World :=
  match confirm_error (outage w) with
  | Some e => (Failed (Ethers.thrown_message e), w)
  | None =>
      match mempool w !! nonce tx with
      | None =>
          (* the handler never waits for a transaction it has not submitted *)
          (Failed (Ethers.makeError "could not coalesce error" "UNKNOWN_ERROR"
                     [Ethers.detail "error" "transaction not found"]), w)
      | Some p =>
          let m := DonorVerification.mkMsg (p_sender p) (block_time w) in
          let w' := with_block w (DonorVerification.transact m (p_call p) (chain w))
                      (delete (nonce tx) (mempool w)) in
          if DonorVerification.succeeds m (p_call p) (chain w)
          then (Ok (mkReceipt (block_number w')), w')
          else (Failed (Ethers.makeError "transaction execution reverted"
                          "CALL_EXCEPTION" (revert_details (outage w))), w')
      end
  end.

Definition perform (X : Type) (e : E X) (w : World) : X * World :=
  match e in E X return X * World with
  | EnvGet name => (env w !! name, w)
  | CreateClient url key =>
      (if falsy url then Failed "supabaseUrl is required."
       else if falsy key then Failed "supabaseKey is required."
       else Ok tt, w)
  | AuthGetUser token =>
      (single (auth_error (outage w)) (mkUser <$> sessions w !! token), w)
  | SelectRole userId =>
      (single (select_error (outage w)) (mkProfile <$> roles w !! userId), w)
  | SelectCertificate certificateId =>
      (single (select_error (outage w)) (certificates w !! certificateId), w)
  | StorageDownload path =>
      (single (storage_error (outage w)) (bucket w !! path), w)
  | NewContract rpcUrl privateKey contractAddress =>
      (match wallets w !! privateKey with
       | Some a => Ok (mkContract contractAddress a)
       | None =>
           Failed (Ethers.invalid_argument "invalid private key" "privateKey"
                     "[REDACTED]")
       end, w)
  | StoreVerification c donor certHash eligible => submit w c donor certHash eligible
  | Wait tx => confirm w tx
  | UpdateCertificate certificateId u =>
      match update_error (outage w) with
      | Some e => (Some e, w)
      | None =>
          (None, with_certificates w (alter (apply_update u) certificateId (certificates w)))
      end
  | Now => (clock w, w)
  | ConsoleLog _ | ConsoleError _ => (tt, w)
  end.

(** *** Reading a run *)

Definition is_update (c : Call E) : bool :=
  match c with
  | MkCall (UpdateCertificate _ _) _ => true
  | _ => false
  end.

Definition is_submit (c : Call E) : bool :=
  match c with
  | MkCall (StoreVerification _ _ _ _) _ => true
  | _ => false
  end.

Definition is_download (c : Call E) : bool :=
  match c with
  | MkCall (StorageDownload _) _ => true
  | _ => false
  end.

Definition is_wait (c : Call E) : bool :=
  match c with
  | MkCall (Wait _) _ => true
  | _ => false
  end.


(** The call was a step of the ledger write and it failed. *)
Definition is_ledger_failure (c : Call E) : bool :=
  match c with
  | MkCall (StoreVerification _ _ _ _) (Failed _) => true
  | MkCall (Wait _) (Failed _) => true
  | _ => false
  end.

(** The progress of the ledger write along a trace. *)
Inductive Phase : Type :=
| NotSubmitted
| Submitted (tx : TransactionResponse)
| Confirmed.

Definition tx_eqb (a b : TransactionResponse) : bool :=
  String.eqb (hash a) (hash b) && (nonce a =? nonce b)%N.

Definition advance (ph : Phase) (c : Call E) : Phase :=
  match c with
  | MkCall (StoreVerification _ _ _ _) r =>
      match r with Ok tx => Submitted tx | Failed _ => NotSubmitted end
  | MkCall (Wait tx) r =>
      match ph, r with
      | Submitted tx', Ok _ => if tx_eqb tx tx' then Confirmed else ph
      | _, _ => ph
      end
  | _ => ph
  end.

(** Every record-store update in the trace comes after a submission that
    succeeded and a wait on that transaction that succeeded. *)
Fixpoint ledger_first (ph : Phase) (tr : list (Call E)) : bool :=
  match tr with
  | [] => true
  | c :: tr' =>
      (if is_update c then match ph with Confirmed => true | _ => false end else true)
      && ledger_first (advance ph c) tr'
  end.

(** Every hash submitted to the ledger is [computeFileHash] of the bytes
    the latest download returned. *)
Fixpoint hash_recomputed (last : option (list Byte.byte)) (tr : list (Call E)) : bool :=
  match tr with
  | [] => true
  | MkCall (StorageDownload _) r :: tr' => hash_recomputed (data r) tr'
  | MkCall (StoreVerification _ _ h _) _ :: tr' =>
      match last with
      | Some bytes => String.eqb h (computeFileHash bytes)
      | None => false
      end && hash_recomputed last tr'
  | _ :: tr' => hash_recomputed last tr'
  end.

Definition is_failed_update (c : Call E) : bool :=
  match c with
  | MkCall (UpdateCertificate _ _) (Some _) => true
  | _ => false
  end.

Definition is_applied_update (c : Call E) : bool :=
  match c with
  | MkCall (UpdateCertificate _ _) None => true
  | _ => false
  end.

(** A collaborator rejected a call with this very message. *)
Definition rejected_with (message : string) (c : Call E) : bool :=
  match c with
  | MkCall (CreateClient _ _) (Failed m) => String.eqb m message
  | MkCall (NewContract _ _ _) (Failed m) => String.eqb m message
  | MkCall (StoreVerification _ _ _ _) (Failed m) => String.eqb m message
  | MkCall (Wait _) (Failed m) => String.eqb m message
  | _ => false
  end.

(** The call reads the stored file, writes to the ledger or updates the
    record store. *)
Definition touches_stores (c : Call E) : bool :=
  is_download c || is_submit c || is_wait c || is_update c.

(** The creation of the record-store client was rejected with this very
    message. *)
Definition client_rejected_with (message : string) (c : Call E) : bool :=
  match c with
  | MkCall (CreateClient _ _) (Failed m) => String.eqb m message
  | _ => false
  end.

(** A call of the ledger client that failed did so with an error of the
    client's own making. *)
Definition ledger_worded (c : Call E) : bool :=
  match c with
  | MkCall (NewContract _ _ _) (Failed m) => Ethers.is_error_message m
  | MkCall (StoreVerification _ _ _ _) (Failed m) => Ethers.is_error_message m
  | MkCall (Wait _) (Failed m) => Ethers.is_error_message m
  | _ => true
  end.

(** [req.json()] rejected with this very message. *)
Definition json_rejected_with (message : string) (req : Request) : bool :=
  match json req with
  | Failed m => String.eqb m message
  | Ok _ => false
  end.

Definition inconsistency_message : string :=
  "Blockchain verification successful but database update failed".

(** The response of the [catch] block. *)
Definition failure_response (message : string) : Response :=
  mkResponse 400 (Failure message).

Definition is_failure_response (r : Result Response) : bool :=
  match r with
  | Ok (mkResponse 400 (Failure _)) => true
  | _ => false
  end.

(** The preflight answer or the [success: true] answer, both 200. *)
Definition is_success_response (r : Result Response) : bool :=
  match r with
  | Ok (mkResponse 200 (Success _ | Text _)) => true
  | _ => false
  end.

(** The certificate a request names. *)
Definition requested (req : Request) : option string :=
  match json req with
  | Ok body => certificateId body
  | Failed _ => None
  end.

(** The hash the handler is bound to submit for a request in a world:
    that of the stored file of the certificate the request names. *)
Definition file_hash (w : World) (req : Request) : option string :=
  match requested req with
  | Some cid =>
      match certificates w !! cid with
      | Some cert => computeFileHash <$> bucket w !! file_path cert
      | None => None
      end
  | None => None
  end.

Definition submits_hash (expected : option string) (c : Call E) : bool :=
  match c with
  | MkCall (StoreVerification _ _ h _) _ =>
      match expected with
      | Some h' => String.eqb h h'
      | None => false
      end
  | _ => true
  end.

(** A submission was accepted and the wait on that very transaction
    succeeded, in this order, somewhere in [pre]. *)
Definition confirmed_in (pre : list (Call VerifyCertificate.E)) : Prop :=
  exists a b d c donor h e tx rc,
    pre = (a ++ MkCall (StoreVerification c donor h e) (Ok tx)
            :: b ++ MkCall (Wait tx) (Ok rc) :: d)%list.

Definition phase_ok (ph : Phase) (pre : list (Call VerifyCertificate.E)) : Prop :=
  match ph with
  | NotSubmitted => True
  | Submitted tx =>
      exists a b c donor h e,
        pre = (a ++ MkCall (StoreVerification c donor h e) (Ok tx) :: b)%list
  | Confirmed => confirmed_in pre
  end.

(** The bytes the most recent download in [pre] returned. *)
Fixpoint last_download (last : option (list Byte.byte))
    (pre : list (Call VerifyCertificate.E)) : option (list Byte.byte) :=
  match pre with
  | [] => last
  | MkCall (StorageDownload _) r :: pre' => last_download (data r) pre'
  | _ :: pre' => last_download last pre'
  end.

(** [hasRecord] of the deployed contract, for an address given as text. *)
Definition has_record (w : World) (address : string) : Result bool :=
  match Ethers.address_value address with
  | Ok d =>
      match DonorVerification.hasRecord d (DonorVerification.mkMsg 0 0) (chain w) with
      | Ok (b, _) => Ok b
      | Failed e => Failed e
      end
  | Failed e => Failed e
  end.

End VerifyCertificate.

(** * The browser side *)

(** The blockchain verification service of the front end and the
    handlers of its three components (certificate upload, certificate
    verification, certificate approval). *)
Module Browser.
Import Js Prog Supabase.
Local Open Scope prog_scope.

(** [import.meta.env] *)
Record ViteEnv : Type := mkViteEnv {
  VITE_CONTRACT_ADDRESS : option string;
  VITE_RPC_URL : option string;
  VITE_SUPABASE_URL : option string
}.


(** A read-only [ethers.Contract]. *)
Record ReadContract : Type := mkReadContract {
  rc_target : string;
  rc_rpcUrl : string
}.

Record File : Type := mkFile {
  f_name : string;
  f_type : string;
  f_content : list Byte.byte
}.

Record Session : Type := mkSession { access_token : string }.

(** What [fetch] resolves to; [parsed] is [JSON.parse] of the body
    text, or the error it throws. *)
Record HttpResponse : Type := mkHttpResponse {
  ok : bool;
  http_status : N;
  statusText : string;
  parsed : Result VerifyCertificate.Body
}.

(** The row given to [insert]. *)
Record NewCertificate : Type := mkNewCertificate {
  n_donor_id : string;
  n_file_path : string;
  n_cert_hash : string;
  n_donor_wallet_address : string
}.

Record Donor : Type := mkDonor {
  full_name : string;
  blood_type : string;
  phone : string
}.

(** The object [verifyHashOnBlockchain] returns; [timestamp] is a
    JavaScript number. *)
Record HashVerdict : Type := mkHashVerdict {
  v_eligible : bool;
  v_timestamp : N;
  v_matches : bool;
  v_timestampDate : option Date
}.

(** The object [getDonorBlockchainRecord] returns when a record exists. *)
Record ChainRecord : Type := mkChainRecord {
  r_certHash : string;
  r_eligible : bool;
  r_timestamp : N;
  r_timestampDate : Date;
  r_exists : bool
}.

(** What the verification component shows. *)
Inductive Shown : Type :=
| ShownFile (certHash walletAddress : string) (verdict : HashVerdict)
| ShownAddress (walletAddress : string) (record : ChainRecord).

(** Effects on the page itself: component state, dialogs, the event. *)
Inductive UiAction : Type :=
| PreventDefault
| SetError (message : option string)
| SetVerifying (b : bool)
| SetVerificationResult (r : option Shown)
| SetIsUploading (b : bool)
| SetSuccess (b : bool)
| ResetUploadForm
| OnUploadComplete
| ClearSuccessLater
| Alert (text : string)
| SetProcessingId (id : option string)
| SetLoading (b : bool)
| SetPendingCerts (l : list (Certificate * Donor))
| SetVerifiedCerts (l : list (Certificate * Donor))
| CloseReviewModal.

(** The calls the browser code makes. *)
Inductive E : Type -> Type :=
| CallVerify (c : ReadContract) (donorAddress certHash : string)
    : E (Result (bool * N * bool))
| CallGetRecord (c : ReadContract) (donorAddress : string)
    : E (Result (string * bool * N * bool))
| CallHasRecord (c : ReadContract) (donorAddress : string) : E (Result bool)
| GetSession : E (option Session)
| Fetch (url accessToken : string) (payload : VerifyCertificate.VerifyRequest)
    : E (Result HttpResponse)
| StorageUpload (path : string) (file : File) : E (Reply string)
| InsertCertificate (row : NewCertificate) : E (Reply Certificate)
| SelectPending : E (Reply (list Certificate))
| SelectVerified : E (Reply (list Certificate))
| SelectDonor (donorId : string) : E (Reply Donor)
| DateNow : E N
| Console (line : string) : E unit
| Ui (a : UiAction) : E unit
| Confirm (question : string) : E bool.

(** [/^0x[a-fA-F0-9]{40}$/.test(s)] *)
Definition address_regex_test (s : string) : bool :=
  match chars s with
  | "0"%char :: "x"%char :: h => (length h =? 40)%nat && forallb is_hex h
  | _ => false
  end.

(** *** blockchainVerificationService *)

Definition getContract (env : ViteEnv) : Result ReadContract :=
  let contractAddress := VITE_CONTRACT_ADDRESS env in
  let rpcUrl :=
    if falsy (VITE_RPC_URL env) then "https://rpc-amoy.polygon.technology/"
    else default "" (VITE_RPC_URL env) in
  match contractAddress with
  | None => Failed "Contract address not configured"
  | Some a =>
      if falsy (Some a) then Failed "Contract address not configured"
      else Ok (mkReadContract a rpcUrl)
  end.


Definition decimal (n : N) : string := str (Ethers.toString10 n).








Definition verifyHashOnBlockchain (env : ViteEnv) (donorAddress certHash : string)
    : Prog.t E HashVerdict :=
  try_catch (
    let* contract := lift (getContract env) in
    let* (eligible, timestamp, matches) :=
      await (CallVerify contract donorAddress certHash) in
    Ret (mkHashVerdict eligible (Number timestamp) matches
           (if (0 <? timestamp)%N
            then Some (new_Date (times (Number timestamp) 1000))
            else None)))
  (fun message =>
     trigger (Console ("Error verifying hash on blockchain: " ++ message)) ;;;
     Throw ("Blockchain verification failed: " ++ message)).

Definition getDonorBlockchainRecord (env : ViteEnv) (donorAddress : string)
    : Prog.t E (option ChainRecord) :=
  try_catch (
    let* contract := lift (getContract env) in
    let* (certHash, eligible, timestamp, exists_) :=
      await (CallGetRecord contract donorAddress) in
    if negb exists_ then Ret None
    else Ret (Some (mkChainRecord certHash eligible (Number timestamp)
                      (new_Date (times (Number timestamp) 1000)) exists_)))
  (fun message =>
     trigger (Console ("Error fetching blockchain record: " ++ message)) ;;;
     Throw ("Failed to fetch blockchain record: " ++ message)).

Definition hasBlockchainRecord (env : ViteEnv) (donorAddress : string)
    : Prog.t E bool :=
  try_catch (
    let* contract := lift (getContract env) in
    await (CallHasRecord contract donorAddress))
  (fun message =>
     trigger (Console ("Error checking blockchain record: " ++ message)) ;;;
     Ret false).

(** *** CertificateUpload: [handleSubmit] *)

Record UploadState : Type := mkUploadState {
  u_user : option string;
  u_file : option File;
  u_walletAddress : string;
  u_onUploadComplete : bool
}.



(** *** CertificateVerification: [handleVerifyFile], [handleLookupAddress] *)




(** *** CertificateApproval: [loadCertificates], [handleApprove], [handleReject] *)





(** *** Reading a run *)


Definition shows_format_error (c : Call E) : bool :=
  match c with
  | MkCall (Ui (SetError (Some m))) _ | MkCall (Ui (Alert m)) _ =>
      String.eqb m "Invalid Ethereum wallet address format"
  | _ => false
  end.

(** *** The ledger node, read from the browser *)

Definition bytes32_hex (h : N) : string := "0x" ++ padStart 64 "0" (toString16 h).

(** A read-only contract call through a JSON-RPC provider.  The ledger
    client resolves and encodes the arguments, then resolves the target,
    and fails by itself when one of them is not acceptable; the call
    fails when the node fails it, with the message [down] the client makes
    of that; otherwise it answers what the view function returns. *)
Definition eth_call {A B} (down : option string) (c : ReadContract)
    (args : Result A) (f : A -> DonorVerification.Contract B)
    (st : DonorVerification.State) : Result B :=
  match args, Ethers.address_value (rc_target c), down with
  | Failed e, _, _ => Failed e
  | _, Failed e, _ => Failed e
  | _, _, Some e => Failed e
  | Ok a, Ok _, None =>
      match f a (DonorVerification.mkMsg 0 0) st with
      | Ok (b, _) => Ok b
      | Failed e => Failed e
      end
  end.

Definition verify_args (donorAddress certHash : string) : Result (N * N) :=
  match Ethers.address_value donorAddress, Ethers.bytes32_value certHash with
  | Ok d, Ok h => Ok (d, h)
  | Failed e, _ => Failed e
  | _, Failed e => Failed e
  end.

Definition node_verify (down : option string) (st : DonorVerification.State)
    (c : ReadContract) (donorAddress certHash : string)
    : Result (bool * N * bool) :=
  eth_call down c (verify_args donorAddress certHash)
    (fun a => DonorVerification.verify (fst a) (snd a)) st.

Definition node_getRecord (down : option string) (st : DonorVerification.State)
    (c : ReadContract) (donorAddress : string)
    : Result (string * bool * N * bool) :=
  match eth_call down c (Ethers.address_value donorAddress)
          DonorVerification.getRecord st with
  | Ok (h, e, t, x) => Ok (bytes32_hex h, e, t, x)
  | Failed e => Failed e
  end.

Definition node_hasRecord (down : option string) (st : DonorVerification.State)
    (c : ReadContract) (donorAddress : string) : Result bool :=
  eth_call down c (Ethers.address_value donorAddress) DonorVerification.hasRecord st.

(** A run answers its ledger reads from this node. *)
Definition reads_from (down : option string) (st : DonorVerification.State)
    (c : Call E) : bool :=
  match c with
  | MkCall (CallVerify rc a h) r =>
      match r, node_verify down st rc a h with
      | Ok (e, t, m), Ok (e', t', m') =>
          Bool.eqb e e' && (t =? t')%N && Bool.eqb m m'
      | Failed _, Failed _ => true
      | _, _ => false
      end
  | MkCall (CallGetRecord rc a) r =>
      match r, node_getRecord down st rc a with
      | Ok (h, e, t, x), Ok (h', e', t', x') =>
          String.eqb h h' && Bool.eqb e e' && (t =? t')%N && Bool.eqb x x'
      | Failed _, Failed _ => true
      | _, _ => false
      end
  | MkCall (CallHasRecord rc a) r =>
      match r, node_hasRecord down st rc a with
      | Ok b, Ok b' => Bool.eqb b b'
      | Failed _, Failed _ => true
      | _, _ => false
      end
  | _ => true
  end.


(** What the first ledger read of a trace was answered. *)
Definition hasRecord_answer (tr : list (Call E)) : option (Result bool) :=
  match tr with
  | MkCall (CallHasRecord _ _) r :: _ => Some r
  | _ => None
  end.

Definition verify_answer (tr : list (Call E))
    : option (Result (bool * N * bool)) :=
  match tr with
  | MkCall (CallVerify _ _ _) r :: _ => Some r
  | _ => None
  end.

Definition getRecord_answer (tr : list (Call E))
    : option (Result (string * bool * N * bool)) :=
  match tr with
  | MkCall (CallGetRecord _ _) r :: _ => Some r
  | _ => None
  end.

(** A page whose only reachable collaborator is the ledger node: the
    reads are answered from the contract state, everything else of the
    backend is out of reach. *)
Definition node_oracle (down : option string) (X : Type) (e : E X)
    (st : DonorVerification.State) : X * DonorVerification.State :=
  match e in E X return X * DonorVerification.State with
  | CallVerify c a h => (node_verify down st c a h, st)
  | CallGetRecord c a => (node_getRecord down st c a, st)
  | CallHasRecord c a => (node_hasRecord down st c a, st)
  | GetSession => (None, st)
  | Fetch _ _ _ => (Failed "Failed to fetch", st)
  | StorageUpload _ _ => (mkReply None (Some "Failed to fetch"), st)
  | InsertCertificate _ => (mkReply None (Some "Failed to fetch"), st)
  | SelectPending | SelectVerified => (mkReply None (Some "Failed to fetch"), st)
  | SelectDonor _ => (mkReply None (Some "Failed to fetch"), st)
  | DateNow => (0%N, st)
  | Console _ | Ui _ => (tt, st)
  | Confirm _ => (true, st)
  end.


End Browser.

(** * certificateHash.js: the helpers around the hash *)
Module CertificateUtils.
Import Js.

(** [/^[0-9a-fA-F]{64}$/.test(s)] *)
Definition hex64_test (s : string) : bool :=
  (length (chars s) =? 64)%nat && forallb is_hex (chars s).

(** [hexToBytes32] *)
Definition hexToBytes32 (hexString : string) : Result string :=
  let cleanHex :=
    if startsWith "0x" hexString then str (drop 2 (chars hexString))
    else hexString in
  if negb (hex64_test cleanHex)
  then Failed "Invalid hex string for bytes32 conversion"
  else Ok ("0x" ++ cleanHex).

(** The [options] argument of [validateCertificateFile]; a field that is
    left out is [None].  The size limit is a whole number of megabytes,
    as at the one call site. *)
Record Options : Type := mkOptions {
  maxSizeMB : option N;
  allowedTypes : option (list string)
}.

Definition no_options : Options := mkOptions None None.

(** [{ valid, error }] *)
Record Validation : Type := mkValidation {
  valid : bool;
  error : option string
}.

(** [file.size] *)
Definition size (file : Browser.File) : N :=
  N.of_nat (length (Browser.f_content file)).

(** [list.includes(x)] *)
Definition includes (l : list string) (x : string) : bool :=
  existsb (String.eqb x) l.

(** [validateCertificateFile]; a missing file is [None]. *)
Definition validateCertificateFile (file : option Browser.File) (options : Options)
    : Validation :=
  let maxSizeMB := default 10%N (maxSizeMB options) in
  let allowedTypes :=
    default ["application/pdf"; "image/jpeg"; "image/png"; "image/jpg"]
      (allowedTypes options) in
  match file with
  | None => mkValidation false (Some "No file provided")
  | Some file =>
      let maxSizeBytes := (maxSizeMB * 1024 * 1024)%N in
      if (maxSizeBytes <? size file)%N then
        mkValidation false
          (Some ("File size exceeds " ++ Browser.decimal maxSizeMB ++ "MB limit"))
      else if negb (includes allowedTypes (Browser.f_type file)) then
        mkValidation false
          (Some ("File type not allowed. Accepted types: "
                 ++ join_with ", " allowedTypes))
      else if falsy (Some (Browser.f_name file))
              || (255 <? String.length (Browser.f_name file))%nat then
        mkValidation false (Some "Invalid file name")
      else mkValidation true None
  end.

(** [compareHashes]; a missing hash is [None]. *)
Definition compareHashes (hash1 hash2 : option string) : bool :=
  match hash1, hash2 with
  | Some h1, Some h2 =>
      if falsy (Some h1) || falsy (Some h2) then false
      else
        let normalized1 := replace_first "0x" "" (toLowerCase h1) in
        let normalized2 := replace_first "0x" "" (toLowerCase h2) in
        String.eqb normalized1 normalized2
  | _, _ => false
  end.

End CertificateUtils.

(** * CertificateUpload: the state of the form *)
Module UploadForm.
Import Js CertificateUtils.

(** The [useState] cells of the component. *)
Record Form : Type := mkForm {
  file : option Browser.File;
  walletAddress : string;
  isUploading : bool;
  error : option string;
  success : bool;
  previewUrl : option string
}.

Definition initial : Form := mkForm None "" false None false None.

(** [e.target.files?.[0]] *)
Definition first_file (files : option (list Browser.File)) : option Browser.File :=
  match files with
  | Some (f :: _) => Some f
  | _ => None
  end.

(** [handleFileChange]; [createObjectURL] is the browser's. *)
Definition handleFileChange (createObjectURL : Browser.File -> string)
    (files : option (list Browser.File)) (st : Form) : Form :=
  match first_file files with
  | None =>
      mkForm None (walletAddress st) (isUploading st) None (success st) None
  | Some selectedFile =>
      let validation :=
        validateCertificateFile (Some selectedFile)
          (mkOptions (Some 10%N)
             (Some ["application/pdf"; "image/jpeg"; "image/png"; "image/jpg"])) in
      if negb (valid validation) then
        mkForm None (walletAddress st) (isUploading st)
          (CertificateUtils.error validation) (success st) None
      else
        mkForm (Some selectedFile) (walletAddress st) (isUploading st) None
          (success st)
          (if startsWith "image/" (Browser.f_type selectedFile)
           then Some (createObjectURL selectedFile) else None)
  end.

(** The wallet-address input's [onChange]. *)
Definition setWalletAddress (value : string) (st : Form) : Form :=
  mkForm (file st) value (isUploading st) (error st) (success st) (previewUrl st).

(** [handleClear] *)
Definition handleClear (st : Form) : Form :=
  mkForm None "" (isUploading st) None false None.

(** What [handleSubmit] does to the cells, by the state changes it asks
    for. *)
Definition apply_ui (a : Browser.UiAction) (st : Form) : Form :=
  match a with
  | Browser.SetError m =>
      mkForm (file st) (walletAddress st) (isUploading st) m (success st)
        (previewUrl st)
  | Browser.SetIsUploading b =>
      mkForm (file st) (walletAddress st) b (error st) (success st) (previewUrl st)
  | Browser.SetSuccess b =>
      mkForm (file st) (walletAddress st) (isUploading st) (error st) b
        (previewUrl st)
  | Browser.ResetUploadForm =>
      mkForm None "" (isUploading st) (error st) (success st) None
  | _ => st
  end.

(** What happens to the form: the user chooses a file, types an
    address or clears the form, or a submission changes a cell. *)
Inductive Action : Type :=
| ChooseFile (files : option (list Browser.File))
| TypeAddress (value : string)
| Clear
| Submission (a : Browser.UiAction).

Definition act (createObjectURL : Browser.File -> string) (st : Form) (a : Action)
    : Form :=
  match a with
  | ChooseFile files => handleFileChange createObjectURL files st
  | TypeAddress value => setWalletAddress value st
  | Clear => handleClear st
  | Submission a => apply_ui a st
  end.

(** What [handleSubmit] reads of the form. *)
Definition submitted (user : option string) (onUploadComplete : bool) (st : Form)
    : Browser.UploadState :=
  Browser.mkUploadState user (file st) (walletAddress st) onUploadComplete.

End UploadForm.

(** * CertificateVerification: what a result is shown as *)
Module VerificationView.
Import Browser.

(** [renderResult]: the verdict the banner announces. *)
Definition isValid (verificationResult : Shown) : bool :=
  match verificationResult with
  | ShownFile _ _ verdict => v_matches verdict && v_eligible verdict
  | ShownAddress _ record => r_eligible record
  end.

Inductive Banner : Type := CertificateVerified | VerificationFailed.

Definition banner (verificationResult : Shown) : Banner :=
  if isValid verificationResult then CertificateVerified else VerificationFailed.

(** The last result given to [setVerificationResult] in a run, and the
    last error given to [setError]: what the page shows afterwards. *)
Definition shown_step (acc : option Shown * option string) (c : Prog.Call E)
    : option Shown * option string :=
  match c with
  | Prog.MkCall (Ui (SetVerificationResult r)) _ => (r, snd acc)
  | Prog.MkCall (Ui (SetError m)) _ => (fst acc, m)
  | _ => acc
  end.

Definition shown (before : option Shown * option string) (tr : list (Prog.Call E))
    : option Shown * option string :=
  fold_left shown_step tr before.

End VerificationView.

(* ================================================================== *)
(** * Part II: properties *)
(* ================================================================== *)

(** ** The ledger *)
Module LedgerFacts.
Import DonorVerification.
Local Open Scope contract_scope.

(** The event a successful [storeVerification] emits in state [s]. *)
Definition write_event (m : Msg) (s : State) (a : address) (h : bytes32)
    (e : bool) : Event :=
  if exists_ (records_at s a)
  then RecordUpdated a (certHash (records_at s a)) h e (block_timestamp m)
  else RecordAdded a h e (block_timestamp m) (sender m).

Definition written (m : Msg) (s : State) (a : address) (h : bytes32)
    (e : bool) : State :=
  mkState (<[a := mkRecord a h e (block_timestamp m) true]> (records s))
    (admin s) (log s ++ [write_event m s a h e]).

Lemma storeVerification_spec m s a h e :
  storeVerification a h e m s =
    if negb (sender m =? admin s)%N then Failed "Only admin can call this function"
    else if (h =? 0)%N then Failed "Certificate hash cannot be empty"
    else Ok (tt, written m s a h e).
Proof.
  unfold storeVerification, onlyAdmin, bind, msg_sender, get_admin, require; simpl.
  destruct (sender m =? admin s)%N; simpl; [|reflexivity].
  destruct (h =? 0)%N; simpl; [reflexivity|].
  unfold written, write_event, write_record, bind, emit; simpl.
  destruct (exists_ (records_at s a)); reflexivity.
Qed.

Lemma changeAdmin_spec m s a :
  changeAdmin a m s =
    if negb (sender m =? admin s)%N then Failed "Only admin can call this function"
    else if (a =? 0)%N then Failed "New admin cannot be zero address"
    else Ok (tt, mkState (records s) a (log s ++ [AdminChanged (admin s) a])).
Proof.
  unfold changeAdmin, onlyAdmin, bind, msg_sender, get_admin, require; simpl.
  destruct (sender m =? admin s)%N; simpl; [|reflexivity].
  destruct (a =? 0)%N; reflexivity.
Qed.

Lemma succeeds_store m s a h e :
  succeeds m (TxStoreVerification a h e) s = true <->
  sender m = admin s /\ h <> 0%N.
Proof.
  unfold succeeds; simpl. rewrite storeVerification_spec.
  destruct (N.eqb_spec (sender m) (admin s)), (N.eqb_spec h 0); simpl;
    intuition congruence.
Qed.

Lemma transact_store_ok m s a h e :
  succeeds m (TxStoreVerification a h e) s = true ->
  transact m (TxStoreVerification a h e) s = written m s a h e.
Proof.
  intros H. apply succeeds_store in H as [H1 H2].
  unfold transact; simpl. rewrite storeVerification_spec.
  apply N.eqb_eq in H1. apply N.eqb_neq in H2. rewrite H1, H2. reflexivity.
Qed.

Lemma transact_fail m t s :
  succeeds m t s = false -> transact m t s = s.
Proof.
  unfold succeeds, transact. destruct (call t m s) as [[[] s']|]; simpl; congruence.
Qed.

Lemma transact_changeAdmin_records m s a :
  records (transact m (TxChangeAdmin a) s) = records s /\
  List.filter is_record_event (log (transact m (TxChangeAdmin a) s)) =
    List.filter is_record_event (log s).
Proof.
  unfold transact; simpl. rewrite changeAdmin_spec.
  destruct (negb _); [auto|]. destruct (a =? 0)%N; [auto|]. simpl.
  split; [reflexivity|]. rewrite List.filter_app. simpl. apply app_nil_r.
Qed.

Lemma records_at_written m s a h e a' :
  records_at (written m s a h e) a' =
    if decide (a = a') then mkRecord a h e (block_timestamp m) true
    else records_at s a'.
Proof.
  unfold records_at, written; simpl. rewrite lookup_insert.
  destruct (decide (a = a')); reflexivity.
Qed.

(** What the queryable state holds for [a], given the last successful
    write for [a]. *)
Definition reflects (a : address) (r : Record_)
    (w : option (bytes32 * bool * uint256)) : Prop :=
  match w with
  | Some (c, e, t) => r = mkRecord a c e t true
  | None => exists_ r = false
  end.

Lemma run_reflects a h : forall s acc,
  reflects a (records_at s a) acc ->
  reflects a (records_at (run s h) a) (last_write a s h acc).
Proof.
  induction h as [|[m t] h IH]; intros s acc Hacc; simpl; [exact Hacc|].
  apply IH. destruct t as [d c e|na].
  - destruct (succeeds m (TxStoreVerification d c e) s) eqn:Hs; simpl.
    + rewrite transact_store_ok by exact Hs. rewrite records_at_written.
      destruct (N.eqb_spec d a) as [->|Hne].
      * rewrite decide_True by reflexivity. reflexivity.
      * rewrite decide_False by exact Hne. exact Hacc.
    + rewrite transact_fail by exact Hs. exact Hacc.
  - unfold records_at. rewrite (proj1 (transact_changeAdmin_records m s na)).
    exact Hacc.
Qed.

(** Every stored record sits under its own donor address and is marked
    as existing. *)
Definition keyed (s : State) : Prop :=
  forall a r, records s !! a = Some r -> donor r = a /\ exists_ r = true.

Lemma run_keyed h : forall s, keyed s -> keyed (run s h).
Proof.
  induction h as [|[m t] h IH]; intros s Hs; simpl; [exact Hs|].
  apply IH. destruct t as [d c e|na].
  - destruct (succeeds m (TxStoreVerification d c e) s) eqn:Hok.
    + rewrite transact_store_ok by exact Hok. intros a r. unfold written; simpl.
      rewrite lookup_insert. destruct (decide (d = a)) as [->|Hne].
      * intros [= <-]. split; reflexivity.
      * apply Hs.
    + rewrite transact_fail by exact Hok. exact Hs.
  - intros a r. rewrite (proj1 (transact_changeAdmin_records m s na)). apply Hs.
Qed.

(** The log holds exactly one creation event for an address that has a
    record, and none for an address that has none. *)
Definition added_once (s : State) : Prop :=
  forall a, length (List.filter (is_added_for a) (log s)) =
            if exists_ (records_at s a) then 1%nat else 0%nat.

Lemma filter_added_changeAdmin a m s na :
  List.filter (is_added_for a) (log (transact m (TxChangeAdmin na) s)) =
  List.filter (is_added_for a) (log s).
Proof.
  unfold transact; simpl. rewrite changeAdmin_spec.
  destruct (negb _); [auto|]. destruct (na =? 0)%N; [auto|]. simpl.
  rewrite List.filter_app. simpl. apply app_nil_r.
Qed.

Lemma run_added_once h : forall s, added_once s -> added_once (run s h).
Proof.
  induction h as [|[m t] h IH]; intros s Hs; simpl; [exact Hs|].
  apply IH. destruct t as [d c e|na].
  - destruct (succeeds m (TxStoreVerification d c e) s) eqn:Hok.
    + rewrite transact_store_ok by exact Hok. intros a.
      rewrite records_at_written. unfold written, write_event; simpl.
      rewrite List.filter_app, length_app. specialize (Hs a) as Ha.
      destruct (decide (d = a)) as [->|Hne]; simpl.
      * rewrite Ha. destruct (exists_ (records_at s a)); simpl; [reflexivity|].
        rewrite N.eqb_refl. reflexivity.
      * rewrite Ha. apply N.eqb_neq in Hne.
        destruct (exists_ (records_at s d)); simpl; [lia|]. rewrite Hne. simpl. lia.
    + rewrite transact_fail by exact Hok. exact Hs.
  - intros a. rewrite filter_added_changeAdmin. specialize (Hs a).
    unfold records_at in *.
    rewrite (proj1 (transact_changeAdmin_records m s na)). exact Hs.
Qed.

Lemma emitted_store_ok m s a h e :
  succeeds m (TxStoreVerification a h e) s = true ->
  emitted m (TxStoreVerification a h e) s = [write_event m s a h e].
Proof.
  intros H. unfold emitted. rewrite transact_store_ok by exact H.
  unfold written; simpl. rewrite drop_app_length. reflexivity.
Qed.

Lemma getRecord_spec a m s :
  getRecord a m s =
    Ok ((certHash (records_at s a), eligible (records_at s a),
         timestamp (records_at s a), exists_ (records_at s a)), s).
Proof. reflexivity. Qed.

(** C2. A [storeVerification] call whose caller is not the stored admin,
    or whose hash is the all-zero [bytes32], reverts (with the reason of
    the failed [require]); the transaction then leaves the state as it
    was, so [getRecord] answers as before for every address, and it adds
    no event to the log. *)
Theorem storeVerification_rejected_no_effect :
  forall (m : Msg) (s : State) (a : address) (h : bytes32) (e : bool),
    sender m <> admin s \/ h = 0%N ->
    (storeVerification a h e m s = Failed "Only admin can call this function" \/
     storeVerification a h e m s = Failed "Certificate hash cannot be empty") /\
    (sender m <> admin s ->
       storeVerification a h e m s = Failed "Only admin can call this function") /\
    transact m (TxStoreVerification a h e) s = s /\
    (forall a' m', getRecord a' m' (transact m (TxStoreVerification a h e) s)
                   = getRecord a' m' s) /\
    emitted m (TxStoreVerification a h e) s = [].
Proof.
  intros m s a h e Hbad.
  assert (Hf : succeeds m (TxStoreVerification a h e) s = false).
  { destruct (succeeds m (TxStoreVerification a h e) s) eqn:Hs; [|reflexivity].
    apply succeeds_store in Hs as [H1 H2]. destruct Hbad; contradiction. }
  assert (Ht := transact_fail _ _ _ Hf).
  split; [|split; [|split; [|split]]].
  - rewrite storeVerification_spec.
    destruct (N.eqb_spec (sender m) (admin s)) as [Heq|Hne]; simpl; [|auto].
    destruct Hbad as [Hbad| ->]; [contradiction|]. simpl. auto.
  - intros Hne. rewrite storeVerification_spec.
    apply N.eqb_neq in Hne. rewrite Hne. reflexivity.
  - exact Ht.
  - intros a' m'. rewrite Ht. reflexivity.
  - unfold emitted. rewrite Ht. apply drop_all.
Qed.

(** A non-admin caller, and an admin caller with the zero hash. *)
Lemma storeVerification_rejected_no_effect_witness :
  let s := run (constructor (mkMsg 7 100))
             [(mkMsg 7 101, TxStoreVerification 42 0xabc true)] in
  emitted (mkMsg 8 102) (TxStoreVerification 42 0xdef false) s = [] /\
  emitted (mkMsg 7 102) (TxStoreVerification 42 0 false) s = [].
Proof.
  split.
  - apply (storeVerification_rejected_no_effect (mkMsg 8 102) _ 42 0xdef false).
    left. vm_compute. discriminate.
  - apply (storeVerification_rejected_no_effect (mkMsg 7 102) _ 42 0 false).
    right. reflexivity.
Defined.

Lemma verify_spec a h m s :
  verify a h m s =
    Ok (if exists_ (records_at s a)
        then (eligible (records_at s a), timestamp (records_at s a),
              (certHash (records_at s a) =? h)%N)
        else (false, 0%N, false), s).
Proof.
  unfold verify, bind, read_record; simpl.
  destruct (exists_ (records_at s a)); reflexivity.
Qed.

(** C3. [verify] answers [(false, 0, false)] for an address without an
    existing record, and otherwise the stored eligibility, the stored
    timestamp and whether the supplied hash equals the stored one; it
    returns the state it was given.  On a deployed contract "stored" is
    what the last successful write for that address put there, and "no
    record" means that no write for it has succeeded. *)
Theorem verify_reads_record :
  forall (a : address) (h : bytes32) (m : Msg),
    (forall s : State,
       verify a h m s =
         Ok (if exists_ (records_at s a)
             then (eligible (records_at s a), timestamp (records_at s a),
                   (certHash (records_at s a) =? h)%N)
             else (false, 0%N, false), s)) /\
    (forall (deploy : Msg) (hist : list (Msg * Tx)),
       verify a h m (run (constructor deploy) hist) =
         Ok (match last_write a (constructor deploy) hist None with
             | Some (c, e, t) => (e, t, (c =? h)%N)
             | None => (false, 0%N, false)
             end, run (constructor deploy) hist)).
Proof.
  intros a h m.
  assert (Hst := verify_spec a h m).
  split; [exact Hst|].
  intros deploy hist. rewrite Hst.
  pose proof (run_reflects a hist (constructor deploy) None) as Hr.
  simpl in Hr. specialize (Hr eq_refl).
  destruct (last_write a (constructor deploy) hist None) as [[[c e] t]|]; simpl in Hr.
  - rewrite Hr. reflexivity.
  - rewrite Hr. reflexivity.
Qed.

(** C4. In every state a deployed contract can reach: every stored record
    sits under its own donor address (so an address has at most one) and
    the log holds one creation event for an address with a record and
    none otherwise; [getRecord] shows exactly the last successful write
    for the address; a successful write emits [RecordAdded] when no write
    for the address succeeded before and [RecordUpdated] with the hash of
    the previous successful write otherwise; and after two successful
    writes in a row for one address [getRecord] shows the second. *)
Theorem ledger_overwrite_invariant :
  forall (deploy : Msg) (hist : list (Msg * Tx)),
    let s0 := constructor deploy in
    let s := run s0 hist in
    (forall a r, records s !! a = Some r -> donor r = a /\ exists_ r = true) /\
    (forall a, length (List.filter (is_added_for a) (log s)) =
               if exists_ (records_at s a) then 1%nat else 0%nat) /\
    (forall a m,
       getRecord a m s =
         Ok (match last_write a s0 hist None with
             | Some (c, e, t) => (c, e, t, true)
             | None => (0%N, false, 0%N, false)
             end, s)) /\
    (forall m a h e,
       succeeds m (TxStoreVerification a h e) s = true ->
       emitted m (TxStoreVerification a h e) s =
         match last_write a s0 hist None with
         | None => [RecordAdded a h e (block_timestamp m) (sender m)]
         | Some (old, _, _) => [RecordUpdated a old h e (block_timestamp m)]
         end) /\
    (forall m1 h1 e1 m2 h2 e2 a m,
       succeeds m1 (TxStoreVerification a h1 e1) s = true ->
       succeeds m2 (TxStoreVerification a h2 e2)
         (transact m1 (TxStoreVerification a h1 e1) s) = true ->
       let s2 := transact m2 (TxStoreVerification a h2 e2)
                   (transact m1 (TxStoreVerification a h1 e1) s) in
       getRecord a m s2 = Ok ((h2, e2, block_timestamp m2, true), s2) /\
       emitted m2 (TxStoreVerification a h2 e2)
         (transact m1 (TxStoreVerification a h1 e1) s)
         = [RecordUpdated a h1 h2 e2 (block_timestamp m2)]).
Proof.
  intros deploy hist s0 s.
  pose proof (run_reflects) as Hrefl.
  assert (Hr : forall a, reflects a (records_at s a) (last_write a s0 hist None)).
  { intros a. apply run_reflects. reflexivity. }
  split; [|split; [|split; [|split]]].
  - apply run_keyed. intros a r. unfold s0, constructor; simpl.
    rewrite lookup_empty. discriminate.
  - apply run_added_once. intros a. reflexivity.
  - intros a m. rewrite getRecord_spec. specialize (Hr a).
    destruct (last_write a s0 hist None) as [[[c e] t]|]; simpl in Hr.
    + rewrite Hr. reflexivity.
    + pose proof (run_keyed hist s0) as Hk.
      assert (Hk0 : keyed s0).
      { intros a' r. unfold s0, constructor; simpl. rewrite lookup_empty. discriminate. }
      specialize (Hk Hk0 a). fold s in Hk. unfold records_at in *.
      destruct (records s !! a) as [r|] eqn:Hl; simpl in *.
      * destruct (Hk r eq_refl) as [_ Hex]. congruence.
      * reflexivity.
  - intros m a h e Hok. rewrite emitted_store_ok by exact Hok.
    unfold write_event. specialize (Hr a).
    destruct (last_write a s0 hist None) as [[[c e'] t]|]; simpl in Hr.
    + rewrite Hr. reflexivity.
    + rewrite Hr. reflexivity.
  - intros m1 h1 e1 m2 h2 e2 a m Hok1 Hok2 s2.
    rewrite emitted_store_ok by exact Hok2.
    unfold s2. rewrite (transact_store_ok m2) by exact Hok2.
    rewrite (transact_store_ok m1) in * by exact Hok1.
    rewrite getRecord_spec. rewrite records_at_written.
    rewrite decide_True by reflexivity. simpl. split; [reflexivity|].
    unfold write_event. rewrite records_at_written.
    rewrite decide_True by reflexivity. reflexivity.
Qed.

(** A deployment by 7, a first write for 42, a rejected write by 8, then
    two more writes for 42 by the admin. *)
Lemma ledger_overwrite_invariant_witness :
  let s := run (constructor (mkMsg 7 100))
             [(mkMsg 7 101, TxStoreVerification 42 0xabc true);
              (mkMsg 8 102, TxStoreVerification 42 0xbad true)] in
  let s2 := transact (mkMsg 7 104) (TxStoreVerification 42 0x222 true)
              (transact (mkMsg 7 103) (TxStoreVerification 42 0x111 false) s) in
  emitted (mkMsg 7 103) (TxStoreVerification 42 0x111 false) s
    = [RecordUpdated 42 0xabc 0x111 false 103] /\
  getRecord 42 (mkMsg 0 0) s2 = Ok ((0x222, true, 104, true), s2).
Proof.
  pose proof (ledger_overwrite_invariant (mkMsg 7 100)
    [(mkMsg 7 101, TxStoreVerification 42 0xabc true);
     (mkMsg 8 102, TxStoreVerification 42 0xbad true)]) as H.
  cbv zeta in H. destruct H as (_ & _ & _ & Hev & Htwo).
  split.
  - rewrite (Hev (mkMsg 7 103) 42 0x111 false) by (vm_compute; reflexivity).
    vm_compute. reflexivity.
  - apply (Htwo (mkMsg 7 103) 0x111 false (mkMsg 7 104) 0x222 true 42 (mkMsg 0 0)).
    + vm_compute. reflexivity.
    + vm_compute. reflexivity.
Defined.

End LedgerFacts.

(** ** The hash engine *)
Module HashFacts.
Import Js CertificateHash.

Definition bytes_of_string (s : string) : list Byte.byte :=
  List.map byte_of_ascii (chars s).

#[local] Arguments Sha256.sha256 : simpl never.
#[local] Arguments hashHex : simpl never.
#[local] Arguments toString16 : simpl never.
#[local] Arguments padStart : simpl never.

Example sha256_constants :
  nth 0 Sha256.K 0%N = 0x428a2f98%N /\ nth 63 Sha256.K 0%N = 0xc67178f2%N /\
  length Sha256.K = 64%nat /\
  Sha256.ra Sha256.H0 = 0x6a09e667%N /\ Sha256.rh Sha256.H0 = 0x5be0cd19%N.
Proof. vm_compute. repeat split. Qed.

Example sha256_empty :
  computeFileHash [] = "0xe3b0c44298fc1c149afbf4c8996fb92427ae41e4649b934ca495991b7852b855".
Proof. vm_compute. reflexivity. Qed.

Example sha256_abc :
  computeFileHash (bytes_of_string "abc")
  = "0xba7816bf8f01cfea414140de5dae2223b00361a396177a9cb410ff61f20015ad".
Proof. vm_compute. reflexivity. Qed.

Example sha256_55 :
  computeFileHash (repeat "a"%byte 55)
  = "0x9f4390f8d30c2dd92ec9f095b65e2b9ae9b0a925a5258e241c9f1e910f734318".
Proof. vm_compute. reflexivity. Qed.

Example sha256_56 :
  computeFileHash (repeat "a"%byte 56)
  = "0xb35439a4ac6f0948b6d6f9e3c6af0f5f590ce20f1bde7090ef7970686ec6738a".
Proof. vm_compute. reflexivity. Qed.

Example sha256_all_byte_values :
  computeFileHash (List.map (fun n => default "000"%byte (Byte.of_nat n)) (seq 0 200))
  = "0x1901da1c9f699b48f6b2636e65cbf73abf99d0441ef67f5c540a42f7051dec6f".
Proof. vm_compute. reflexivity. Qed.

Example sha256_64 :
  computeFileHash (repeat "a"%byte 64)
  = "0xffe054fe7ae0cb6dc65c3af9b61d5209f439851db43d0ba5997337df154668eb".
Proof. vm_compute. reflexivity. Qed.

Lemma chars_app s1 s2 : chars (s1 ++ s2) = (chars s1 ++ chars s2)%list.
Proof. unfold chars. induction s1 as [|c s1 IH]; simpl; [reflexivity|now rewrite IH]. Qed.

Lemma str_chars s : str (chars s) = s.
Proof. apply string_of_list_ascii_of_string. Qed.

Lemma chars_str l : chars (str l) = l.
Proof. apply list_ascii_of_string_of_list_ascii. Qed.

Lemma length_str l : String.length (str l) = length l.
Proof. induction l as [|c l IH]; [reflexivity|]. simpl. now rewrite <- IH. Qed.

(** One byte renders as two lower-case hex digits that denote it. *)
Definition byte_ok (n : N) : bool :=
  match chars (padStart 2 "0" (toString16 n)) with
  | [c1; c2] =>
      is_lower_hex c1 && is_lower_hex c2 &&
      match hex_value c1, hex_value c2 with
      | Some h, Some k => (16 * h + k =? n)%N
      | _, _ => false
      end
  | _ => false
  end.

Lemma all_bytes_ok : forallb byte_ok (List.map N.of_nat (seq 0 256)) = true.
Proof. vm_compute. reflexivity. Qed.

Lemma byte_ok_lt n : (n < 256)%N -> byte_ok n = true.
Proof.
  intros Hn. pose proof all_bytes_ok as H. rewrite forallb_forall in H.
  apply H. apply in_map_iff. exists (N.to_nat n). split; [apply N2Nat.id|].
  apply in_seq. lia.
Qed.

Lemma be_bytes_length w x : length (Sha256.be_bytes w x) = w.
Proof. unfold Sha256.be_bytes. now rewrite length_map, length_rev, length_seq. Qed.

Lemma be_bytes_lt w x : Forall (fun b => b < 256)%N (Sha256.be_bytes w x).
Proof.
  unfold Sha256.be_bytes. apply List.Forall_forall. intros b Hb.
  apply in_map_iff in Hb as (i & <- & _).
  change 0xFF%N with (N.ones 8). rewrite N.land_ones.
  apply N.mod_lt. discriminate.
Qed.

Lemma sha256_length data : length (Sha256.sha256 data) = 32%nat.
Proof.
  unfold Sha256.sha256, Sha256.regs_bytes.
  rewrite !length_app, !be_bytes_length. reflexivity.
Qed.

Lemma sha256_bytes data : Forall (fun b => b < 256)%N (Sha256.sha256 data).
Proof.
  unfold Sha256.sha256, Sha256.regs_bytes.
  repeat (apply Forall_app; split); apply be_bytes_lt.
Qed.

Lemma hashHex_cons b l :
  hashHex (b :: l) = padStart 2 "0" (toString16 b) ++ hashHex l.
Proof. reflexivity. Qed.

(** The rendering of a list of bytes: two digits each, lower case, and
    reading them back gives the bytes. *)
Lemma hashHex_spec l :
  Forall (fun b => b < 256)%N l ->
  length (chars (hashHex l)) = (2 * length l)%nat /\
  forallb is_lower_hex (chars (hashHex l)) = true /\
  hex_bytes (chars (hashHex l)) = Some l.
Proof.
  induction 1 as [|b l Hb _ IH]; [repeat split|].
  destruct IH as (IHlen & IHlow & IHrd).
  rewrite hashHex_cons, chars_app.
  pose proof (byte_ok_lt b Hb) as Hok. unfold byte_ok in Hok.
  destruct (chars (padStart 2 "0" (toString16 b))) as [|c1 [|c2 [|? ?]]];
    try discriminate.
  apply andb_prop in Hok as [Hlow Hval]. apply andb_prop in Hlow as [Hl1 Hl2].
  destruct (hex_value c1) as [h|] eqn:E1; [|discriminate].
  destruct (hex_value c2) as [k|] eqn:E2; [|discriminate].
  apply N.eqb_eq in Hval.
  repeat split.
  - simpl. rewrite IHlen. simpl. lia.
  - simpl. now rewrite Hl1, Hl2, IHlow.
  - simpl. now rewrite E1, E2, IHrd, Hval.
Qed.

(** Outside a secure context the client function throws instead. *)
Lemma computeCertificateHash_without_crypto input :
  exists message, computeCertificateHash (mkWindow false) input = Failed message.
Proof. destruct input; simpl; eauto. Qed.

(** C1. For every byte sequence the server-side [computeFileHash] returns
    ["0x"] followed by 64 lower-case hex digits that spell the 32 bytes of
    the SHA-256 digest, and the client-side [computeCertificateHash], run
    where the Web Crypto API is present on a File, Blob or ArrayBuffer
    holding the same bytes, returns the same string.  Both are functions
    of the bytes alone. *)
Theorem hash_engine_agrees :
  forall b : list Byte.byte,
    (exists digits : list ascii,
       computeFileHash b = "0x" ++ str digits /\
       length digits = 64%nat /\
       forallb is_lower_hex digits = true /\
       hex_bytes digits = Some (Sha256.sha256 b)) /\
    String.length (computeFileHash b) = 66%nat /\
    (forall (window : Window) (input : FileInput),
       crypto_subtle window = true ->
       content_of input = Some b ->
       computeCertificateHash window input = Ok (computeFileHash b)).
Proof.
  intros b.
  destruct (hashHex_spec _ (sha256_bytes b)) as (Hlen & Hlow & Hrd).
  rewrite sha256_length in Hlen.
  split; [|split].
  - exists (chars (hashHex (Sha256.sha256 b))). rewrite str_chars.
    unfold computeFileHash. auto.
  - unfold computeFileHash.
    rewrite <- (str_chars (_ ++ _)), length_str, chars_app, length_app, Hlen.
    reflexivity.
  - intros window input Hc Hin. unfold computeCertificateHash, computeFileHash.
    rewrite Hc. destruct input; cbn [content_of negb] in *; try discriminate;
      injection Hin as ->; reflexivity.
Qed.

(** The bytes of "abc" as a File, as a Blob and as an ArrayBuffer. *)
Lemma hash_engine_agrees_witness :
  computeCertificateHash (mkWindow true)
    (AFile "cert.pdf" "application/pdf" (bytes_of_string "abc"))
    = Ok (computeFileHash (bytes_of_string "abc")) /\
  computeCertificateHash (mkWindow true) (ABlob (bytes_of_string "abc"))
    = Ok (computeFileHash (bytes_of_string "abc")) /\
  computeCertificateHash (mkWindow true) (AnArrayBuffer (bytes_of_string "abc"))
    = Ok (computeFileHash (bytes_of_string "abc")).
Proof.
  pose proof (hash_engine_agrees (bytes_of_string "abc")) as (_ & _ & H).
  repeat split; apply H; reflexivity.
Defined.

End HashFacts.

(** ** Address validation *)
Module AddressFacts.
Import Js Ethers.

Example keccak256_empty :
  CertificateHash.hashHex (Keccak.keccak256 [])
  = "c5d2460186f7233c927e7db2dcc703c0e500b653ca82273b7bfad8045d85a470".
Proof. vm_compute. reflexivity. Qed.

Example keccak256_abc :
  CertificateHash.hashHex (Keccak.keccak256 [97; 98; 99]%N)
  = "4e03657aea45a94fc7d47ba826c8d667c0d1e6e33a64a036ec44f58fa12d6c45".
Proof. vm_compute. reflexivity. Qed.

Example keccak256_two_blocks :
  CertificateHash.hashHex (Keccak.keccak256 (repeat 97%N 136))
  = "a6c4d403279fe3e0af03729caada8374b5ca54d8065329a3ebcaeb4b60aa386e".
Proof. vm_compute. reflexivity. Qed.

Example getAddress_checksummed :
  getAddress "0x5aAeb6053F3E94C9b9A09f33669435E7Ef1BeAed"
  = Ok "0x5aAeb6053F3E94C9b9A09f33669435E7Ef1BeAed".
Proof. vm_compute. reflexivity. Qed.

Example getAddress_lower :
  getAddress "fb6916095ca1df60bb79ce92ce3ea74c37c5d359"
  = Ok "0xfB6916095ca1df60bB79Ce92cE3Ea74c37c5d359".
Proof. vm_compute. reflexivity. Qed.

Example getAddress_bad_checksum :
  getAddress "0x5AAeb6053F3E94C9b9A09f33669435E7Ef1BeAed"
  = Failed (invalid_argument "bad address checksum" "address"
              "0x5AAeb6053F3E94C9b9A09f33669435E7Ef1BeAed").
Proof. vm_compute. reflexivity. Qed.

Example getAddress_ican :
  getAddress "XE65GB6LDNXYOFTX0NSV3FUWKOWIXAMJK36"
  = Ok "0x8ba1f109551bD432803012645Ac136ddd64DBA72".
Proof. vm_compute. reflexivity. Qed.

(** A contract call takes an address with the prefix only. *)
Example address_value_unprefixed :
  is_ok (address_value "0xfB6916095ca1df60bB79Ce92cE3Ea74c37c5d359") = true /\
  isAddress "fb6916095ca1df60bb79ce92ce3ea74c37c5d359" = true /\
  address_value "fb6916095ca1df60bb79ce92ce3ea74c37c5d359"
  = Failed (unresolved "fb6916095ca1df60bb79ce92ce3ea74c37c5d359").
Proof. vm_compute. repeat split. Qed.

(** [Number] on both sides of 2^53: exact below, nearest even above. *)
Example Number_rounds :
  Number (2 ^ 53 - 1) = (2 ^ 53 - 1)%N /\
  Number (2 ^ 53 + 1) = (2 ^ 53)%N /\
  Number (2 ^ 53 + 3) = (2 ^ 53 + 4)%N /\
  Number (2 ^ 256 - 1) = (2 ^ 256)%N /\
  times (Number 1700000000) 1000 = 1700000000000%N /\
  times (Number (2 ^ 53 - 1)) 1000 = 9007199254740990976%N.
Proof. vm_compute. repeat split. Qed.

Lemma length_chars s : length (chars s) = String.length s.
Proof. now rewrite <- (HashFacts.length_str (chars s)), HashFacts.str_chars. Qed.

Lemma endsWith_app p suffix : endsWith suffix (p ++ suffix) = true.
Proof.
  unfold endsWith.
  rewrite <- !length_chars, HashFacts.chars_app, length_app.
  replace (length (chars p) + length (chars suffix) - length (chars suffix))%nat
    with (length (chars p)) by lia.
  rewrite drop_app_length, HashFacts.str_chars. apply String.eqb_refl.
Qed.

Lemma string_app_assoc (a b c : string) : (a ++ b) ++ c = a ++ b ++ c.
Proof.
  induction a as [|x a IH]; [reflexivity|].
  change (String x ((a ++ b) ++ c) = String x (a ++ b ++ c)). now rewrite IH.
Qed.

Lemma join_with_snoc sep l x y :
  join_with sep (l ++ [x; y])%list = join_with sep (l ++ [x])%list ++ sep ++ y.
Proof.
  induction l as [|a l IH]; [reflexivity|].
  change ((a :: l) ++ [x; y])%list with (a :: (l ++ [x; y]))%list.
  change ((a :: l) ++ [x])%list with (a :: (l ++ [x]))%list.
  destruct l as [|b l].
  { change (a ++ sep ++ x ++ sep ++ y = (a ++ sep ++ x) ++ sep ++ y).
    now rewrite !string_app_assoc. }
  change (join_with sep (a :: ((b :: l) ++ [x; y]))%list)
    with (a ++ sep ++ join_with sep ((b :: l) ++ [x; y])%list).
  change (join_with sep (a :: ((b :: l) ++ [x]))%list)
    with (a ++ sep ++ join_with sep ((b :: l) ++ [x])%list).
  rewrite IH, !string_app_assoc. reflexivity.
Qed.

(** Every message [makeError] builds ends with the version of the
    library. *)
Lemma makeError_is_error_message message code details :
  is_error_message (makeError message code details) = true.
Proof.
  unfold is_error_message, makeError.
  rewrite join_with_snoc.
  set (body := join_with ", " (List.app details ["code=" ++ code])).
  replace (message ++ " (" ++ (body ++ ", " ++ "version=" ++ version) ++ ")")
    with ((message ++ " (" ++ body) ++ (", version=" ++ version ++ ")")).
  - apply endsWith_app.
  - rewrite !string_app_assoc. reflexivity.
Qed.

Lemma thrown_is_error_message e : is_error_message (thrown_message e) = true.
Proof. apply makeError_is_error_message. Qed.

Lemma invalid_argument_is_error_message message name value :
  is_error_message (invalid_argument message name value) = true.
Proof. apply makeError_is_error_message. Qed.

Lemma unresolved_is_error_message name : is_error_message (unresolved name) = true.
Proof.
  unfold unresolved, unresolved_on.
  destruct (_ || _); apply makeError_is_error_message.
Qed.

Lemma getAddress_worded value e :
  getAddress value = Failed e -> is_error_message e = true.
Proof.
  unfold getAddress. repeat case_match; intros Hfail; try discriminate Hfail;
    injection Hfail as <-; apply invalid_argument_is_error_message.
Qed.

Lemma resolveAddress_worded value e :
  resolveAddress value = Failed e -> is_error_message e = true.
Proof.
  unfold resolveAddress. destruct (is_prefixed_form value).
  - apply getAddress_worded.
  - intros [= <-]. apply unresolved_is_error_message.
Qed.

Lemma address_value_worded value e :
  address_value value = Failed e -> is_error_message e = true.
Proof.
  unfold address_value. destruct (resolveAddress value) as [a|m] eqn:Hr.
  - repeat case_match; intros Hfail; try discriminate Hfail;
      injection Hfail as <-; apply invalid_argument_is_error_message.
  - intros [= <-]. eapply resolveAddress_worded; eassumption.
Qed.

Lemma bytes32_value_worded value e :
  bytes32_value value = Failed e -> is_error_message e = true.
Proof.
  unfold bytes32_value. repeat case_match; intros Hfail; try discriminate Hfail;
    injection Hfail as <-; apply invalid_argument_is_error_message.
Qed.

End AddressFacts.

(** ** The approval orchestrator *)
Module OrchestratorFacts.
Import Js Prog Supabase VerifyCertificate.

Section Runs.
Context {E : Type -> Type} {S : Type}.
Variable oracle : forall X, E X -> S -> X * S.

Lemma trace_Ret {A} (a : A) s : trace oracle (Ret a) s = [].
Proof. reflexivity. Qed.

Lemma trace_Throw {A} m s : trace oracle (@Throw E A m) s = [].
Proof. reflexivity. Qed.

Lemma trace_Vis {A X} (e : E X) (k : X -> Prog.t E A) s :
  trace oracle (Vis e k) s =
    MkCall e (fst (oracle X e s))
      :: trace oracle (k (fst (oracle X e s))) (snd (oracle X e s)).
Proof.
  unfold trace; simpl. destruct (oracle X e s) as [x s']; simpl.
  destruct (run oracle (k x) s') as [[tr s''] r]. reflexivity.
Qed.

Lemma outcome_Ret {A} (a : A) s : outcome oracle (Ret a) s = Ok a.
Proof. reflexivity. Qed.

Lemma outcome_Throw {A} m s : outcome oracle (@Throw E A m) s = Failed m.
Proof. reflexivity. Qed.

Lemma outcome_Vis {A X} (e : E X) (k : X -> Prog.t E A) s :
  outcome oracle (Vis e k) s =
    outcome oracle (k (fst (oracle X e s))) (snd (oracle X e s)).
Proof.
  unfold outcome; simpl. destruct (oracle X e s) as [x s']; simpl.
  destruct (run oracle (k x) s') as [[tr s''] r]. reflexivity.
Qed.

Lemma final_Ret {A} (a : A) s : final oracle (Ret a) s = s.
Proof. reflexivity. Qed.

Lemma final_Throw {A} m s : final oracle (@Throw E A m) s = s.
Proof. reflexivity. Qed.

Lemma final_Vis {A X} (e : E X) (k : X -> Prog.t E A) s :
  final oracle (Vis e k) s =
    final oracle (k (fst (oracle X e s))) (snd (oracle X e s)).
Proof.
  unfold final; simpl. destruct (oracle X e s) as [x s']; simpl.
  destruct (run oracle (k x) s') as [[tr s''] r]. reflexivity.
Qed.

(** A property of the collaborators' state that every call but those
    singled out by [changes] preserves is preserved by a run without
    such calls. *)
Lemma run_preserves {A B} (f : S -> B) (changes : Call E -> bool) :
  (forall X (e : E X) s,
     changes (MkCall e (fst (oracle X e s))) = false ->
     f (snd (oracle X e s)) = f s) ->
  forall (p : Prog.t E A) s,
    existsb changes (trace oracle p s) = false ->
    f (final oracle p s) = f s.
Proof.
  intros Hstep p. induction p as [a|m|X e k IH]; intros s Hno.
  - reflexivity.
  - reflexivity.
  - rewrite trace_Vis in Hno. simpl in Hno.
    apply orb_false_elim in Hno as [Hc Hrest].
    rewrite final_Vis. rewrite IH by exact Hrest. apply Hstep. exact Hc.
Qed.

End Runs.

Lemma tx_eqb_refl tx : tx_eqb tx tx = true.
Proof. unfold tx_eqb. now rewrite String.eqb_refl, N.eqb_refl. Qed.

(** Symbolic execution of a handler against an unknown oracle: peel one
    call, name its answer, and split on whatever the program inspects. *)
Ltac peel_call o :=
  match goal with
  | |- context [trace o (Vis ?e ?k) ?s] =>
      rewrite ?(trace_Vis o e k s), ?(outcome_Vis o e k s), ?(final_Vis o e k s);
      let x := fresh "x" in
      let s' := fresh "s" in
      destruct (o _ e s) as [x s']; cbn [fst snd]
  | |- context [outcome o (Vis ?e ?k) ?s] =>
      rewrite ?(outcome_Vis o e k s), ?(final_Vis o e k s);
      let x := fresh "x" in
      let s' := fresh "s" in
      destruct (o _ e s) as [x s']; cbn [fst snd]
  end.

Ltac exec_step o :=
  first
    [ rewrite trace_Ret
    | rewrite trace_Throw
    | rewrite outcome_Ret
    | rewrite outcome_Throw
    | peel_call o
    | rewrite tx_eqb_refl
    | rewrite String.eqb_refl
    | match goal with
      | |- context [match ?t with _ => _ end] => destruct t eqn:?
      end ].

Ltac exec o :=
  unfold handler, attempt, lift;
  cbn [bind try_catch trigger await];
  repeat (exec_step o;
          cbn [bind try_catch trigger await ledger_first advance is_update
               is_ledger_failure is_failed_update is_submit hash_recomputed
               is_failure_response failure_response rejected_with
               touches_stores is_download is_wait
               existsb List.filter length andb orb negb data error]).

(** What a run of the handler satisfies, whatever the collaborators
    answer: see [handler_run_facts]. *)
Definition run_facts (req : Request) (tr : list (Call VerifyCertificate.E))
    (out : Result Response) : Prop :=
  ledger_first NotSubmitted tr = true /\
  hash_recomputed None tr = true /\
  (length (List.filter is_submit tr) <= 1)%nat /\
  (exists r, out = Ok r) /\
  (existsb is_ledger_failure tr = true ->
     existsb is_update tr = false /\ is_failure_response out = true) /\
  (existsb is_failed_update tr = true ->
     out = Ok (failure_response inconsistency_message) /\
     length (List.filter is_submit tr) = 1%nat /\
     existsb is_applied_update tr = false) /\
  (out = Ok (failure_response inconsistency_message) ->
     existsb is_failed_update tr
     || existsb (rejected_with inconsistency_message) tr
     || json_rejected_with inconsistency_message req = true) /\
  is_failure_response out || is_success_response out = true /\
  (forall body a,
     json req = Ok body -> donorWalletAddress body = Some a ->
     Ethers.isAddress a = false ->
     existsb touches_stores tr = false).

Ltac leaf_message :=
  let H := fresh "H" in
  intros H; first
    [ reflexivity
    | discriminate H
    | injection H as H; first
        [ vm_compute in H; discriminate H
        | subst;
          repeat match goal with E : json _ = _ |- _ => rewrite E end;
          vm_compute; reflexivity ] ].

Ltac leaf_address :=
  let body := fresh "body" in
  let a := fresh "a" in
  let Hj := fresh "Hj" in
  let Hd := fresh "Hd" in
  let Hbad := fresh "Hbad" in
  intros body a Hj Hd Hbad; first
    [ reflexivity
    | exfalso;
      match goal with
      | H : negb (Ethers.isAddress ?x) = false |- _ =>
          let Hx := fresh "Hx" in
          assert (Hx : Ethers.isAddress x = false) by congruence;
          rewrite Hx in H; discriminate H
      end ].

Section AnyOracle.
Context {S : Type}.
Variable oracle : forall X, VerifyCertificate.E X -> S -> X * S.

Lemma handler_run_facts req s :
  run_facts req (trace oracle (handler req) s) (outcome oracle (handler req) s).
Proof.
  exec oracle.
  all: unfold run_facts, failure_response, inconsistency_message,
    json_rejected_with;
    cbn [ledger_first advance is_update is_ledger_failure is_failed_update
         is_submit hash_recomputed is_failure_response is_success_response
         is_applied_update rejected_with
         touches_stores is_download is_wait existsb List.filter length
         andb orb negb data error].
  all: repeat match goal with
            | E : data ?r = _ |- context [data ?r] => rewrite E
            | E : error ?r = _ |- context [error ?r] => rewrite E
            end.
  all: rewrite ?tx_eqb_refl, ?String.eqb_refl.
  all: (split; [reflexivity|]).
  all: (split; [reflexivity|]).
  all: (split; [simpl; lia|]).
  all: (split; [eauto|]).
  all: (split; [intros; try discriminate; split; reflexivity|]).
  all: (split; [intros; try discriminate; repeat split; reflexivity|]).
  all: (split; [leaf_message|]).
  all: (split; [reflexivity|]).
  all: leaf_address.
Qed.

End AnyOracle.

(** *** Runs against the modelled collaborators *)

Lemma single_data {A} f (row : option A) a :
  data (single f row) = Some a -> row = Some a.
Proof. destruct f, row; simpl; intros [= ->]; auto. Qed.

Lemma file_hash_intro w req body cid f g cert bytes :
  json req = Ok body ->
  certificateId body = Some cid ->
  data (single f (certificates w !! cid)) = Some cert ->
  data (single g (bucket w !! file_path cert)) = Some bytes ->
  file_hash w req = Some (computeFileHash bytes).
Proof.
  intros Hj Hc Hs Hb. apply single_data in Hs, Hb.
  unfold file_hash, requested. rewrite Hj, Hc, Hs, Hb. reflexivity.
Qed.

(** A submission that is accepted and then confirmed puts the record on
    the ledger and touches nothing else the handler can see. *)
Lemma submit_confirm w c donor hs e tx w0 rc w1 :
  submit w c donor hs e = (Ok tx, w0) ->
  confirm w0 tx = (Ok rc, w1) ->
  exists d h,
    Ethers.address_value donor = Ok d /\
    Ethers.bytes32_value hs = Ok h /\
    h <> 0%N /\
    signer c = DonorVerification.admin (chain w) /\
    chain w1 = LedgerFacts.written
                 (DonorVerification.mkMsg (signer c) (block_time w)) (chain w) d h e /\
    certificates w1 = certificates w /\
    outage w1 = outage w.
Proof.
  unfold submit. intros Hs Hc.
  destruct (Ethers.address_value donor) as [d|]; [|discriminate].
  destruct (Ethers.bytes32_value hs) as [h|]; [|discriminate].
  destruct (Ethers.address_value (target c)) as [t|]; [|discriminate].
  destruct (rpc_error (outage w)); [discriminate|].
  destruct (DonorVerification.storeVerification d h e _ (chain w)) as [[[] st]|] eqn:Hst;
    [|discriminate].
  injection Hs as <- <-.
  assert (Hok : DonorVerification.succeeds
                  (DonorVerification.mkMsg (signer c) (block_time w))
                  (DonorVerification.TxStoreVerification d h e) (chain w) = true).
  { unfold DonorVerification.succeeds. simpl. rewrite Hst. reflexivity. }
  unfold confirm in Hc. simpl in Hc.
  destruct (confirm_error (outage w)); [discriminate|].
  rewrite lookup_insert_eq in Hc. simpl in Hc. rewrite Hok in Hc.
  injection Hc as <- <-.
  exists d, h. simpl.
  pose proof (proj1 (LedgerFacts.succeeds_store _ _ _ _ _) Hok) as [Hadm Hnz].
  repeat split; try assumption.
  apply LedgerFacts.transact_store_ok. exact Hok.
Qed.

(** What a run against the modelled collaborators satisfies: see
    [handler_world_facts]. *)
Definition world_facts (w : World) (req : Request)
    (tr : list (Call VerifyCertificate.E)) (w' : World) : Prop :=
  forallb (submits_hash (file_hash w req)) tr = true /\
  (existsb is_update tr = true ->
     exists body donor hs d h,
       json req = Ok body /\
       donorWalletAddress body = Some donor /\
       file_hash w req = Some hs /\
       Ethers.address_value donor = Ok d /\
       Ethers.bytes32_value hs = Ok h /\
       DonorVerification.records_at (chain w') d
         = DonorVerification.mkRecord d h (eligible body) (block_time w) true).

Ltac peel_world :=
  match goal with
  | |- context [trace perform (Vis ?e ?k) ?s] =>
      rewrite ?(trace_Vis perform e k s), ?(final_Vis perform e k s);
      cbn [perform fst snd]
  end.

Ltac world_step :=
  first
    [ rewrite trace_Ret
    | rewrite trace_Throw
    | rewrite final_Ret
    | rewrite final_Throw
    | peel_world
    | match goal with
      | |- context [submit ?w ?c ?d ?h ?e] =>
          let r := fresh "r" in
          let w' := fresh "w" in
          destruct (submit w c d h e) as [r w'] eqn:?; cbn [fst snd]
      | |- context [confirm ?w ?tx] =>
          let r := fresh "r" in
          let w' := fresh "w" in
          destruct (confirm w tx) as [r w'] eqn:?; cbn [fst snd]
      end
    | match goal with
      | |- context [match ?t with _ => _ end] => destruct t eqn:?
      end ].

Ltac world_exec :=
  unfold handler, attempt, lift;
  cbn [bind try_catch trigger await];
  repeat (world_step; cbn [bind try_catch trigger await data error]).

Lemma handler_world_facts w req :
  world_facts w req (trace perform (handler req) w) (final perform (handler req) w).
Proof.
  world_exec.
  all: unfold world_facts;
    cbn [forallb submits_hash existsb is_update andb orb].
  all: split.
  all: try first
        [ reflexivity
        | erewrite file_hash_intro by eassumption;
          rewrite String.eqb_refl; reflexivity ].
  all: try (let H := fresh "H" in intros H; discriminate H).
  all: intros _;
    match goal with
    | Hs : submit _ _ _ _ _ = (Ok _, _), Hc : confirm _ _ = (Ok _, _) |- _ =>
        destruct (submit_confirm _ _ _ _ _ _ _ _ _ Hs Hc)
          as (d & h & Hd & Hh & _ & _ & Hch & _ & _)
    end;
    do 5 eexists;
    repeat (split; [first [eassumption | eapply file_hash_intro; eassumption]|]);
    cbn [chain with_certificates]; rewrite Hch;
    rewrite LedgerFacts.records_at_written;
    rewrite decide_True by reflexivity; simpl; congruence.
Qed.

(** *** Reading the trace checks *)

Local Open Scope list_scope.

Lemma tx_eqb_eq a b : tx_eqb a b = true -> a = b.
Proof.
  unfold tx_eqb. intros H. apply andb_prop in H as [H1 H2].
  apply String.eqb_eq in H1. apply N.eqb_eq in H2.
  destruct a, b; simpl in *; congruence.
Qed.

Lemma phase_ok_app ph pre l : phase_ok ph pre -> phase_ok ph (pre ++ l).
Proof.
  destruct ph as [|tx|]; simpl; [auto| |].
  - intros (a & b & c & donor & h & e & ->).
    exists a, (b ++ l), c, donor, h, e. now rewrite <- app_assoc.
  - intros (a & b & d & c & donor & h & e & tx & rc & ->).
    exists a, b, (d ++ l), c, donor, h, e, tx, rc.
    rewrite <- app_assoc. simpl. rewrite <- app_assoc. reflexivity.
Qed.

Lemma advance_ok ph pre c :
  phase_ok ph pre -> phase_ok (advance ph c) (pre ++ [c]).
Proof.
  intros Hph. destruct c as [X e x]. revert x.
  destruct e; intros x; try (apply phase_ok_app; exact Hph).
  - destruct x as [tx|m]; simpl; [|exact I].
    exists pre, []. do 4 eexists. reflexivity.
  - simpl. destruct ph as [|tx'|]; try (apply phase_ok_app; exact Hph).
    destruct x as [rc|m]; [|apply phase_ok_app; exact Hph].
    destruct (tx_eqb tx tx') eqn:Heq; [|apply phase_ok_app; exact Hph].
    apply tx_eqb_eq in Heq as ->.
    destruct Hph as (a & b & c & donor & h & e & ->).
    exists a, b, [], c, donor, h, e, tx', rc.
    rewrite <- app_assoc. reflexivity.
Qed.

Lemma ledger_first_sound tr : forall ph pre0,
  phase_ok ph pre0 ->
  ledger_first ph tr = true ->
  forall pre c post,
    tr = pre ++ c :: post -> is_update c = true -> confirmed_in (pre0 ++ pre).
Proof.
  induction tr as [|c0 tr IH]; intros ph pre0 Hph Hlf pre c post Heq Hup.
  - destruct pre; discriminate.
  - simpl in Hlf. apply andb_prop in Hlf as [Hhere Hrest].
    destruct pre as [|c1 pre]; simpl in Heq; injection Heq as -> ->.
    + rewrite Hup in Hhere. rewrite app_nil_r.
      destruct ph; try discriminate. exact Hph.
    + replace (pre0 ++ c1 :: pre) with ((pre0 ++ [c1]) ++ pre)
        by now rewrite <- app_assoc.
      eapply IH; [apply advance_ok; exact Hph|exact Hrest|reflexivity|exact Hup].
Qed.

Lemma hash_recomputed_sound tr : forall last,
  hash_recomputed last tr = true ->
  forall pre c donor h e r post,
    tr = pre ++ MkCall (StoreVerification c donor h e) r :: post ->
    exists bytes, last_download last pre = Some bytes /\ h = computeFileHash bytes.
Proof.
  induction tr as [|c0 tr IH]; intros last Hrec pre c donor h e r post Heq.
  - destruct pre; discriminate.
  - destruct pre as [|c1 pre]; simpl in Heq; injection Heq as -> ->.
    + simpl in Hrec. destruct last as [bytes|]; [|discriminate].
      apply andb_prop in Hrec as [Hh _]. apply String.eqb_eq in Hh.
      exists bytes. auto.
    + destruct c1 as [X e1 x1]. revert x1 Hrec.
      destruct e1; intros x1 Hrec; simpl in *;
        try (eapply IH; [exact Hrec|reflexivity]).
      apply andb_prop in Hrec as [_ Hrec]. eapply IH; [exact Hrec|reflexivity].
Qed.

Lemma existsb_weaken {A} (f g : A -> bool) l :
  (forall x, f x = true -> g x = true) ->
  existsb g l = false -> existsb f l = false.
Proof.
  intros Hfg. induction l as [|x l IH]; simpl; [auto|].
  intros H. apply orb_false_elim in H as [Hx Hl].
  rewrite (IH Hl). destruct (f x) eqn:Hf; [|reflexivity].
  apply Hfg in Hf. congruence.
Qed.

(** Only an update of the record store that is applied changes the
    certificates. *)
Lemma perform_certificates X (e : VerifyCertificate.E X) w :
  is_applied_update (MkCall e (fst (perform X e w))) = false ->
  certificates (snd (perform X e w)) = certificates w.
Proof.
  destruct e; simpl; try reflexivity.
  - intros _. unfold submit. repeat case_match; reflexivity.
  - intros _. unfold confirm. repeat case_match; reflexivity.
  - destruct (update_error (outage w)); simpl; [reflexivity|discriminate].
Qed.

Lemma run_certificates {A} (p : Prog.t VerifyCertificate.E A) w :
  existsb is_applied_update (trace perform p w) = false ->
  certificates (final perform p w) = certificates w.
Proof. apply run_preserves. apply perform_certificates. Qed.

(** *** A concrete deployment *)

Definition demo_file : list Byte.byte := HashFacts.bytes_of_string "health certificate".

Definition demo_address : string := "0x5aAeb6053F3E94C9b9A09f33669435E7Ef1BeAed".

Definition demo_certificate : Certificate :=
  mkCertificate "cert-1" "donor-1" "donor-1/cert.pdf" (Some "0xstale")
    (Some demo_address) None None None None None None.

Definition demo_world (o : Outage) : World :=
  mkWorld
    (<["SUPABASE_URL" := "https://project.supabase.co"]>
       (<["SUPABASE_SERVICE_ROLE_KEY" := "service-role"]>
          (<["RPC_URL" := "https://rpc-amoy.polygon.technology/"]>
             (<["MINTER_PRIVATE_KEY" := "minter-key"]>
                (<["DONOR_CONTRACT_ADDRESS" :=
                     "0xfB6916095ca1df60bB79Ce92cE3Ea74c37c5d359"]> ∅)))))
    (<["staff-token" := "staff-1"]> ∅)
    (<["staff-1" := "hospital"]> ∅)
    (<["cert-1" := demo_certificate]> ∅)
    (<["donor-1/cert.pdf" := demo_file]> ∅)
    (<["minter-key" := 7%N]> ∅)
    (DonorVerification.constructor (DonorVerification.mkMsg 7 100))
    ∅ 0 1 101 "2024-05-01T10:00:00.000Z" o.

Definition demo_request (address : string) : Request :=
  mkRequest "POST" (Some "Bearer staff-token")
    (Ok (mkVerifyRequest (Some "cert-1") (Some address) true None)).

(** The node fails a request of the submission with an error the ledger
    client does not recognise; [message] is how the client prints it. *)
Definition rpc_down (message : string) : Outage :=
  mkOutage None None None
    (Some (Ethers.mkThrown "could not coalesce error" "UNKNOWN_ERROR"
             [Ethers.detail "error" message]))
    None None [].

Definition update_down (message : string) : Outage :=
  mkOutage None None None None None (Some message) [].

Example demo_run_succeeds :
  outcome perform (handler (demo_request demo_address)) (demo_world no_outage)
  = Ok (mkResponse 200
          (Success (mkSuccessData "cert-1" (computeFileHash demo_file) "0x0" 2
                      "0xfB6916095ca1df60bB79Ce92cE3Ea74c37c5d359" true
                      "2024-05-01T10:00:00.000Z"))).
Proof. vm_compute. reflexivity. Qed.

(** C5. In every run of the handler, whatever the collaborators answer,
    each update of the record store comes after a submission of the
    ledger write that was accepted and a wait on that transaction that
    succeeded; and when a step of the ledger write fails, no update of
    the record store is even attempted and the caller gets the failure
    response.  Against the modelled record store the certificates are then
    exactly what they were: a certificate whose eligibility was unset and
    whose transaction reference was null is still so. *)
Theorem ledger_write_precedes_store_update :
  forall req : Request,
    (forall (S : Type) (oracle : forall X, VerifyCertificate.E X -> S -> X * S) (s : S),
       let tr := trace oracle (handler req) s in
       (forall pre c post,
          tr = pre ++ c :: post -> is_update c = true -> confirmed_in pre) /\
       (existsb is_ledger_failure tr = true ->
          existsb is_update tr = false /\
          is_failure_response (outcome oracle (handler req) s) = true)) /\
    (forall w : World,
       existsb is_ledger_failure (trace perform (handler req) w) = true ->
       certificates (final perform (handler req) w) = certificates w /\
       (forall id c,
          certificates w !! id = Some c ->
          Supabase.eligible c = None -> tx_hash c = None ->
          exists c',
            certificates (final perform (handler req) w) !! id = Some c' /\
            Supabase.eligible c' = None /\ tx_hash c' = None)).
Proof.
  intros req. split.
  - intros S oracle s tr.
    destruct (handler_run_facts oracle req s) as (Hlf & _ & _ & _ & Hfail & _).
    split; [|exact Hfail].
    intros pre c post Heq Hup.
    apply (ledger_first_sound tr NotSubmitted [] I Hlf pre c post Heq Hup).
  - intros w Hfail.
    destruct (handler_run_facts perform req w) as (_ & _ & _ & _ & Hf & _).
    destruct (Hf Hfail) as [Hno _].
    assert (Hc : certificates (final perform (handler req) w) = certificates w).
    { apply run_certificates.
      apply (existsb_weaken is_applied_update is_update); [|exact Hno].
      intros [X e x]. destruct e; simpl; try discriminate. reflexivity. }
    split; [exact Hc|].
    intros id c Hl He Ht. exists c. rewrite Hc. auto.
Qed.

(** The ledger node is down: the pending certificate stays pending. *)
Lemma ledger_write_precedes_store_update_witness :
  let w := demo_world (rpc_down "could not detect network") in
  certificates (final perform (handler (demo_request demo_address)) w)
    = certificates w /\
  exists c',
    certificates (final perform (handler (demo_request demo_address)) w) !! "cert-1"
      = Some c' /\
    Supabase.eligible c' = None /\ tx_hash c' = None.
Proof.
  pose proof (proj2 (ledger_write_precedes_store_update (demo_request demo_address))
                (demo_world (rpc_down "could not detect network"))) as H.
  assert (Hf : existsb is_ledger_failure
                 (trace perform (handler (demo_request demo_address))
                    (demo_world (rpc_down "could not detect network"))) = true)
    by (vm_compute; reflexivity).
  destruct (H Hf) as [Hc Hrow]. split; [exact Hc|].
  apply (Hrow "cert-1" demo_certificate); reflexivity.
Defined.

(** C7. Every hash the handler submits to the ledger is [computeFileHash]
    of the bytes the download just before it returned, whatever the
    collaborators answer; against the modelled stores it is the hash of
    the stored file of the certificate the request names.  That value
    reads neither the [cert_hash] column nor anything else of the request:
    two deployments whose file stores agree and whose certificates have
    the same file paths give the same hash, whatever their [cert_hash]. *)
Theorem ledger_hash_is_recomputed :
  forall req : Request,
    (forall (S : Type) (oracle : forall X, VerifyCertificate.E X -> S -> X * S) (s : S)
            pre c donor h e r post,
       trace oracle (handler req) s
         = pre ++ MkCall (StoreVerification c donor h e) r :: post ->
       exists bytes,
         last_download None pre = Some bytes /\ h = computeFileHash bytes) /\
    (forall (w : World) c donor h e r,
       In (MkCall (StoreVerification c donor h e) r) (trace perform (handler req) w) ->
       file_hash w req = Some h) /\
    (forall (w1 w2 : World) (req' : Request),
       bucket w1 = bucket w2 ->
       (forall id, file_path <$> certificates w1 !! id
                   = file_path <$> certificates w2 !! id) ->
       requested req = requested req' ->
       file_hash w1 req = file_hash w2 req').
Proof.
  intros req. split; [|split].
  - intros S oracle s pre c donor h e r post Heq.
    destruct (handler_run_facts oracle req s) as (_ & Hrec & _).
    eapply hash_recomputed_sound; [exact Hrec|exact Heq].
  - intros w c donor h e r Hin.
    destruct (handler_world_facts w req) as [Hall _].
    rewrite forallb_forall in Hall. specialize (Hall _ Hin). simpl in Hall.
    destruct (file_hash w req) as [h'|]; [|discriminate].
    apply String.eqb_eq in Hall. congruence.
  - intros w1 w2 req' Hb Hc Hj. unfold file_hash.
    rewrite <- Hj. destruct (requested req) as [cid|]; [|reflexivity].
    specialize (Hc cid).
    destruct (certificates w1 !! cid) as [c1|], (certificates w2 !! cid) as [c2|];
      simpl in Hc; try discriminate; [|reflexivity].
    injection Hc as Hc. now rewrite Hb, Hc.
Qed.

(** The stale [cert_hash] of the stored row plays no part. *)
Lemma ledger_hash_is_recomputed_witness :
  file_hash (demo_world no_outage) (demo_request demo_address)
    = Some (computeFileHash demo_file) /\
  cert_hash demo_certificate = Some "0xstale".
Proof.
  split; [|reflexivity].
  rewrite <- (proj1 (proj2 (ledger_hash_is_recomputed (demo_request demo_address)))
                (demo_world no_outage)
                (mkContract "0xfB6916095ca1df60bB79Ce92cE3Ea74c37c5d359" 7)
                demo_address (computeFileHash demo_file) true
                (Ok (mkTransactionResponse "0x0" 0))).
  - reflexivity.
  - vm_compute. tauto.
Defined.

(** *** What the collaborators' failures read like *)

Lemma existsb_split {A} (f : A -> bool) l :
  existsb f l = true -> exists pre c post, l = pre ++ c :: post /\ f c = true.
Proof.
  intros H. apply existsb_exists in H as (c & Hin & Hc).
  apply in_split in Hin as (pre & post & ->). eauto.
Qed.

(** What every answer of the collaborators satisfies, every call of a
    run satisfies. *)
Lemma trace_forallb {E : Type -> Type} {S A : Type}
    (oracle : forall X, E X -> S -> X * S) (P : Call E -> bool) :
  (forall X (e : E X) s, P (MkCall e (fst (oracle X e s))) = true) ->
  forall (p : Prog.t E A) s, forallb P (trace oracle p s) = true.
Proof.
  intros HP p. induction p as [a|m|X e k IH]; intros s; [reflexivity|reflexivity|].
  rewrite trace_Vis. cbn [forallb]. now rewrite HP, IH.
Qed.

Lemma inconsistency_message_not_worded :
  Ethers.is_error_message inconsistency_message = false.
Proof. vm_compute. reflexivity. Qed.

(** When the failures of the ledger client are worded as the client
    words them, none of them carries the text of the inconsistency. *)
Lemma worded_rejections tr :
  forallb ledger_worded tr = true ->
  existsb (rejected_with inconsistency_message) tr
  = existsb (client_rejected_with inconsistency_message) tr.
Proof.
  induction tr as [|c tr IH]; [reflexivity|].
  cbn [forallb existsb]. intros H. apply andb_prop in H as [Hc Htr].
  rewrite (IH Htr). f_equal.
  destruct c as [X e x]. destruct e; try reflexivity;
    destruct x as [a|m]; try reflexivity; cbn [rejected_with client_rejected_with];
    cbn [ledger_worded] in Hc;
    (destruct (String.eqb m inconsistency_message) eqn:Heq; [|reflexivity]);
    apply String.eqb_eq in Heq; subst m;
    rewrite inconsistency_message_not_worded in Hc; discriminate Hc.
Qed.

Lemma submit_worded w c donor hs e m w' :
  submit w c donor hs e = (Failed m, w') -> Ethers.is_error_message m = true.
Proof.
  unfold submit.
  destruct (Ethers.address_value donor) as [d|m1] eqn:Hd.
  2:{ intros [= <- _]. eapply AddressFacts.address_value_worded; eassumption. }
  destruct (Ethers.bytes32_value hs) as [h|m2] eqn:Hh.
  2:{ intros [= <- _]. eapply AddressFacts.bytes32_value_worded; eassumption. }
  destruct (Ethers.address_value (target c)) as [t|m3] eqn:Ht.
  2:{ intros [= <- _]. eapply AddressFacts.address_value_worded; eassumption. }
  destruct (rpc_error (outage w)) as [err|].
  { intros [= <- _]. apply AddressFacts.thrown_is_error_message. }
  destruct (DonorVerification.storeVerification _ _ _ _ _).
  - discriminate.
  - intros [= <- _]. apply AddressFacts.makeError_is_error_message.
Qed.

Lemma confirm_worded w tx m w' :
  confirm w tx = (Failed m, w') -> Ethers.is_error_message m = true.
Proof.
  unfold confirm.
  destruct (confirm_error (outage w)) as [err|].
  { intros [= <- _]. apply AddressFacts.thrown_is_error_message. }
  destruct (mempool w !! nonce tx) as [p|].
  - destruct (DonorVerification.succeeds _ _ _); [discriminate|].
    intros [= <- _]. apply AddressFacts.makeError_is_error_message.
  - intros [= <- _]. apply AddressFacts.makeError_is_error_message.
Qed.

(** The modelled ledger client words its failures so, and the modelled
    record-store client is never refused with the text of the
    inconsistency. *)
Lemma perform_ledger_worded X (e : VerifyCertificate.E X) w :
  ledger_worded (MkCall e (fst (perform X e w))) = true.
Proof.
  destruct e; try reflexivity; cbn [perform fst ledger_worded].
  - destruct (wallets w !! privateKey); [reflexivity|].
    apply AddressFacts.invalid_argument_is_error_message.
  - match goal with |- context [submit ?a ?b ?c ?d ?e] =>
      destruct (submit a b c d e) as [[tx|m] w'] eqn:Hs end; [reflexivity|].
    eapply submit_worded; eassumption.
  - match goal with |- context [confirm ?a ?b] =>
      destruct (confirm a b) as [[rc|m] w'] eqn:Hc end; [reflexivity|].
    eapply confirm_worded; eassumption.
Qed.

Lemma perform_client_texts X (e : VerifyCertificate.E X) w :
  negb (client_rejected_with inconsistency_message (MkCall e (fst (perform X e w))))
  = true.
Proof.
  destruct e; try reflexivity; cbn [perform fst client_rejected_with].
  destruct (falsy url); [reflexivity|]. destruct (falsy key); reflexivity.
Qed.

Lemma forallb_negb_existsb {A} (f : A -> bool) l :
  forallb (fun x => negb (f x)) l = true -> existsb f l = false.
Proof.
  induction l as [|x l IH]; [reflexivity|]. cbn [forallb existsb].
  intros H. apply andb_prop in H as [Hx Hl]. rewrite (IH Hl).
  destruct (f x); [discriminate|reflexivity].
Qed.

Lemma failed_update_is_update tr :
  existsb is_failed_update tr = true -> existsb is_update tr = true.
Proof.
  induction tr as [|c l IH]; simpl; [discriminate|]. intros H.
  apply orb_prop in H as [Hc|Hl].
  - destruct c as [X e x]. destruct e; try discriminate. reflexivity.
  - rewrite (IH Hl). apply orb_true_r.
Qed.

(** A deployment whose wallet is not the admin of the ledger contract. *)
Definition stranger_world : World :=
  let w := demo_world no_outage in
  mkWorld (env w) (sessions w) (roles w) (certificates w) (bucket w)
    (<["minter-key" := 8%N]> ∅) (chain w) (mempool w) (tx_count w)
    (block_number w) (block_time w) (clock w) (outage w).

(** C6 (as the code has it).  In every run of the handler, whatever the
    collaborators answer: when the update of the record store fails, the
    ledger write was submitted and confirmed before it, the handler has
    submitted it exactly once, no update is applied, and the caller gets
    the failure response with the fixed text
    "Blockchain verification successful but database update failed".
    Every answer of the handler is either a 200 or the one failure shape
    (status 400 and an error text): the failure has no kind, status or
    severity of its own and is told apart by its text alone.  That text
    is carried by no failure the handler raises itself and by no error of
    the ledger client, whose messages all end in the version of the
    library: a run answers with it only when the update failed, or the
    creation of the record-store client or the reading of the request
    body was refused with that very text.  Against the modelled
    collaborators the certificates are then unchanged while the ledger
    holds the record, and (the request body being readable) the response
    carries the text exactly when the update failed. *)
Theorem store_update_failure_is_reported :
  forall req : Request,
    (forall (S : Type) (oracle : forall X, VerifyCertificate.E X -> S -> X * S) (s : S),
       let tr := trace oracle (handler req) s in
       let out := outcome oracle (handler req) s in
       (existsb is_failed_update tr = true ->
          out = Ok (failure_response inconsistency_message) /\
          length (List.filter is_submit tr) = 1%nat /\
          existsb is_applied_update tr = false /\
          exists pre c post,
            tr = pre ++ c :: post /\ is_failed_update c = true /\ confirmed_in pre) /\
       is_failure_response out || is_success_response out = true /\
       (out = Ok (failure_response inconsistency_message) ->
          forallb ledger_worded tr = true ->
          existsb is_failed_update tr
          || existsb (client_rejected_with inconsistency_message) tr
          || json_rejected_with inconsistency_message req = true)) /\
    (forall message code details,
       Ethers.makeError message code details <> inconsistency_message) /\
    (forall w : World,
       (existsb is_failed_update (trace perform (handler req) w) = true ->
          certificates (final perform (handler req) w) = certificates w /\
          exists body donor hs d h,
            json req = Ok body /\
            donorWalletAddress body = Some donor /\
            file_hash w req = Some hs /\
            Ethers.address_value donor = Ok d /\
            Ethers.bytes32_value hs = Ok h /\
            DonorVerification.getRecord d (DonorVerification.mkMsg 0 0)
              (chain (final perform (handler req) w))
            = Ok ((h, VerifyCertificate.eligible body, block_time w, true),
                  chain (final perform (handler req) w))) /\
       (json_rejected_with inconsistency_message req = false ->
          (outcome perform (handler req) w = Ok (failure_response inconsistency_message)
           <-> existsb is_failed_update (trace perform (handler req) w) = true))).
Proof.
  intros req. split; [|split].
  - intros S oracle s tr out.
    destruct (handler_run_facts oracle req s)
      as (Hlf & _ & _ & _ & _ & Hupd & Hmsg & Hshape & _).
    fold tr in Hlf, Hupd, Hmsg. fold out in Hupd, Hmsg, Hshape.
    split; [|split; [exact Hshape|]].
    + intros Hfail. destruct (Hupd Hfail) as (Hout & Hone & Hnone).
      repeat (split; [assumption|]).
      destruct (existsb_split _ _ Hfail) as (pre & c & post & Heq & Hc).
      exists pre, c, post. repeat (split; [assumption|]).
      apply (ledger_first_sound tr NotSubmitted [] I Hlf pre c post Heq).
      destruct c as [X e x]. destruct e; try discriminate Hc. reflexivity.
    + intros Hout Hw. rewrite <- (worded_rejections tr Hw). exact (Hmsg Hout).
  - intros message code details Heq.
    pose proof (AddressFacts.makeError_is_error_message message code details) as Hw.
    rewrite Heq, inconsistency_message_not_worded in Hw. discriminate Hw.
  - intros w. split.
    + intros Hfail.
      destruct (handler_run_facts perform req w)
        as (_ & _ & _ & _ & _ & Hupd & _).
      destruct (Hupd Hfail) as (_ & _ & Hnone).
      destruct (handler_world_facts w req) as [_ Hledger].
      destruct (Hledger (failed_update_is_update _ Hfail))
        as (body & donor & hs & d & h & Hj & Hd & Hh & Ha & Hb & Hr).
      split; [apply run_certificates; exact Hnone|].
      exists body, donor, hs, d, h. repeat split; try assumption.
      rewrite LedgerFacts.getRecord_spec, Hr. reflexivity.
    + intros Hjson.
      destruct (handler_run_facts perform req w)
        as (_ & _ & _ & _ & _ & Hupd & Hmsg & _).
      split; [|intros Hfail; apply (Hupd Hfail)].
      intros Hout. specialize (Hmsg Hout).
      rewrite worded_rejections in Hmsg
        by (apply trace_forallb; apply perform_ledger_worded).
      rewrite (forallb_negb_existsb (client_rejected_with inconsistency_message))
        in Hmsg by (apply trace_forallb; apply perform_client_texts).
      rewrite Hjson, !orb_false_r in Hmsg. exact Hmsg.
Qed.

(** The record store is down when the handler comes to update it. *)
Lemma store_update_failure_is_reported_witness :
  let w := demo_world (update_down "connection refused") in
  outcome perform (handler (demo_request demo_address)) w
    = Ok (failure_response inconsistency_message) /\
  length (List.filter is_submit (trace perform (handler (demo_request demo_address)) w))
    = 1%nat /\
  certificates (final perform (handler (demo_request demo_address)) w)
    = certificates w.
Proof.
  pose proof (store_update_failure_is_reported (demo_request demo_address))
    as (Hany & _ & Hworld).
  assert (Hf : existsb is_failed_update
                 (trace perform (handler (demo_request demo_address))
                    (demo_world (update_down "connection refused"))) = true)
    by (vm_compute; reflexivity).
  destruct (Hany _ perform (demo_world (update_down "connection refused")))
    as (Hrun & _).
  destruct (Hrun Hf) as (Hout & Hone & _).
  destruct (proj1 (Hworld (demo_world (update_down "connection refused"))) Hf)
    as (Hcert & _).
  split; [exact Hout|]. split; [exact Hone|exact Hcert].
Defined.

(** C6 as stated does not hold: the inconsistency is not an error kind
    of its own.  The run in which the record store fails after the ledger
    write, a run in which the ledger node fails the submission, a run in
    which the ledger contract rejects the write, and a run with a
    badly-formed address all give the caller the one failure shape, status
    400 and an error text and nothing else, although the ledger holds the
    record after the first and after none of the others; the answers
    differ in the text only. *)
Lemma inconsistency_has_no_kind_of_its_own :
  let req := demo_request demo_address in
  let inconsistent := demo_world (update_down "connection refused") in
  let unavailable := demo_world (rpc_down "connection refused") in
  existsb is_failed_update (trace perform (handler req) inconsistent) = true /\
  has_record (final perform (handler req) inconsistent) demo_address = Ok true /\
  outcome perform (handler req) inconsistent
    = Ok (mkResponse 400 (Failure inconsistency_message)) /\
  has_record (final perform (handler req) unavailable) demo_address = Ok false /\
  is_failure_response (outcome perform (handler req) unavailable) = true /\
  has_record (final perform (handler req) stranger_world) demo_address = Ok false /\
  is_failure_response (outcome perform (handler req) stranger_world) = true /\
  outcome perform (handler (demo_request "not-an-address")) (demo_world no_outage)
    = Ok (mkResponse 400 (Failure "Invalid Ethereum address format")).
Proof. vm_compute. repeat split. Qed.

(** *** What the handler submits, and when *)

(** The submission was accepted. *)
Definition is_accepted_submit (c : Call VerifyCertificate.E) : bool :=
  match c with
  | MkCall (StoreVerification _ _ _ _) (Ok _) => true
  | _ => false
  end.

(** The submission is for the address and the decision of the request. *)
Definition submits_request (req : Request) (c : Call VerifyCertificate.E) : bool :=
  match c with
  | MkCall (StoreVerification _ donor _ e) _ =>
      match json req with
      | Ok body =>
          match donorWalletAddress body with
          | Some a => String.eqb donor a && Bool.eqb e (VerifyCertificate.eligible body)
          | None => false
          end
      | Failed _ => false
      end
  | _ => true
  end.

(** What a run of the handler satisfies besides, whatever the
    collaborators answer: see [handler_request_facts]. *)
Definition request_facts (req : Request) (tr : list (Call VerifyCertificate.E))
    (out : Result Response) : Prop :=
  forallb (submits_request req) tr = true /\
  (existsb is_wait tr = true -> existsb is_accepted_submit tr = true) /\
  (existsb is_update tr = true -> existsb is_accepted_submit tr = true) /\
  (forall d, out = Ok (mkResponse 200 (Success d)) ->
     existsb is_applied_update tr = true).

Section AnyOracleRequest.
Context {S : Type}.
Variable oracle : forall X, VerifyCertificate.E X -> S -> X * S.

Lemma handler_request_facts req s :
  request_facts req (trace oracle (handler req) s) (outcome oracle (handler req) s).
Proof.
  exec oracle.
  all: unfold request_facts;
    cbn [forallb existsb submits_request is_wait is_accepted_submit is_update
         is_applied_update andb orb].
  all: repeat match goal with
            | E : json _ = _ |- _ => rewrite E
            | E : donorWalletAddress _ = _ |- _ => rewrite E
            | E : VerifyCertificate.eligible _ = _ |- context [VerifyCertificate.eligible _] =>
                rewrite E
            end.
  all: rewrite ?String.eqb_refl, ?Bool.eqb_reflx; cbn [andb Bool.eqb].
  all: (split; [reflexivity|]).
  all: (split; [intros; first [reflexivity | discriminate]|]).
  all: (split; [intros; first [reflexivity | discriminate]|]).
  all: intros d Hd; first [reflexivity | discriminate Hd | injection Hd; discriminate].
Qed.

End AnyOracleRequest.






End OrchestratorFacts.

(** ** The browser side *)
Module BrowserFacts.
Import Js Prog Supabase Browser OrchestratorFacts.
Local Open Scope list_scope.

Ltac run_step o :=
  first
    [ rewrite trace_Ret
    | rewrite trace_Throw
    | rewrite outcome_Ret
    | rewrite outcome_Throw
    | peel_call o
    | match goal with
      | |- context [match ?t with _ => _ end] => destruct t eqn:?
      end ].

Ltac run_prog o :=
  unfold lift;
  cbn [bind try_catch finally trigger await];
  repeat (run_step o; cbn [bind try_catch finally trigger await]).

(** [hasBlockchainRecord] returns the answer of the ledger read when
    there is one, and [false] in every other case. *)
Definition hasRecord_facts (env : ViteEnv) (a : string)
    (tr : list (Call Browser.E)) (out : Result bool) : Prop :=
  match getContract env with
  | Failed _ => out = Ok false
  | Ok c =>
      exists r, hasRecord_answer tr = Some r /\
                tr = MkCall (CallHasRecord c a) r :: List.tl tr /\
                out = Ok (match r with Ok b => b | Failed _ => false end)
  end.

(** [verifyHashOnBlockchain] returns whatever verdict the ledger read
    answers, and throws only when there is no contract or the read
    itself fails. *)
Definition verify_facts (env : ViteEnv) (a h : string)
    (tr : list (Call Browser.E)) (out : Result HashVerdict) : Prop :=
  match getContract env with
  | Failed m => out = Failed ("Blockchain verification failed: " ++ m)%string
  | Ok c =>
      exists r, verify_answer tr = Some r /\
                tr = MkCall (CallVerify c a h) r :: List.tl tr /\
                out = match r with
                      | Ok (e, t, m) =>
                          Ok (mkHashVerdict e (Number t) m
                                (if (0 <? t)%N
                                 then Some (new_Date (times (Number t) 1000))
                                 else None))
                      | Failed m =>
                          Failed ("Blockchain verification failed: " ++ m)%string
                      end
  end.

(** [getDonorBlockchainRecord] returns [null] exactly when the ledger
    read answers [exists = false]. *)
Definition getRecord_facts (env : ViteEnv) (a : string)
    (tr : list (Call Browser.E)) (out : Result (option ChainRecord)) : Prop :=
  match getContract env with
  | Failed m => out = Failed ("Failed to fetch blockchain record: " ++ m)%string
  | Ok c =>
      exists r, getRecord_answer tr = Some r /\
                tr = MkCall (CallGetRecord c a) r :: List.tl tr /\
                out = match r with
                      | Ok (h, e, t, true) =>
                          Ok (Some (mkChainRecord h e (Number t)
                                      (new_Date (times (Number t) 1000)) true))
                      | Ok (_, _, _, false) => Ok None
                      | Failed m =>
                          Failed ("Failed to fetch blockchain record: " ++ m)%string
                      end
  end.

Section AnyBrowser.
Context {S : Type}.
Variable oracle : forall X, Browser.E X -> S -> X * S.

Lemma hasBlockchainRecord_run env a s :
  hasRecord_facts env a (trace oracle (hasBlockchainRecord env a) s)
    (outcome oracle (hasBlockchainRecord env a) s).
Proof.
  unfold hasBlockchainRecord. run_prog oracle.
  all: unfold hasRecord_facts; cbn [hasRecord_answer List.tl].
  all: repeat match goal with H : getContract _ = _ |- _ => rewrite H end.
  all: try reflexivity.
  all: eexists; repeat split; reflexivity.
Qed.

Lemma verifyHashOnBlockchain_run env a h s :
  verify_facts env a h (trace oracle (verifyHashOnBlockchain env a h) s)
    (outcome oracle (verifyHashOnBlockchain env a h) s).
Proof.
  unfold verifyHashOnBlockchain. run_prog oracle.
  all: unfold verify_facts; cbn [verify_answer List.tl].
  all: repeat match goal with H : getContract _ = _ |- _ => rewrite H end.
  all: try reflexivity.
  all: eexists; repeat split; try reflexivity.
  all: match goal with H : (0 <? _)%N = _ |- _ => rewrite H end; reflexivity.
Qed.

Lemma getDonorBlockchainRecord_run env a s :
  getRecord_facts env a (trace oracle (getDonorBlockchainRecord env a) s)
    (outcome oracle (getDonorBlockchainRecord env a) s).
Proof.
  unfold getDonorBlockchainRecord. run_prog oracle.
  all: unfold getRecord_facts; cbn [getRecord_answer List.tl].
  all: repeat match goal with H : getContract _ = _ |- _ => rewrite H end.
  all: try reflexivity.
  all: eexists; repeat split; try reflexivity.
  all: match goal with H : negb ?b = _ |- _ => destruct b; try discriminate H end;
       reflexivity.
Qed.

End AnyBrowser.

(** *** Reads answered by the ledger node *)

Lemma eth_call_down {A B} e c (args : Result A) (f : A -> DonorVerification.Contract B) st :
  is_ok (eth_call (Some e) c args f st) = false.
Proof. unfold eth_call. repeat case_match; reflexivity. Qed.

Lemma node_hasRecord_up st c a t d :
  Ethers.address_value (rc_target c) = Ok t ->
  Ethers.address_value a = Ok d ->
  node_hasRecord None st c a
    = Ok (DonorVerification.exists_ (DonorVerification.records_at st d)).
Proof. unfold node_hasRecord, eth_call. intros -> ->. reflexivity. Qed.

Lemma node_verify_up st c a h t d hv :
  Ethers.address_value (rc_target c) = Ok t ->
  verify_args a h = Ok (d, hv) ->
  node_verify None st c a h
    = Ok (let r := DonorVerification.records_at st d in
          if DonorVerification.exists_ r
          then (DonorVerification.eligible r, DonorVerification.timestamp r,
                (DonorVerification.certHash r =? hv)%N)
          else (false, 0%N, false)).
Proof.
  unfold node_verify, eth_call. intros -> ->. simpl.
  rewrite LedgerFacts.verify_spec. reflexivity.
Qed.

(** C10. [hasBlockchainRecord] never throws: whatever the collaborators
    answer it returns a boolean.  When its ledger read is answered by a
    node, it returns [false] if the node cannot be reached, and otherwise
    the [exists] flag of the record stored for the address, hence [false]
    too when there is no record: the two cases look the same to the
    caller.  It also returns [false] when no contract is configured. *)
Theorem hasBlockchainRecord_never_throws :
  forall (env : ViteEnv) (a : string),
    (forall (S : Type) (oracle : forall X, Browser.E X -> S -> X * S) (s : S),
       (exists b, outcome oracle (hasBlockchainRecord env a) s = Ok b) /\
       (getContract env = Failed "Contract address not configured" ->
        outcome oracle (hasBlockchainRecord env a) s = Ok false) /\
       (forall (down : option string) (st : DonorVerification.State),
          forallb (reads_from down st) (trace oracle (hasBlockchainRecord env a) s) = true ->
          (forall e, down = Some e ->
             outcome oracle (hasBlockchainRecord env a) s = Ok false) /\
          (forall c t d,
             down = None ->
             getContract env = Ok c ->
             Ethers.address_value (rc_target c) = Ok t ->
             Ethers.address_value a = Ok d ->
             outcome oracle (hasBlockchainRecord env a) s
               = Ok (DonorVerification.exists_ (DonorVerification.records_at st d))))).
Proof.
  intros env a S oracle s.
  pose proof (hasBlockchainRecord_run oracle env a s) as H.
  unfold hasRecord_facts in H.
  destruct (getContract env) as [c|m] eqn:Hc.
  - destruct H as (r & _ & Htr & Hout). rewrite Hout.
    split; [eauto|]. split; [discriminate|].
    intros down st Hreads. rewrite Htr in Hreads. simpl in Hreads.
    apply andb_prop in Hreads as [Hr _].
    split.
    + intros e ->. pose proof (eth_call_down e c (Ethers.address_value a)
                                  DonorVerification.hasRecord st) as Hd.
      unfold node_hasRecord in Hr.
      destruct r as [b|]; [|reflexivity].
      destruct (eth_call _ _ _ _ _); [discriminate Hd|discriminate Hr].
    + intros c' t d -> [= <-] Ht Hd.
      rewrite (node_hasRecord_up st c a t d Ht Hd) in Hr.
      destruct r as [b|]; [|discriminate Hr].
      apply Bool.eqb_prop in Hr. now subst.
  - rewrite H. split; [eauto|]. split; [reflexivity|].
    intros down st _. split; [reflexivity|]. intros; discriminate.
Qed.

(** *** Addresses of the pattern, as the ledger client takes them *)

#[local] Arguments Ethers.getChecksumAddress : simpl never.

Lemma address_regex_test_spec s :
  address_regex_test s = true <->
  exists h, s = ("0x" ++ str h)%string /\ length h = 40%nat /\ forallb is_hex h = true.
Proof.
  unfold address_regex_test. split.
  - intros H. rewrite <- (HashFacts.str_chars s).
    destruct (chars s) as [|c0 [|c1 h]]; try discriminate H;
      destruct c0 as [[] [] [] [] [] [] [] []]; try discriminate H.
    destruct c1 as [[] [] [] [] [] [] [] []]; try discriminate H.
    apply andb_prop in H as [Hl Hh]. apply Nat.eqb_eq in Hl.
    exists h. auto.
  - intros (h & -> & Hl & Hh).
    change (chars ("0x" ++ str h)%string) with ("0"%char :: "x"%char :: chars (str h)).
    rewrite HashFacts.chars_str, Hl, Hh. reflexivity.
Qed.

Lemma getAddress_of_pattern s :
  address_regex_test s = true ->
  Ethers.is_prefixed_form s = true /\
  Ethers.getAddress s
  = if negb (Ethers.is_mixed_case s) || String.eqb (Ethers.getChecksumAddress s) s
    then Ok (Ethers.getChecksumAddress s)
    else Failed (Ethers.invalid_argument "bad address checksum" "address" s).
Proof.
  intros H. apply address_regex_test_spec in H as (h & -> & Hl & Hh).
  assert (Hm : Ethers.matches_hex40 h = true).
  { unfold Ethers.matches_hex40. now rewrite Hl, Hh. }
  split.
  - unfold Ethers.is_prefixed_form.
    change (chars ("0x" ++ str h)%string) with ("0"%char :: "x"%char :: chars (str h)).
    rewrite HashFacts.chars_str, Hm. reflexivity.
  - unfold Ethers.getAddress.
    assert (Hform : Ethers.is_hex_form ("0x" ++ str h)%string = true).
    { unfold Ethers.is_hex_form.
      change (chars ("0x" ++ str h)%string) with ("0"%char :: "x"%char :: chars (str h)).
      rewrite HashFacts.chars_str, Hm. apply orb_true_r. }
    rewrite Hform.
    change (startsWith "0x" ("0x" ++ str h)%string) with (String.prefix "" (str h)).
    replace (String.prefix "" (str h)) with true by (destruct (str h); reflexivity).
    destruct (negb (Ethers.is_mixed_case _) || String.eqb _ _); reflexivity.
Qed.

Lemma isAddress_of_pattern s :
  address_regex_test s = true ->
  Ethers.isAddress s
    = negb (Ethers.is_mixed_case s) || String.eqb (Ethers.getChecksumAddress s) s.
Proof.
  intros H. unfold Ethers.isAddress.
  rewrite (proj2 (getAddress_of_pattern s H)).
  destruct (negb (Ethers.is_mixed_case _) || String.eqb _ _); reflexivity.
Qed.


Lemma hex_value_lt c d : hex_value c = Some d -> (d < 16)%N.
Proof.
  destruct c as [[] [] [] [] [] [] [] []]; vm_compute; intros [= <-]; reflexivity.
Qed.

Lemma is_hex_value c : is_hex c = true -> exists d, hex_value c = Some d.
Proof.
  destruct c as [[] [] [] [] [] [] [] []]; vm_compute; intros H;
    first [discriminate H | eauto].
Qed.

Lemma is_hex_lower c : is_hex c = true -> is_hex (toLowerCase_char c) = true.
Proof.
  destruct c as [[] [] [] [] [] [] [] []]; vm_compute; intros H;
    first [discriminate H | reflexivity].
Qed.

Lemma is_hex_upper c : is_hex c = true -> is_hex (toUpperCase_char c) = true.
Proof.
  destruct c as [[] [] [] [] [] [] [] []]; vm_compute; intros H;
    first [discriminate H | reflexivity].
Qed.

Lemma hex_number_bound l : forall acc,
  forallb is_hex l = true ->
  exists n, hex_number l acc = Some n /\ (n < (acc + 1) * 16 ^ N.of_nat (length l))%N.
Proof.
  induction l as [|c l IH]; intros acc H.
  - exists acc. split; [reflexivity|]. simpl. lia.
  - cbn [forallb] in H. apply andb_prop in H as [Hc Hl].
    destruct (is_hex_value c Hc) as [d Hd]. pose proof (hex_value_lt c d Hd) as Hlt.
    cbn [hex_number]. rewrite Hd.
    destruct (IH (16 * acc + d)%N Hl) as (n & Hn & Hb).
    exists n. split; [exact Hn|].
    cbn [length]. rewrite Nat2N.inj_succ, N.pow_succ_r'.
    eapply N.lt_le_trans; [exact Hb|]. nia.
Qed.

Lemma checksum_case_hex hashed : forall cs,
  forallb is_hex cs = true ->
  forallb is_hex (Ethers.checksum_case cs hashed) = true /\
  length (Ethers.checksum_case cs hashed) = length cs.
Proof.
  induction hashed as [|b hashed IH]; intros cs H.
  - destruct cs; auto.
  - destruct cs as [|c1 [|c2 cs]]; [auto|auto|].
    cbn [forallb] in H. apply andb_prop in H as [H1 H]. apply andb_prop in H as [H2 H].
    destruct (IH cs H) as [IH1 IH2].
    cbn [Ethers.checksum_case forallb length]. rewrite IH1, IH2. split; [|reflexivity].
    destruct (8 <=? N.shiftr b 4)%N, (8 <=? N.land b 15)%N;
      rewrite ?is_hex_upper, ?H1, ?H2; auto.
Qed.

(** An address of the pattern that [isAddress] accepts has a value for a
    contract call; one it does not accept is refused by the ledger client
    for its checksum. *)
Lemma address_value_of_pattern s :
  address_regex_test s = true ->
  if Ethers.isAddress s
  then exists d, Ethers.address_value s = Ok d
  else Ethers.address_value s
       = Failed (Ethers.invalid_argument "bad address checksum" "address" s).
Proof.
  intros H. destruct (getAddress_of_pattern s H) as [Hp Hg].
  rewrite (isAddress_of_pattern s H).
  unfold Ethers.address_value, Ethers.resolveAddress. rewrite Hp, Hg.
  destruct (negb (Ethers.is_mixed_case s) || String.eqb _ _); [|reflexivity].
  apply address_regex_test_spec in H as (h & -> & Hl & Hh).
  unfold Ethers.getChecksumAddress.
  set (cs := drop 2 (chars (toLowerCase ("0x" ++ str h)%string))).
  set (hashed := take 20 _).
  change (chars ("0x" ++ str (Ethers.checksum_case cs hashed))%string)
    with ("0"%char :: "x"%char :: chars (str (Ethers.checksum_case cs hashed))).
  cbn [drop]. rewrite drop_0, HashFacts.chars_str.
  assert (Hcs : forallb is_hex cs = true /\ length cs = 40%nat).
  { unfold cs, toLowerCase.
    change (chars ("0x" ++ str h)%string) with ("0"%char :: "x"%char :: chars (str h)).
    rewrite !HashFacts.chars_str. cbn [List.map drop]. rewrite drop_0.
    rewrite length_map. split; [|exact Hl].
    clear -Hh. induction h as [|c h IH]; [reflexivity|].
    cbn [forallb List.map] in *. apply andb_prop in Hh as [Hc Hh].
    now rewrite (is_hex_lower c Hc), IH. }
  destruct Hcs as [Hcs Hlen].
  destruct (checksum_case_hex hashed cs Hcs) as [Hhex Hl2].
  destruct (hex_number_bound _ 0%N Hhex) as (n & Hn & Hb).
  rewrite Hn. rewrite Hl2, Hlen in Hb.
  replace (n <? 2 ^ 160)%N with true; [eauto|].
  symmetry. apply N.ltb_lt. exact Hb.
Qed.

Lemma computeFileHash_value bytes :
  exists hv, Ethers.bytes32_value (CertificateHash.computeFileHash bytes) = Ok hv.
Proof.
  destruct (HashFacts.hashHex_spec _ (HashFacts.sha256_bytes bytes)) as (Hlen & Hlow & _).
  rewrite HashFacts.sha256_length in Hlen.
  assert (Hhex : forallb is_hex (chars (CertificateHash.hashHex (Sha256.sha256 bytes))) = true).
  { clear -Hlow. induction (chars _) as [|c l IH]; [reflexivity|].
    cbn [forallb] in *. apply andb_prop in Hlow as [Hc Hl]. rewrite (IH Hl), andb_true_r.
    unfold is_hex, is_lower_hex in *. now rewrite Hc. }
  unfold Ethers.bytes32_value, Ethers.is_bytes_form, CertificateHash.computeFileHash.
  change (chars ("0x" ++ CertificateHash.hashHex (Sha256.sha256 bytes))%string)
    with ("0"%char :: "x"%char :: chars (CertificateHash.hashHex (Sha256.sha256 bytes))).
  cbn [drop]. rewrite drop_0, Hlen, Hhex.
  destruct (hex_number_bound _ 0%N Hhex) as (n & -> & _).
  change (Ascii.eqb "x" "x" || Ascii.eqb "x" "X") with true.
  change (Nat.even (2 * 32)) with true. cbv beta iota.
  change ((2 * 32 =? 64)%nat) with true. cbv beta iota. eauto.
Qed.

Lemma node_getRecord_up st c a t d :
  Ethers.address_value (rc_target c) = Ok t ->
  Ethers.address_value a = Ok d ->
  node_getRecord None st c a
    = Ok (let r := DonorVerification.records_at st d in
          (bytes32_hex (DonorVerification.certHash r), DonorVerification.eligible r,
           DonorVerification.timestamp r, DonorVerification.exists_ r)).
Proof. unfold node_getRecord, eth_call. intros -> ->. reflexivity. Qed.

Lemma node_refuses_address down st c a h m :
  Ethers.address_value a = Failed m ->
  node_verify down st c a h = Failed m /\
  node_getRecord down st c a = Failed m.
Proof.
  intros H. unfold node_verify, node_getRecord, verify_args, eth_call.
  rewrite H. split; reflexivity.
Qed.

(** C8 (as the code has it).  [verifyHashOnBlockchain] returns whatever
    triple its ledger read answers as an object, also with
    [matches = false], the timestamp converted to a JavaScript number;
    [getDonorBlockchainRecord] returns [null], without throwing, exactly
    when its ledger read answers [exists = false].  Both throw when the
    read itself fails, and the read is refused by the ledger client for an
    address whose mixed case is not its checksum, which the pattern of the
    pages accepts.  So, answered by a reachable node, for an address of
    the pattern and the hash of any file: when the address is not of mixed
    case or carries its checksum, a hash that does not match and an
    address without a record are told by a returned value; otherwise both
    functions throw, whatever the ledger holds. *)
Theorem negative_verdict_is_a_value :
  forall (env : ViteEnv) (a : string),
    (forall (S : Type) (oracle : forall X, Browser.E X -> S -> X * S) (s : S)
            (h : string),
       (forall c e t m,
          getContract env = Ok c ->
          verify_answer (trace oracle (verifyHashOnBlockchain env a h) s)
            = Some (Ok (e, t, m)) ->
          outcome oracle (verifyHashOnBlockchain env a h) s
            = Ok (mkHashVerdict e (Number t) m
                    (if (0 <? t)%N then Some (new_Date (times (Number t) 1000))
                     else None))) /\
       (outcome oracle (getDonorBlockchainRecord env a) s = Ok None <->
        exists c hh e t,
          getContract env = Ok c /\
          getRecord_answer (trace oracle (getDonorBlockchainRecord env a) s)
            = Some (Ok (hh, e, t, false)))) /\
    (forall (S : Type) (oracle : forall X, Browser.E X -> S -> X * S) (s : S)
            (st : DonorVerification.State) (c : ReadContract) (t : N)
            (bytes : list Byte.byte),
       let h := CertificateHash.computeFileHash bytes in
       forallb (reads_from None st)
         (trace oracle (verifyHashOnBlockchain env a h) s) = true ->
       forallb (reads_from None st)
         (trace oracle (getDonorBlockchainRecord env a) s) = true ->
       getContract env = Ok c ->
       Ethers.address_value (rc_target c) = Ok t ->
       address_regex_test a = true ->
       (Ethers.isAddress a = true ->
          exists d hv v,
            Ethers.address_value a = Ok d /\
            Ethers.bytes32_value h = Ok hv /\
            outcome oracle (verifyHashOnBlockchain env a h) s = Ok v /\
            v_matches v
              = DonorVerification.exists_ (DonorVerification.records_at st d)
                && (DonorVerification.certHash (DonorVerification.records_at st d)
                    =? hv)%N /\
            (outcome oracle (getDonorBlockchainRecord env a) s = Ok None <->
             DonorVerification.exists_ (DonorVerification.records_at st d) = false)) /\
       (Ethers.isAddress a = false ->
          Ethers.address_value a
            = Failed (Ethers.invalid_argument "bad address checksum" "address" a) /\
          (exists m,
             outcome oracle (verifyHashOnBlockchain env a h) s
               = Failed ("Blockchain verification failed: " ++ m)%string) /\
          (exists m,
             outcome oracle (getDonorBlockchainRecord env a) s
               = Failed ("Failed to fetch blockchain record: " ++ m)%string))).
Proof.
  intros env a. split.
  - intros S oracle s h.
    pose proof (verifyHashOnBlockchain_run oracle env a h s) as Hv.
    pose proof (getDonorBlockchainRecord_run oracle env a s) as Hg.
    unfold verify_facts in Hv. unfold getRecord_facts in Hg.
    split.
    + intros c e t m Hc Hans. rewrite Hc in Hv.
      destruct Hv as (r & Hr & _ & Hout). rewrite Hout.
      rewrite Hans in Hr. injection Hr as <-. reflexivity.
    + destruct (getContract env) as [c|m] eqn:Hc.
      * destruct Hg as (r & Hr & _ & Hout). rewrite Hout, Hr. split.
        -- intros Hnone. exists c.
           destruct r as [[[[hh e] t] [|]]|]; try discriminate. eauto.
        -- intros (c' & hh & e & t & _ & [= ->]). reflexivity.
      * rewrite Hg. split; [discriminate|].
        intros (c' & _ & _ & _ & Hc' & _). discriminate.
  - intros S oracle s st c t bytes h Hrv Hrg Hc Ht Hre.
    pose proof (verifyHashOnBlockchain_run oracle env a h s) as Hv.
    pose proof (getDonorBlockchainRecord_run oracle env a s) as Hg.
    unfold verify_facts in Hv. unfold getRecord_facts in Hg.
    rewrite Hc in Hv, Hg.
    destruct Hv as (rv & _ & Htrv & Houtv). destruct Hg as (rg & _ & Htrg & Houtg).
    rewrite Htrv in Hrv. rewrite Htrg in Hrg. cbn [forallb reads_from] in Hrv, Hrg.
    apply andb_prop in Hrv as [Hrv _]. apply andb_prop in Hrg as [Hrg _].
    pose proof (address_value_of_pattern a Hre) as Hval.
    split.
    + intros Hok. rewrite Hok in Hval. destruct Hval as [d Hd].
      destruct (computeFileHash_value bytes) as [hv Hhv]. fold h in Hhv.
      assert (Hargs : verify_args a h = Ok (d, hv))
        by (unfold verify_args; now rewrite Hd, Hhv).
      rewrite (node_verify_up st c a h t d hv Ht Hargs) in Hrv. cbv zeta in Hrv.
      rewrite (node_getRecord_up st c a t d Ht Hd) in Hrg. cbv zeta in Hrg.
      destruct rv as [[[e ts] m]|]; [|discriminate Hrv].
      destruct rg as [[[[hh e'] ts'] x]|]; [|discriminate Hrg].
      exists d, hv. eexists. split; [exact Hd|]. split; [exact Hhv|].
      split; [exact Houtv|]. split.
      * cbn [v_matches].
        destruct (DonorVerification.exists_ (DonorVerification.records_at st d));
          apply andb_prop in Hrv as [_ Hm]; now apply Bool.eqb_prop in Hm.
      * rewrite Houtg. apply andb_prop in Hrg as [_ Hx]. apply Bool.eqb_prop in Hx.
        rewrite <- Hx. destruct x; split; congruence.
    + intros Hbad. rewrite Hbad in Hval. split; [exact Hval|].
      destruct (node_refuses_address None st c a h _ Hval) as [Hnv Hng].
      rewrite Hnv in Hrv. rewrite Hng in Hrg.
      destruct rv as [[[e ts] m]|mv]; [discriminate Hrv|].
      destruct rg as [[[[hh e'] ts'] x]|mg]; [discriminate Hrg|].
      rewrite Houtv, Houtg. eauto.
Qed.

(** *** A concrete page *)

Definition demo_env : ViteEnv :=
  mkViteEnv (Some "0xfB6916095ca1df60bB79Ce92cE3Ea74c37c5d359") None
    (Some "https://project.supabase.co").

(** The ledger after the approval of the demo certificate. *)
Definition demo_ledger : DonorVerification.State :=
  VerifyCertificate.chain
    (final VerifyCertificate.perform
       (VerifyCertificate.handler (demo_request demo_address))
       (demo_world VerifyCertificate.no_outage)).

Definition unused_address : string := "0x00000000000000000000000000000000000000aa".

Definition other_file : list Byte.byte := HashFacts.bytes_of_string "health certificate!".

Lemma node_oracle_reads {A} down (p : Prog.t Browser.E A) st :
  forallb (reads_from down st) (trace (node_oracle down) p st) = true.
Proof.
  induction p as [a|m|X e k IH]; [reflexivity|reflexivity|].
  rewrite trace_Vis. cbn [forallb].
  assert (Hst : snd (node_oracle down X e st) = st) by (destruct e; reflexivity).
  rewrite Hst, IH, andb_true_r.
  destruct e; try reflexivity; cbn [node_oracle fst reads_from].
  - destruct (node_verify down st c donorAddress certHash) as [[[e t] m]|];
      [|reflexivity].
    now rewrite !Bool.eqb_reflx, N.eqb_refl.
  - destruct (node_getRecord down st c donorAddress) as [[[[h e] t] x]|];
      [|reflexivity].
    now rewrite !Bool.eqb_reflx, N.eqb_refl, String.eqb_refl.
  - destruct (node_hasRecord down st c donorAddress) as [b|]; [|reflexivity].
    apply Bool.eqb_reflx.
Qed.

(** The node is down; the node is up and the address has no record. *)
Lemma hasBlockchainRecord_never_throws_witness :
  outcome (node_oracle (Some "could not detect network"))
    (hasBlockchainRecord demo_env demo_address) demo_ledger = Ok false /\
  outcome (node_oracle None) (hasBlockchainRecord demo_env unused_address) demo_ledger
    = Ok false /\
  outcome (node_oracle None) (hasBlockchainRecord demo_env demo_address) demo_ledger
    = Ok true.
Proof.
  split; [|split].
  - destruct (hasBlockchainRecord_never_throws demo_env demo_address _
                (node_oracle (Some "could not detect network")) demo_ledger)
      as (_ & _ & H).
    destruct (H _ demo_ledger (node_oracle_reads _ _ _)) as [Hdown _].
    exact (Hdown _ eq_refl).
  - destruct (hasBlockchainRecord_never_throws demo_env unused_address _
                (node_oracle None) demo_ledger) as (_ & _ & H).
    destruct (H _ demo_ledger (node_oracle_reads _ _ _)) as [_ Hup].
    erewrite Hup; [| reflexivity | vm_compute; reflexivity
                   | vm_compute; reflexivity | vm_compute; reflexivity ].
    vm_compute. reflexivity.
  - destruct (hasBlockchainRecord_never_throws demo_env demo_address _
                (node_oracle None) demo_ledger) as (_ & _ & H).
    destruct (H _ demo_ledger (node_oracle_reads _ _ _)) as [_ Hup].
    erewrite Hup; [| reflexivity | vm_compute; reflexivity
                   | vm_compute; reflexivity | vm_compute; reflexivity ].
    vm_compute. reflexivity.
Defined.

(** Another file against the recorded address; an address without a
    record. *)
Lemma negative_verdict_is_a_value_witness :
  (exists v,
     outcome (node_oracle None)
       (verifyHashOnBlockchain demo_env demo_address
          (CertificateHash.computeFileHash other_file)) demo_ledger = Ok v /\
     v_matches v = false) /\
  outcome (node_oracle None) (getDonorBlockchainRecord demo_env unused_address)
    demo_ledger = Ok None.
Proof.
  split.
  - pose proof (proj2 (negative_verdict_is_a_value demo_env demo_address)
                  _ (node_oracle None) demo_ledger demo_ledger) as H.
    edestruct H with (bytes := other_file) as [Hgood _];
      [ apply node_oracle_reads | apply node_oracle_reads
      | vm_compute; reflexivity | vm_compute; reflexivity
      | vm_compute; reflexivity | ].
    destruct (Hgood eq_refl) as (d & hv & v & Hd & Hhv & Hv & Hm & _).
    exists v. split; [exact Hv|]. rewrite Hm.
    vm_compute in Hd. injection Hd as <-.
    vm_compute in Hhv. injection Hhv as <-.
    vm_compute. reflexivity.
  - pose proof (proj2 (negative_verdict_is_a_value demo_env unused_address)
                  _ (node_oracle None) demo_ledger demo_ledger) as H.
    edestruct H with (bytes := other_file) as [Hgood _];
      [ apply node_oracle_reads
      | apply node_oracle_reads
      | vm_compute; reflexivity | vm_compute; reflexivity
      | vm_compute; reflexivity | ].
    destruct (Hgood eq_refl) as (d & hv & v & Hd & _ & _ & _ & Hnone).
    apply Hnone. vm_compute in Hd. injection Hd as <-.
    vm_compute. reflexivity.
Defined.

Definition miscased_address : string := "0x5AAeb6053F3E94C9b9A09f33669435E7Ef1BeAed".

Definition miscased_unused_address : string :=
  "0x00000000000000000000000000000000000000Aa".

(** C8 as stated does not hold for every address the pages accept.  The
    ledger holds a record for the 20 bytes of [demo_address] and none for
    those of [unused_address].  Written in lower case, the first address
    with another file gives the verdict [matches = false] and the second
    gives not-found.  Written with a mixed case that is not their
    checksum, which the pattern of the pages accepts as well, the same
    two questions are answered by a thrown failure. *)
Lemma negative_verdict_is_thrown_for_miscased_address :
  let h := CertificateHash.computeFileHash other_file in
  address_regex_test miscased_address = true /\
  toLowerCase miscased_address = toLowerCase demo_address /\
  outcome (node_oracle None)
    (verifyHashOnBlockchain demo_env (toLowerCase miscased_address) h) demo_ledger
    = Ok (mkHashVerdict true 101 false (Some (ValidDate 101000))) /\
  outcome (node_oracle None)
    (verifyHashOnBlockchain demo_env miscased_address h) demo_ledger
    = Failed ("Blockchain verification failed: "
              ++ Ethers.invalid_argument "bad address checksum" "address"
                   miscased_address)%string /\
  address_regex_test miscased_unused_address = true /\
  toLowerCase miscased_unused_address = unused_address /\
  outcome (node_oracle None) (getDonorBlockchainRecord demo_env unused_address)
    demo_ledger = Ok None /\
  outcome (node_oracle None)
    (getDonorBlockchainRecord demo_env miscased_unused_address) demo_ledger
    = Failed ("Failed to fetch blockchain record: "
              ++ Ethers.invalid_argument "bad address checksum" "address"
                   miscased_unused_address)%string.
Proof. vm_compute. repeat split. Qed.

(** *** The address check of every browser entry point *)






Section Guards.
Context {S : Type}.
Variable oracle : forall X, Browser.E X -> S -> X * S.








End Guards.





End BrowserFacts.

(** ** The ledger: administration, persistence and the audit trail *)
Module LedgerMore.
Import DonorVerification LedgerFacts.
Local Open Scope list_scope.

Lemma transact_changeAdmin_ok m s a :
  succeeds m (TxChangeAdmin a) s = true ->
  transact m (TxChangeAdmin a) s
    = mkState (records s) a (log s ++ [AdminChanged (admin s) a]).
Proof.
  unfold succeeds, transact; simpl. rewrite changeAdmin_spec.
  destruct (negb _); [discriminate|]. destruct (a =? 0)%N; [discriminate|].
  reflexivity.
Qed.

Lemma succeeds_changeAdmin m s a :
  succeeds m (TxChangeAdmin a) s = true <-> sender m = admin s /\ a <> 0%N.
Proof.
  unfold succeeds; simpl. rewrite changeAdmin_spec.
  destruct (N.eqb_spec (sender m) (admin s)), (N.eqb_spec a 0); simpl;
    intuition congruence.
Qed.

(** X1. [changeAdmin] hands the write gate over: called by the admin with
    a non-zero address it changes nothing but the admin and logs
    [AdminChanged old new]; from then on a write by the new admin is
    accepted and a write by the old one reverts.  Called by anybody else,
    or with the zero address, it reverts and changes nothing. *)
Theorem changeAdmin_hands_over :
  forall (m : Msg) (s : State) (newAdmin : address),
    (sender m = admin s -> newAdmin <> 0%N ->
     let s' := transact m (TxChangeAdmin newAdmin) s in
     admin s' = newAdmin /\
     records s' = records s /\
     emitted m (TxChangeAdmin newAdmin) s = [AdminChanged (admin s) newAdmin] /\
     (forall m' d h e,
        h <> 0%N ->
        succeeds m' (TxStoreVerification d h e) s' = true <-> sender m' = newAdmin) /\
     (forall t d h e,
        admin s <> newAdmin ->
        succeeds (mkMsg (admin s) t) (TxStoreVerification d h e) s' = false)) /\
    (sender m <> admin s \/ newAdmin = 0%N ->
     succeeds m (TxChangeAdmin newAdmin) s = false /\
     transact m (TxChangeAdmin newAdmin) s = s /\
     emitted m (TxChangeAdmin newAdmin) s = []).
Proof.
  intros m s a. split.
  - intros Hs Ha s'.
    assert (Hok : succeeds m (TxChangeAdmin a) s = true)
      by (apply succeeds_changeAdmin; auto).
    unfold s', emitted. rewrite (transact_changeAdmin_ok _ _ _ Hok). simpl.
    rewrite drop_app_length.
    split; [reflexivity|]. split; [reflexivity|]. split; [reflexivity|]. split.
    + intros m' d h e Hh. rewrite succeeds_store. simpl. tauto.
    + intros t d h e Hne.
      match goal with |- ?x = false => destruct x eqn:E; [|reflexivity] end.
      apply succeeds_store in E as [E _]. simpl in E. contradiction.
  - intros Hbad.
    assert (Hf : succeeds m (TxChangeAdmin a) s = false).
    { destruct (succeeds m (TxChangeAdmin a) s) eqn:E; [|reflexivity].
      apply succeeds_changeAdmin in E as [E1 E2]. destruct Hbad; contradiction. }
    split; [exact Hf|]. pose proof (transact_fail _ _ _ Hf) as Ht.
    split; [exact Ht|]. unfold emitted. rewrite Ht. apply drop_all.
Qed.

(** The admin 7 hands over to 9. *)
Lemma changeAdmin_hands_over_witness :
  let s := constructor (mkMsg 7 100) in
  let s' := transact (mkMsg 7 101) (TxChangeAdmin 9) s in
  admin s' = 9%N /\
  succeeds (mkMsg 7 102) (TxStoreVerification 42 0xabc true) s' = false /\
  transact (mkMsg 8 101) (TxChangeAdmin 9) s = s.
Proof.
  pose proof (changeAdmin_hands_over (mkMsg 7 101) (constructor (mkMsg 7 100)) 9)
    as [Hok _].
  pose proof (changeAdmin_hands_over (mkMsg 8 101) (constructor (mkMsg 7 100)) 9)
    as [_ Hbad].
  cbv zeta in Hok.
  destruct (Hok eq_refl ltac:(discriminate)) as (Ha & _ & _ & _ & Hold).
  split; [exact Ha|]. split.
  - apply (Hold 102%N 42%N 0xabc%N true). discriminate.
  - apply Hbad. left. discriminate.
Defined.

(** Whatever transaction is applied, a record that exists stays, and the
    log only grows. *)
Lemma transact_keeps m t s :
  (forall a, exists_ (records_at s a) = true ->
             exists_ (records_at (transact m t s) a) = true) /\
  (exists new, log (transact m t s) = log s ++ new).
Proof.
  destruct (succeeds m t s) eqn:Hok.
  - destruct t as [d c e|na].
    + rewrite transact_store_ok by exact Hok. split.
      * intros a Ha. rewrite records_at_written.
        destruct (decide (d = a)); [reflexivity|exact Ha].
      * eexists. reflexivity.
    + rewrite transact_changeAdmin_ok by exact Hok. split; [auto|].
      eexists. reflexivity.
  - rewrite transact_fail by exact Hok. split; [auto|].
    exists []. now rewrite app_nil_r.
Qed.

(** X2. The ledger never forgets: no sequence of transactions, by
    whatever callers, removes a record or an event.  An address that has
    a record keeps one, and the log of the earlier state is a prefix of
    the log of every later state. *)
Theorem records_and_log_persist :
  forall (hist : list (Msg * Tx)) (s : State),
    (forall a m,
       hasRecord a m s = Ok (true, s) ->
       hasRecord a m (run s hist) = Ok (true, run s hist)) /\
    (exists new, log (run s hist) = log s ++ new).
Proof.
  induction hist as [|[m t] hist IH]; intros s.
  - split; [auto|]. exists []. now rewrite app_nil_r.
  - simpl. destruct (IH (transact m t s)) as [IHr IHl].
    destruct (transact_keeps m t s) as [Hr Hl]. split.
    + intros a m' Ha. apply IHr.
      unfold hasRecord, bind, read_record, ret in *. simpl in *.
      injection Ha as Ha. now rewrite (Hr a Ha).
    + destruct IHl as [n1 ->]. destruct Hl as [n2 ->].
      exists (n2 ++ n1). now rewrite app_assoc.
Qed.

(** Writes by a stranger and a change of admin do not remove the record
    of 42. *)
Lemma records_and_log_persist_witness :
  let s := run (constructor (mkMsg 7 100))
             [(mkMsg 7 101, TxStoreVerification 42 0xabc true)] in
  let later := run s [(mkMsg 8 102, TxStoreVerification 42 0xbad false);
                      (mkMsg 7 103, TxChangeAdmin 9);
                      (mkMsg 9 104, TxStoreVerification 43 0xdef true)] in
  hasRecord 42 (mkMsg 0 0) later = Ok (true, later).
Proof.
  cbv zeta.
  apply (proj1 (records_and_log_persist _ _)).
  vm_compute. reflexivity.
Defined.

(** X3. A write concerns one address only: a successful
    [storeVerification] for [a] leaves what [getRecord] and [verify]
    answer for every other address as it was, and leaves the admin. *)
Theorem storeVerification_frame :
  forall (m : Msg) (s : State) (a : address) (h : bytes32) (e : bool)
         (b : address) (h' : bytes32) (m' : Msg),
    a <> b ->
    let s' := transact m (TxStoreVerification a h e) s in
    admin s' = admin s /\
    (exists r, getRecord b m' s = Ok (r, s) /\ getRecord b m' s' = Ok (r, s')) /\
    (exists v, verify b h' m' s = Ok (v, s) /\ verify b h' m' s' = Ok (v, s')).
Proof.
  intros m s a h e b h' m' Hne s'.
  assert (Hrec : records_at s' b = records_at s b /\ admin s' = admin s).
  { unfold s'. destruct (succeeds m (TxStoreVerification a h e) s) eqn:Hok.
    - rewrite transact_store_ok by exact Hok. rewrite records_at_written.
      rewrite decide_False by exact Hne. split; reflexivity.
    - rewrite transact_fail by exact Hok. split; reflexivity. }
  destruct Hrec as [Hrec Hadm]. split; [exact Hadm|]. split.
  - eexists. rewrite !getRecord_spec, Hrec. split; reflexivity.
  - eexists. rewrite !verify_spec, Hrec. split; reflexivity.
Qed.

Lemma storeVerification_frame_witness :
  let s := run (constructor (mkMsg 7 100))
             [(mkMsg 7 101, TxStoreVerification 42 0xabc true)] in
  admin (transact (mkMsg 7 102) (TxStoreVerification 43 0xdef false) s) = admin s.
Proof.
  cbv zeta.
  apply (storeVerification_frame (mkMsg 7 102) _ 43 0xdef false 42 0 (mkMsg 0 0)).
  discriminate.
Defined.

(** The admin after a history: the target of the last accepted
    [changeAdmin], or else the admin at its start. *)
Fixpoint last_admin (s : State) (h : list (Msg * Tx)) (acc : address) : address :=
  match h with
  | [] => acc
  | (m, t) :: h' =>
      last_admin (transact m t s) h'
        match t with
        | TxChangeAdmin a => if succeeds m t s then a else acc
        | TxStoreVerification _ _ _ => acc
        end
  end.

Lemma run_admin hist : forall s acc,
  admin s = acc ->
  admin (run s hist) = last_admin s hist acc /\
  (acc <> 0%N -> last_admin s hist acc <> 0%N).
Proof.
  induction hist as [|[m t] hist IH]; intros s acc Hacc; simpl; [auto|].
  destruct t as [d c e|na].
  - assert (Ha : admin (transact m (TxStoreVerification d c e) s) = acc).
    { destruct (succeeds m (TxStoreVerification d c e) s) eqn:Hok.
      - rewrite transact_store_ok by exact Hok. exact Hacc.
      - rewrite transact_fail by exact Hok. exact Hacc. }
    apply IH. exact Ha.
  - destruct (succeeds m (TxChangeAdmin na) s) eqn:Hok.
    + pose proof (proj1 (succeeds_changeAdmin _ _ _) Hok) as [_ Hnz].
      destruct (IH (transact m (TxChangeAdmin na) s) na) as [H1 H2].
      { rewrite transact_changeAdmin_ok by exact Hok. reflexivity. }
      split; [exact H1|]. intros _. apply H2. exact Hnz.
    + apply IH. rewrite transact_fail by exact Hok. exact Hacc.
Qed.

(** X4. The write gate cannot be lost: on a contract deployed from a
    non-zero account the admin is never the zero address, whatever is
    called by whomever; it is the deployer until a [changeAdmin] is
    accepted and the target of the last accepted one afterwards, and a
    write by that account with a non-zero hash is always accepted. *)
Theorem admin_never_zero :
  forall (deploy : Msg) (hist : list (Msg * Tx)),
    sender deploy <> 0%N ->
    let s := run (constructor deploy) hist in
    admin s <> 0%N /\
    admin s = last_admin (constructor deploy) hist (sender deploy) /\
    (forall t d h e,
       h <> 0%N ->
       succeeds (mkMsg (admin s) t) (TxStoreVerification d h e) s = true).
Proof.
  intros deploy hist Hnz s.
  destruct (run_admin hist (constructor deploy) (sender deploy) eq_refl) as [H1 H2].
  fold s in H1. split; [rewrite H1; auto|]. split; [exact H1|].
  intros t d h e Hh. apply succeeds_store. auto.
Qed.

Lemma admin_never_zero_witness :
  admin (run (constructor (mkMsg 7 100))
           [(mkMsg 7 101, TxChangeAdmin 0); (mkMsg 8 102, TxChangeAdmin 8);
            (mkMsg 7 103, TxChangeAdmin 9)]) = 9%N.
Proof.
  pose proof (admin_never_zero (mkMsg 7 100)
    [(mkMsg 7 101, TxChangeAdmin 0); (mkMsg 8 102, TxChangeAdmin 8);
     (mkMsg 7 103, TxChangeAdmin 9)]) as H.
  cbv zeta in H. destruct (H ltac:(discriminate)) as (_ & Ha & _).
  rewrite Ha. vm_compute. reflexivity.
Defined.

(** Replaying a log for one address [a]: the record it leads to, if
    any, or [None] when the log is not a well-formed trail (a creation
    for an address that has a record, an update for one that has none,
    or an update whose old hash is not the hash before it). *)
Definition replay_step (a : address)
    (acc : option (option (bytes32 * bool * uint256))) (ev : Event)
    : option (option (bytes32 * bool * uint256)) :=
  match acc with
  | None => None
  | Some cur =>
      match ev with
      | RecordAdded d h el t _ =>
          if (d =? a)%N
          then match cur with None => Some (Some (h, el, t)) | Some _ => None end
          else Some cur
      | RecordUpdated d old h el t =>
          if (d =? a)%N
          then match cur with
               | Some (c, _, _) => if (c =? old)%N then Some (Some (h, el, t)) else None
               | None => None
               end
          else Some cur
      | AdminChanged _ _ => Some cur
      end
  end.

Definition replay (a : address) (l : list Event)
    : option (option (bytes32 * bool * uint256)) :=
  fold_left (replay_step a) l (Some None).

Definition current (s : State) (a : address) : option (bytes32 * bool * uint256) :=
  let r := records_at s a in
  if exists_ r then Some (certHash r, eligible r, timestamp r) else None.

(** The log replays to the stored record, for every address. *)
Definition audited (s : State) : Prop :=
  forall a, replay a (log s) = Some (current s a).

Lemma run_audited hist : forall s, audited s -> audited (run s hist).
Proof.
  induction hist as [|[m t] hist IH]; intros s Hs; simpl; [exact Hs|].
  apply IH. destruct (succeeds m t s) eqn:Hok.
  - destruct t as [d c e|na].
    + rewrite transact_store_ok by exact Hok. intros a.
      specialize (Hs a). unfold replay in *. unfold written at 1. cbn [log].
      rewrite fold_left_app, Hs. unfold current. rewrite records_at_written.
      unfold write_event. simpl.
      destruct (decide (d = a)) as [->|Hne].
      * destruct (exists_ (records_at s a)); simpl; rewrite !N.eqb_refl; reflexivity.
      * apply N.eqb_neq in Hne.
        destruct (exists_ (records_at s d)); simpl; rewrite Hne; reflexivity.
    + rewrite transact_changeAdmin_ok by exact Hok. intros a.
      specialize (Hs a). unfold replay in *. cbn [log].
      rewrite fold_left_app, Hs. reflexivity.
  - rewrite transact_fail by exact Hok. exact Hs.
Qed.

(** X5. The event log is a faithful audit trail: on a deployed contract,
    replaying the log for any address (a creation first, then updates
    each naming as old hash the hash before it) never meets an event out
    of place and ends in exactly the hash, eligibility and timestamp that
    [getRecord] returns, and in no record exactly when [getRecord]
    reports none.  The stored records can be rebuilt from the events. *)
Theorem log_is_audit_trail :
  forall (deploy : Msg) (hist : list (Msg * Tx)) (a : address) (m : Msg),
    let s := run (constructor deploy) hist in
    exists cur,
      replay a (log s) = Some cur /\
      getRecord a m s
        = Ok (match cur with
              | Some (h, e, t) => (h, e, t, true)
              | None => (0%N, false, 0%N, false)
              end, s).
Proof.
  intros deploy hist a m s.
  assert (Ha : audited s).
  { apply run_audited. intros b. reflexivity. }
  exists (current s a). split; [apply Ha|].
  rewrite getRecord_spec. unfold current.
  assert (Hk : keyed s).
  { apply run_keyed. intros b r. unfold constructor; simpl.
    rewrite lookup_empty. discriminate. }
  unfold records_at. destruct (records s !! a) as [r|] eqn:Hl; simpl.
  - destruct (Hk a r Hl) as [_ ->]. reflexivity.
  - reflexivity.
Qed.

End LedgerMore.

(** ** The helpers of certificateHash.js and the upload form *)
Module UtilityFacts.
Import Js CertificateHash CertificateUtils HashFacts.

#[local] Arguments Sha256.sha256 : simpl never.
#[local] Arguments hashHex : simpl never.

Lemma chars_0x t : chars ("0x" ++ t) = "0"%char :: "x"%char :: chars t.
Proof. reflexivity. Qed.

Lemma startsWith_0x s : startsWith "0x" s = true -> exists t, s = "0x" ++ t.
Proof.
  unfold startsWith. destruct s as [|a [|b s]]; cbn [String.prefix]; try discriminate.
  - destruct (Ascii.ascii_dec "0" a); discriminate.
  - destruct (Ascii.ascii_dec "0" a) as [<-|]; [|discriminate].
    destruct (Ascii.ascii_dec "x" b) as [<-|]; [|discriminate].
    intros _. exists s. reflexivity.
Qed.

Lemma startsWith_0x_app t : startsWith "0x" ("0x" ++ t) = true.
Proof. unfold startsWith. destruct t; reflexivity. Qed.

Lemma startsWith_hex s :
  forallb is_hex (chars s) = true -> startsWith "0x" s = false.
Proof.
  intros H. destruct (startsWith "0x" s) eqn:E; [|reflexivity].
  apply startsWith_0x in E as [t ->]. rewrite chars_0x in H.
  cbn [forallb] in H. apply andb_prop in H as [_ H]. apply andb_prop in H as [H _].
  vm_compute in H. discriminate.
Qed.

Lemma hexToBytes32_prefixed t :
  hex64_test t = true -> hexToBytes32 ("0x" ++ t) = Ok ("0x" ++ t).
Proof.
  intros H. unfold hexToBytes32. rewrite startsWith_0x_app, chars_0x.
  cbn [drop]. rewrite drop_0, str_chars, H. reflexivity.
Qed.

Lemma hexToBytes32_bare t :
  hex64_test t = true -> hexToBytes32 t = Ok ("0x" ++ t).
Proof.
  intros H. unfold hexToBytes32.
  pose proof H as H'. unfold hex64_test in H'. apply andb_prop in H' as [_ Hh].
  rewrite (startsWith_hex t Hh), H. reflexivity.
Qed.

Lemma hexToBytes32_ok s r :
  hexToBytes32 s = Ok r ->
  exists t, r = "0x" ++ t /\ hex64_test t = true /\ (s = t \/ s = "0x" ++ t).
Proof.
  unfold hexToBytes32. destruct (startsWith "0x" s) eqn:Hp.
  - apply startsWith_0x in Hp as [t ->]. rewrite chars_0x.
    cbn [drop]. rewrite drop_0, str_chars.
    destruct (hex64_test t) eqn:Ht; [|discriminate]. intros [= <-]. eauto.
  - destruct (hex64_test s) eqn:Ht; [|discriminate]. intros [= <-]. eauto.
Qed.

Lemma bytes32_value_hex64 t :
  hex64_test t = true -> exists n, Ethers.bytes32_value ("0x" ++ t) = Ok n.
Proof.
  intros H. unfold hex64_test in H. apply andb_prop in H as [Hl Hh].
  unfold Ethers.bytes32_value, Ethers.is_bytes_form. rewrite chars_0x.
  cbn [drop]. rewrite drop_0, Hl, Hh.
  apply Nat.eqb_eq in Hl. rewrite Hl.
  destruct (BrowserFacts.hex_number_bound _ 0%N Hh) as (n & -> & _).
  change (Ascii.eqb "x" "x" || Ascii.eqb "x" "X") with true.
  change (Nat.even 64) with true. cbv beta iota. eauto.
Qed.

Lemma computeFileHash_hex64 b :
  exists t, computeFileHash b = "0x" ++ t /\ hex64_test t = true.
Proof.
  destruct (hashHex_spec _ (sha256_bytes b)) as (Hlen & Hlow & _).
  rewrite sha256_length in Hlen.
  exists (hashHex (Sha256.sha256 b)). split; [reflexivity|].
  unfold hex64_test. rewrite Hlen.
  change ((2 * 32 =? 64)%nat) with true. cbn [andb].
  clear -Hlow. induction (chars _) as [|c l IH]; [reflexivity|].
  cbn [forallb] in *. apply andb_prop in Hlow as [Hc Hl]. rewrite (IH Hl), andb_true_r.
  unfold is_hex, is_lower_hex in *. now rewrite Hc.
Qed.

(** X6. [hexToBytes32] accepts exactly the strings of 64 hex digits,
    with or without a leading 0x, and answers the digits behind one 0x;
    everything else is refused with its one error.  What it answers it
    accepts again unchanged, the ledger client reads it as a [bytes32]
    value, and every hash the hash engine computes passes through
    unchanged. *)
Theorem hexToBytes32_normal_form :
  (forall s r,
     hexToBytes32 s = Ok r <->
     exists t, hex64_test t = true /\ r = "0x" ++ t /\ (s = t \/ s = "0x" ++ t)) /\
  (forall s,
     is_ok (hexToBytes32 s) = false ->
     hexToBytes32 s = Failed "Invalid hex string for bytes32 conversion") /\
  (forall s r,
     hexToBytes32 s = Ok r ->
     hexToBytes32 r = Ok r /\ exists n, Ethers.bytes32_value r = Ok n) /\
  (forall b, hexToBytes32 (computeFileHash b) = Ok (computeFileHash b)).
Proof.
  split; [|split; [|split]].
  - intros s r. split.
    + intros H. apply hexToBytes32_ok in H as (t & -> & Ht & Hs). eauto.
    + intros (t & Ht & -> & [->| ->]).
      * apply hexToBytes32_bare. exact Ht.
      * apply hexToBytes32_prefixed. exact Ht.
  - intros s. unfold hexToBytes32. destruct (negb _); [reflexivity|discriminate].
  - intros s r H. apply hexToBytes32_ok in H as (t & -> & Ht & _).
    split; [apply hexToBytes32_prefixed; exact Ht|apply bytes32_value_hex64; exact Ht].
  - intros b. destruct (computeFileHash_hex64 b) as (t & -> & Ht).
    apply hexToBytes32_prefixed. exact Ht.
Qed.

(** *** Validation of the chosen file *)

(** The file is within the limit, of an allowed type, and has a name of
    at most 255 characters. *)
Definition acceptable (maxSizeMB : N) (allowedTypes : list string)
    (f : Browser.File) : Prop :=
  (size f <= maxSizeMB * 1024 * 1024)%N /\
  In (Browser.f_type f) allowedTypes /\
  Browser.f_name f <> "" /\
  (String.length (Browser.f_name f) <= 255)%nat.

Definition default_types : list string :=
  ["application/pdf"; "image/jpeg"; "image/png"; "image/jpg"].

Lemma includes_In l x : includes l x = true <-> In x l.
Proof.
  unfold includes. rewrite existsb_exists. split.
  - intros (y & Hin & Heq). apply String.eqb_eq in Heq. now subst.
  - intros Hin. exists x. split; [exact Hin|apply String.eqb_refl].
Qed.

Lemma falsy_empty s : falsy (Some s) = true <-> s = "".
Proof. destruct s; simpl; split; intros; congruence. Qed.

(** X7. [validateCertificateFile] answers [valid] exactly for a file
    that is there, is not larger than the limit in megabytes of 2^20
    bytes (10 when none is given), has one of the allowed types (PDF,
    JPEG, PNG when none are given) and a name of 1 to 255 characters.  A
    valid answer carries no error; an invalid one carries the message of
    the first test that failed, in the order: file, size, type, name. *)
Theorem validateCertificateFile_accepts :
  forall (file : option Browser.File) (options : Options),
    let limit := default 10%N (maxSizeMB options) in
    let types := default default_types (allowedTypes options) in
    let answer := validateCertificateFile file options in
    (valid answer = true <-> exists f, file = Some f /\ acceptable limit types f) /\
    (valid answer = true -> error answer = None) /\
    (file = None -> answer = mkValidation false (Some "No file provided")) /\
    (forall f,
       file = Some f ->
       (limit * 1024 * 1024 < size f)%N ->
       answer = mkValidation false
                  (Some ("File size exceeds " ++ Browser.decimal limit ++ "MB limit"))) /\
    (forall f,
       file = Some f ->
       (size f <= limit * 1024 * 1024)%N ->
       ~ In (Browser.f_type f) types ->
       answer = mkValidation false
                  (Some ("File type not allowed. Accepted types: "
                         ++ join_with ", " types))) /\
    (forall f,
       file = Some f ->
       (size f <= limit * 1024 * 1024)%N ->
       In (Browser.f_type f) types ->
       Browser.f_name f = "" \/ (255 < String.length (Browser.f_name f))%nat ->
       answer = mkValidation false (Some "Invalid file name")).
Proof.
  intros file options limit types answer.
  unfold answer, validateCertificateFile. fold limit. fold default_types. fold types.
  destruct file as [f|].
  2:{ split; [split; [discriminate|intros (f & Hf & _); discriminate]|].
      split; [discriminate|]. split; [reflexivity|].
      repeat split; intros; discriminate. }
  destruct (N.ltb_spec (limit * 1024 * 1024) (size f)) as [Hbig|Hsize].
  { split; [split; [discriminate|]|].
    - intros (f' & [= <-] & Hs & _). lia.
    - split; [discriminate|]. split; [discriminate|]. split.
      + intros f' [= <-] _. reflexivity.
      + split; intros f' [= <-] Hle; lia. }
  destruct (includes types (Browser.f_type f)) eqn:Hin; cbn [negb].
  2:{ assert (Hnot : ~ In (Browser.f_type f) types).
      { intros H. apply includes_In in H. congruence. }
      split; [split; [discriminate|]|].
      - intros (f' & [= <-] & _ & Ht & _). contradiction.
      - split; [discriminate|]. split; [discriminate|]. split.
        + intros f' [= <-] Hlt. lia.
        + split; intros f' [= <-] _ H; [reflexivity|contradiction]. }
  apply includes_In in Hin.
  destruct (falsy (Some (Browser.f_name f))) eqn:Hname; cbn [orb].
  { apply falsy_empty in Hname.
    split; [split; [discriminate|]|].
    - intros (f' & [= <-] & _ & _ & Hn & _). contradiction.
    - split; [discriminate|]. split; [discriminate|]. split.
      + intros f' [= <-] Hlt. lia.
      + split; intros f' [= <-] _ H; [contradiction|reflexivity]. }
  assert (Hne : Browser.f_name f <> "").
  { intros H. apply falsy_empty in H. congruence. }
  destruct (Nat.ltb_spec 255 (String.length (Browser.f_name f))) as [Hlong|Hshort].
  { split; [split; [discriminate|]|].
    - intros (f' & [= <-] & _ & _ & _ & Hl). lia.
    - split; [discriminate|]. split; [discriminate|]. split.
      + intros f' [= <-] Hlt. lia.
      + split; intros f' [= <-] _ H; [contradiction|reflexivity]. }
  split; [split; [|reflexivity]|].
  - intros _. exists f. repeat split; assumption.
  - split; [reflexivity|]. split; [discriminate|]. split.
    + intros f' [= <-] Hlt. lia.
    + split; intros f' [= <-] _ H; [contradiction|].
      intros [Hn|Hl]; [contradiction|lia].
Qed.

(** *** The upload form *)

Import UploadForm.

(** The file the form holds, if any, passed the validation. *)
Definition validated (st : Form) : Prop :=
  match file st with
  | Some f => acceptable 10 default_types f
  | None => True
  end.

Lemma handleFileChange_file url files st :
  file (handleFileChange url files st)
  = match first_file files with
    | Some f =>
        if valid (validateCertificateFile (Some f)
                    (mkOptions (Some 10%N) (Some default_types)))
        then Some f else None
    | None => None
    end.
Proof.
  unfold handleFileChange. fold default_types.
  destruct (first_file files) as [f|]; [|reflexivity].
  destruct (valid _); reflexivity.
Qed.

Lemma act_validated url st a : validated st -> validated (act url st a).
Proof.
  intros H. destruct a as [files|value| |ui]; unfold validated; cbn [act].
  - rewrite handleFileChange_file.
    destruct (first_file files) as [f|]; [|exact I].
    destruct (valid _) eqn:Hv; [|exact I].
    apply (validateCertificateFile_accepts (Some f)
             (mkOptions (Some 10%N) (Some default_types))) in Hv
      as (f' & [= <-] & Hok). exact Hok.
  - exact H.
  - exact I.
  - destruct ui; try exact H. exact I.
Qed.

(** X8. The upload form never holds a file that did not pass the
    validation.  [handleFileChange] keeps the first chosen file exactly
    when [validateCertificateFile] accepts it (at most 10 MB, PDF, JPEG
    or PNG, a name of 1 to 255 characters), and otherwise empties the
    file cell and shows the error of the validation; and whatever the
    user chooses, types or clears and whatever a submission changes, the
    file [handleSubmit] finds in the form is none or one that was
    accepted. *)
Theorem upload_form_file_is_validated :
  forall (url : Browser.File -> string),
    (forall files st,
       let st' := handleFileChange url files st in
       (forall f, file st' = Some f <->
                  first_file files = Some f /\ acceptable 10 default_types f) /\
       (forall f,
          first_file files = Some f -> ~ acceptable 10 default_types f ->
          file st' = None /\ previewUrl st' = None /\
          exists m, UploadForm.error st' = Some m) /\
       walletAddress st' = walletAddress st) /\
    (forall actions user cb,
       let st := fold_left (act url) actions initial in
       validated st /\
       match Browser.u_file (submitted user cb st) with
       | Some f => acceptable 10 default_types f
       | None => True
       end).
Proof.
  intros url. split.
  - intros files st st'.
    pose proof (fun f => validateCertificateFile_accepts (Some f)
                           (mkOptions (Some 10%N) (Some default_types))) as Hv.
    cbn zeta in Hv. cbn [default maxSizeMB allowedTypes] in Hv.
    split; [|split].
    + intros f. unfold st'. rewrite handleFileChange_file.
      destruct (first_file files) as [g|]; [|split; [discriminate|intros [? _]; discriminate]].
      destruct (valid _) eqn:Hval.
      * apply (proj1 (Hv g)) in Hval as (g' & [= <-] & Hok).
        split; [intros [= <-]; auto|intros [[= <-] _]; reflexivity].
      * split; [discriminate|]. intros [[= ->] Hok].
        assert (valid (validateCertificateFile (Some f)
                         (mkOptions (Some 10%N) (Some default_types))) = true)
          by (apply Hv; eauto).
        congruence.
    + intros f Hf Hbad. unfold st', handleFileChange. fold default_types. rewrite Hf.
      destruct (valid _) eqn:Hval.
      * apply (proj1 (Hv f)) in Hval as (g' & [= <-] & Hok). contradiction.
      * cbn [negb file previewUrl UploadForm.error].
        split; [reflexivity|]. split; [reflexivity|].
        unfold validateCertificateFile in *.
        cbn [default maxSizeMB allowedTypes] in *.
        repeat case_match; try discriminate; eauto.
    + unfold st', handleFileChange. destruct (first_file files); [|reflexivity].
      destruct (negb _); reflexivity.
  - intros actions user cb st.
    assert (H : validated st).
    { unfold st. generalize initial, (I : validated initial).
      induction actions as [|a actions IH]; intros st0 H0; [exact H0|].
      cbn [fold_left]. apply IH. apply act_validated. exact H0. }
    split; [exact H|]. exact H.
Qed.

(** *** Comparing hashes *)

Lemma hex_value_lower c :
  is_hex c = true -> hex_value (toLowerCase_char c) = hex_value c.
Proof.
  destruct c as [[] [] [] [] [] [] [] []]; vm_compute; intros H;
    first [discriminate H | reflexivity].
Qed.

Lemma lower_is_lower_hex c :
  is_hex c = true -> is_lower_hex (toLowerCase_char c) = true.
Proof.
  destruct c as [[] [] [] [] [] [] [] []]; vm_compute; intros H;
    first [discriminate H | reflexivity].
Qed.

Lemma lower_hex_digit c d :
  is_lower_hex c = true -> hex_value c = Some d -> c = hex_digit d.
Proof.
  destruct c as [[] [] [] [] [] [] [] []]; vm_compute; intros H;
    first [discriminate H | intros [= <-]; reflexivity].
Qed.

Lemma hex_number_lower l : forall acc,
  forallb is_hex l = true ->
  hex_number (List.map toLowerCase_char l) acc = hex_number l acc.
Proof.
  induction l as [|c l IH]; intros acc H; [reflexivity|].
  cbn [forallb] in H. apply andb_prop in H as [Hc Hl].
  cbn [List.map hex_number]. rewrite (hex_value_lower c Hc).
  destruct (hex_value c); [apply IH; exact Hl|reflexivity].
Qed.

Lemma hex_number_range l : forall acc n,
  hex_number l acc = Some n ->
  (acc * 16 ^ N.of_nat (length l) <= n < (acc + 1) * 16 ^ N.of_nat (length l))%N.
Proof.
  induction l as [|c l IH]; intros acc n H.
  - injection H as <-. simpl. lia.
  - cbn [hex_number] in H. destruct (hex_value c) as [d|] eqn:Hd; [|discriminate].
    pose proof (BrowserFacts.hex_value_lt c d Hd) as Hlt.
    apply IH in H. cbn [length]. rewrite Nat2N.inj_succ, N.pow_succ_r'. nia.
Qed.

(** Strings of lower-case hex digits of one length that denote the same
    number are the same. *)
Lemma hex_number_inj l1 : forall l2 acc n,
  length l1 = length l2 ->
  forallb is_lower_hex l1 = true -> forallb is_lower_hex l2 = true ->
  hex_number l1 acc = Some n -> hex_number l2 acc = Some n -> l1 = l2.
Proof.
  induction l1 as [|c1 l1 IH]; intros [|c2 l2] acc n Hlen H1 H2 Hn1 Hn2;
    try discriminate Hlen; [reflexivity|].
  injection Hlen as Hlen.
  cbn [forallb] in H1, H2.
  apply andb_prop in H1 as [Hc1 H1]. apply andb_prop in H2 as [Hc2 H2].
  cbn [hex_number] in Hn1, Hn2.
  destruct (hex_value c1) as [d1|] eqn:Hd1; [|discriminate].
  destruct (hex_value c2) as [d2|] eqn:Hd2; [|discriminate].
  pose proof (hex_number_range _ _ _ Hn1) as R1.
  pose proof (hex_number_range _ _ _ Hn2) as R2.
  rewrite Hlen in R1.
  assert (Hd : d1 = d2).
  { pose proof (BrowserFacts.hex_value_lt c1 d1 Hd1).
    pose proof (BrowserFacts.hex_value_lt c2 d2 Hd2).
    set (p := (16 ^ N.of_nat (length l2))%N) in *.
    assert (0 < p)%N by (apply N.neq_0_lt_0, N.pow_nonzero; discriminate).
    destruct (N.lt_trichotomy d1 d2) as [Hlt|[Heq|Hgt]]; [|exact Heq|]; nia. }
  subst d2.
  rewrite (lower_hex_digit c1 d1 Hc1 Hd1), (lower_hex_digit c2 d1 Hc2 Hd2).
  f_equal. eapply IH; eassumption.
Qed.

Lemma substring_all s : substring 0 (String.length s) s = s.
Proof. induction s as [|c s IH]; [reflexivity|]. cbn [String.length substring]. now rewrite IH. Qed.

Lemma replace_first_eq pat rep s :
  replace_first pat rep s
  = if String.prefix pat s
    then rep ++ substring (String.length pat) (String.length s - String.length pat) s
    else match s with
         | EmptyString => EmptyString
         | String c s' => String c (replace_first pat rep s')
         end.
Proof. destruct s; reflexivity. Qed.

Lemma replace_0x t : replace_first "0x" "" ("0x" ++ t) = t.
Proof.
  rewrite replace_first_eq.
  change (String.prefix "0x" ("0x" ++ t)) with (String.prefix "" t).
  replace (String.prefix "" t) with true by (destruct t; reflexivity).
  change ("" ++ substring (String.length "0x")
                  (String.length ("0x" ++ t) - String.length "0x") ("0x" ++ t))
    with (substring 0 (String.length t - 0) t).
  rewrite Nat.sub_0_r. apply substring_all.
Qed.

Lemma replace_none_hex l :
  forallb is_hex l = true -> replace_first "0x" "" (str l) = str l.
Proof.
  induction l as [|c l IH]; intros H; [reflexivity|].
  cbn [forallb] in H. apply andb_prop in H as [Hc Hl].
  change (str (c :: l)) with (String c (str l)).
  cbn [replace_first].
  assert (Hp : String.prefix "0x" (String c (str l)) = false).
  { destruct (String.prefix "0x" (String c (str l))) eqn:E; [|reflexivity].
    apply (startsWith_0x (String c (str l))) in E as [t E].
    injection E as -> E. destruct l as [|c' l]; [discriminate E|].
    injection E as -> _. cbn [forallb] in Hl. apply andb_prop in Hl as [Hx _].
    vm_compute in Hx. discriminate. }
  rewrite Hp, (IH Hl). reflexivity.
Qed.

(** The digits of a well-formed hash, in lower case. *)
Definition normal (digits : list ascii) : string :=
  str (List.map toLowerCase_char digits).

Lemma toLowerCase_prefixed x digits :
  (Ascii.eqb x "x" || Ascii.eqb x "X") = true ->
  toLowerCase (str ("0"%char :: x :: digits)) = "0x" ++ normal digits.
Proof.
  intros Hx. unfold toLowerCase, normal. rewrite chars_str. cbn [List.map].
  apply orb_prop in Hx as [Hx|Hx]; apply Ascii.eqb_eq in Hx; subst x; reflexivity.
Qed.

Lemma falsy_str_cons c l : falsy (Some (str (c :: l))) = false.
Proof. reflexivity. Qed.

Lemma str_inj l1 l2 : str l1 = str l2 -> l1 = l2.
Proof. intros H. rewrite <- (chars_str l1), <- (chars_str l2). now rewrite H. Qed.

Lemma bytes32_value_digits h n :
  Ethers.bytes32_value h = Ok n ->
  exists x digits,
    h = str ("0"%char :: x :: digits) /\
    (Ascii.eqb x "x" || Ascii.eqb x "X") = true /\
    length digits = 64%nat /\ forallb is_hex digits = true /\
    hex_number digits 0 = Some n.
Proof.
  unfold Ethers.bytes32_value, Ethers.is_bytes_form. intros H.
  rewrite <- (str_chars h).
  destruct (chars h) as [|c0 [|x digits]]; try discriminate H.
  { destruct c0 as [[] [] [] [] [] [] [] []]; discriminate H. }
  assert (c0 = "0"%char) as ->.
  { destruct c0 as [[] [] [] [] [] [] [] []]; try discriminate H. reflexivity. }
  cbn [drop] in H. rewrite drop_0 in H.
  destruct (Ascii.eqb x "x" || Ascii.eqb x "X") eqn:Hx; [|discriminate H].
  destruct (Nat.even (length digits)); [|discriminate H].
  destruct (forallb is_hex digits) eqn:Hh; [|discriminate H].
  cbn [andb] in H.
  destruct (length digits =? 64)%nat eqn:Hl; [|discriminate H].
  destruct (hex_number digits 0) as [m|] eqn:Hm; [|discriminate H].
  injection H as <-. apply Nat.eqb_eq in Hl.
  exists x, digits. auto.
Qed.

Lemma forallb_lower l :
  forallb is_hex l = true -> forallb is_lower_hex (List.map toLowerCase_char l) = true.
Proof.
  induction l as [|c l IH]; intros H; [reflexivity|].
  cbn [forallb List.map] in *. apply andb_prop in H as [Hc Hl].
  now rewrite (lower_is_lower_hex c Hc), IH.
Qed.

(** X9. [compareHashes] is the equality of the [bytes32] values: for two
    strings that the ledger client reads as [bytes32] values (0x and 64
    hex digits of either case) it answers true exactly when the values
    are equal, whatever the case of the letters; it answers the same for
    such a string with and without its prefix; and it answers false when
    a hash is missing or empty. *)
Theorem compareHashes_is_value_equality :
  (forall h1 h2 n1 n2,
     Ethers.bytes32_value h1 = Ok n1 ->
     Ethers.bytes32_value h2 = Ok n2 ->
     compareHashes (Some h1) (Some h2) = (n1 =? n2)%N) /\
  (forall t h,
     hex64_test t = true ->
     compareHashes (Some t) h = compareHashes (Some ("0x" ++ t)) h) /\
  (forall h, compareHashes None h = false /\ compareHashes h None = false /\
             compareHashes (Some "") h = false /\ compareHashes h (Some "") = false).
Proof.
  split; [|split].
  - intros h1 h2 n1 n2 H1 H2.
    apply bytes32_value_digits in H1 as (x1 & d1 & -> & Hx1 & Hl1 & Hh1 & Hn1).
    apply bytes32_value_digits in H2 as (x2 & d2 & -> & Hx2 & Hl2 & Hh2 & Hn2).
    unfold compareHashes. rewrite !falsy_str_cons. cbn [orb].
    rewrite !toLowerCase_prefixed by assumption. rewrite !replace_0x.
    destruct (N.eqb_spec n1 n2) as [->|Hne].
    + apply String.eqb_eq. unfold normal. f_equal.
      apply (hex_number_inj _ _ 0%N n2).
      * now rewrite !length_map, Hl1, Hl2.
      * apply forallb_lower; exact Hh1.
      * apply forallb_lower; exact Hh2.
      * rewrite hex_number_lower; assumption.
      * rewrite hex_number_lower; assumption.
    + apply String.eqb_neq. intros Heq. apply Hne.
      apply str_inj in Heq.
      rewrite <- (hex_number_lower d1 0%N Hh1) in Hn1.
      rewrite <- (hex_number_lower d2 0%N Hh2) in Hn2.
      rewrite Heq in Hn1. congruence.
  - intros t h Ht. unfold hex64_test in Ht. apply andb_prop in Ht as [Hl Hh].
    apply Nat.eqb_eq in Hl.
    assert (Hne : falsy (Some t) = false).
    { destruct t; [discriminate Hl|reflexivity]. }
    assert (Hne' : falsy (Some ("0x" ++ t)) = false) by reflexivity.
    assert (Hnorm : replace_first "0x" "" (toLowerCase t)
                    = replace_first "0x" "" (toLowerCase ("0x" ++ t))).
    { unfold toLowerCase. rewrite chars_0x. cbn [List.map].
      change (str (toLowerCase_char "0" :: toLowerCase_char "x"
                   :: List.map toLowerCase_char (chars t)))
        with ("0x" ++ str (List.map toLowerCase_char (chars t))).
      rewrite replace_0x. apply replace_none_hex.
      clear -Hh. induction (chars t) as [|c l IH]; [reflexivity|].
      cbn [forallb List.map] in *. apply andb_prop in Hh as [Hc Hl].
      now rewrite (BrowserFacts.is_hex_lower c Hc), IH. }
    unfold compareHashes. destruct h as [h|]; [|reflexivity].
    rewrite Hne, Hne'. cbn [orb].
    destruct (falsy (Some h)); [reflexivity|]. now rewrite Hnorm.
  - intros h. unfold compareHashes. repeat split.
    + destruct h as [h|]; reflexivity.
    + destruct h as [h|]; [|reflexivity]. cbn [falsy].
      destruct (String.length h =? 0)%nat; reflexivity.
    + destruct h as [h|]; [|reflexivity]. cbn [falsy].
      destruct (String.length h =? 0)%nat; reflexivity.
Qed.

(** The hash of the demo certificate, as computed and in upper case. *)
Lemma compareHashes_is_value_equality_witness :
  compareHashes (Some (computeFileHash (bytes_of_string "abc")))
    (Some ("0x" ++ toUpperCase (hashHex (Sha256.sha256 (bytes_of_string "abc")))))
  = true.
Proof.
  destruct compareHashes_is_value_equality as (H & _).
  erewrite H; [| vm_compute; reflexivity | vm_compute; reflexivity ].
  vm_compute. reflexivity.
Defined.

End UtilityFacts.

(** ** The approval orchestrator: who may write, and what success means *)
Module OrchestratorMore.
Import Js Prog Supabase VerifyCertificate OrchestratorFacts.
Local Open Scope list_scope.

(** How far a run has established who calls: nobody yet, a user of the
    identity provider, a user whose role is hospital. *)
Inductive Clearance : Type :=
| Anonymous
| Identified (userId : string)
| Staff (userId : string).

(** The token the handler presents: the request's authorization header
    without its first "Bearer ". *)
Definition presented (req : Request) (token : string) : bool :=
  match authorization req with
  | Some header => String.eqb token (replace_first "Bearer " "" header)
  | None => false
  end.

Definition clear (req : Request) (cl : Clearance) (c : Call VerifyCertificate.E)
    : Clearance :=
  match c with
  | MkCall (AuthGetUser token) r =>
      match error r, data r with
      | None, Some u => if presented req token then Identified (user_id u) else Anonymous
      | _, _ => Anonymous
      end
  | MkCall (SelectRole userId) r =>
      match cl, error r, data r with
      | Identified u, None, Some p =>
          if String.eqb userId u && String.eqb (role p) "hospital" then Staff u else cl
      | _, _, _ => cl
      end
  | _ => cl
  end.

(** The call reads a certificate or its file, or is a step of the ledger
    write or of the record-store update. *)
Definition needs_staff (c : Call VerifyCertificate.E) : bool :=
  match c with
  | MkCall (SelectCertificate _) _ | MkCall (StorageDownload _) _
  | MkCall (NewContract _ _ _) _ | MkCall (StoreVerification _ _ _ _) _
  | MkCall (Wait _) _ | MkCall (UpdateCertificate _ _) _ => true
  | _ => false
  end.

(** A call that needs it is made with the clearance of hospital staff,
    and an update names that very user as the reviewer. *)
Definition permitted (cl : Clearance) (c : Call VerifyCertificate.E) : bool :=
  if needs_staff c then
    match cl with
    | Staff u =>
        match c with
        | MkCall (UpdateCertificate _ upd) _ => String.eqb (u_reviewed_by upd) u
        | _ => true
        end
    | _ => false
    end
  else true.

Fixpoint authorized (req : Request) (cl : Clearance)
    (tr : list (Call VerifyCertificate.E)) : bool :=
  match tr with
  | [] => true
  | c :: tr' => permitted cl c && authorized req (clear req cl c) tr'
  end.

(** What a success response reports was done. *)
Definition reported (req : Request) (d : SuccessData)
    (tr : list (Call VerifyCertificate.E)) : Prop :=
  exists body donor c tx rc upd,
    json req = Ok body /\
    certificateId body = Some (s_certificateId d) /\
    donorWalletAddress body = Some donor /\
    s_eligible d = VerifyCertificate.eligible body /\
    In (MkCall (StoreVerification c donor (s_certHash d) (s_eligible d)) (Ok tx)) tr /\
    In (MkCall (Wait tx) (Ok rc)) tr /\
    In (MkCall (UpdateCertificate (s_certificateId d) upd) None) tr /\
    s_txHash d = hash tx /\
    s_blockNumber d = blockNumber rc /\
    u_cert_hash upd = s_certHash d /\
    u_tx_hash upd = s_txHash d /\
    u_eligible upd = s_eligible d /\
    u_chain_address upd = s_contractAddress d.

(** What a run of the handler satisfies, whatever the collaborators
    answer: see [handler_staff_facts]. *)
Definition staff_facts (req : Request) (tr : list (Call VerifyCertificate.E))
    (out : Result Response) : Prop :=
  authorized req Anonymous tr = true /\
  (forall d, out = Ok (mkResponse 200 (Success d)) -> reported req d tr) /\
  (existsb is_applied_update tr = true ->
   exists d, out = Ok (mkResponse 200 (Success d))) /\
  (forall text, out = Ok (mkResponse 200 (Text text)) ->
   method req = "OPTIONS" /\ tr = [] /\ text = "ok").

Ltac find_in :=
  cbn [In]; repeat first [left; reflexivity | right].

Section AnyOracleStaff.
Context {S : Type}.
Variable oracle : forall X, VerifyCertificate.E X -> S -> X * S.

Lemma handler_staff_facts req s :
  staff_facts req (trace oracle (handler req) s) (outcome oracle (handler req) s).
Proof.
  exec oracle.
  all: unfold staff_facts.
  all: repeat match goal with
            | E : negb (String.eqb ?a ?b) = false |- _ => apply negb_false_iff in E
            end.
  all: repeat
         (cbn [authorized permitted needs_staff clear existsb is_applied_update
               u_reviewed_by andb orb];
          unfold presented;
          repeat match goal with
                 | E : data ?r = _ |- context [data ?r] => rewrite E
                 | E : error ?r = _ |- context [error ?r] => rewrite E
                 | E : authorization ?r = _ |- context [authorization ?r] => rewrite E
                 | E : String.eqb ?a ?b = true |- context [String.eqb ?a ?b] => rewrite E
                 end;
          progress rewrite ?String.eqb_refl).
  all: cbn [authorized permitted needs_staff clear existsb is_applied_update
            u_reviewed_by andb orb].
  all: (split; [reflexivity|]).
  all: split;
    [ intros d Hd; first
        [ discriminate Hd
        | injection Hd as <-; unfold reported;
          cbn [s_certificateId s_certHash s_txHash s_blockNumber
               s_contractAddress s_eligible];
          do 6 eexists;
          repeat match goal with
                 | |- _ /\ _ => split
                 end;
          first [ eassumption | reflexivity | symmetry; eassumption
                | solve [find_in] ] ]
    | ].
  all: split;
    [ intros Hup; first [discriminate Hup | eexists; reflexivity] | ].
  all: intros text Ht; first
    [ discriminate Ht
    | injection Ht as <-;
      match goal with H : String.eqb _ _ = true |- _ => apply String.eqb_eq in H end;
      auto ].
Qed.

End AnyOracleStaff.

(** *** Reading the authorization check *)

(** The identity provider was asked about the token of the request and
    answered with the user [u]. *)
Definition identified_in (req : Request) (u : string)
    (pre : list (Call VerifyCertificate.E)) : Prop :=
  exists token r user,
    In (MkCall (AuthGetUser token) r) pre /\
    presented req token = true /\
    error r = None /\ data r = Some user /\ user_id user = u.

(** Besides, the role of [u] was read and is hospital. *)
Definition staff_in (req : Request) (u : string)
    (pre : list (Call VerifyCertificate.E)) : Prop :=
  identified_in req u pre /\
  exists r p,
    In (MkCall (SelectRole u) r) pre /\
    error r = None /\ data r = Some p /\ role p = "hospital".

Definition cleared (req : Request) (cl : Clearance)
    (pre : list (Call VerifyCertificate.E)) : Prop :=
  match cl with
  | Anonymous => True
  | Identified u => identified_in req u pre
  | Staff u => staff_in req u pre
  end.

Lemma identified_app req u pre l :
  identified_in req u pre -> identified_in req u (pre ++ l).
Proof.
  intros (token & r & user & Hin & H). exists token, r, user.
  split; [apply in_or_app; auto|exact H].
Qed.

Lemma cleared_app req cl pre l : cleared req cl pre -> cleared req cl (pre ++ l).
Proof.
  destruct cl as [|u|u]; cbn [cleared]; [auto|apply identified_app|].
  intros [Hi (r & p & Hin & H)]. split; [apply identified_app; exact Hi|].
  exists r, p. split; [apply in_or_app; auto|exact H].
Qed.

Lemma clear_ok req cl pre c :
  cleared req cl pre -> cleared req (clear req cl c) (pre ++ [c]).
Proof.
  intros Hcl. destruct c as [X e x]. revert x.
  destruct e; intros x; try (apply cleared_app; exact Hcl); cbn [clear].
  - destruct (error x) eqn:He; [exact I|].
    destruct (data x) as [user|] eqn:Hd; [|exact I].
    destruct (presented req token) eqn:Hp; [|exact I].
    exists token, x, user. split; [apply in_or_app; right; left; reflexivity|auto].
  - destruct cl as [|u|u]; try (apply cleared_app; exact Hcl).
    destruct (error x) eqn:He; [apply cleared_app; exact Hcl|].
    destruct (data x) as [p|] eqn:Hd; [|apply cleared_app; exact Hcl].
    destruct (String.eqb userId u && String.eqb (role p) "hospital") eqn:Hb;
      [|apply cleared_app; exact Hcl].
    apply andb_prop in Hb as [Hu Hr].
    apply String.eqb_eq in Hu. apply String.eqb_eq in Hr. subst userId.
    split; [apply identified_app; exact Hcl|].
    exists x, p. split; [apply in_or_app; right; left; reflexivity|auto].
Qed.

(** The reviewer an update names. *)
Definition reviewer_of (c : Call VerifyCertificate.E) : option string :=
  match c with
  | MkCall (UpdateCertificate _ upd) _ => Some (u_reviewed_by upd)
  | _ => None
  end.

Lemma authorized_sound req tr : forall cl pre0,
  cleared req cl pre0 ->
  authorized req cl tr = true ->
  forall pre c post,
    tr = pre ++ c :: post -> needs_staff c = true ->
    exists u,
      staff_in req u (pre0 ++ pre) /\
      (forall r, reviewer_of c = Some r -> r = u).
Proof.
  induction tr as [|c0 tr IH]; intros cl pre0 Hcl Hau pre c post Heq Hneed.
  - destruct pre; discriminate.
  - cbn [authorized] in Hau. apply andb_prop in Hau as [Hhere Hrest].
    destruct pre as [|c1 pre]; cbn [app] in Heq; injection Heq as -> ->.
    + rewrite app_nil_r. unfold permitted in Hhere. rewrite Hneed in Hhere.
      destruct cl as [|u|u]; try discriminate Hhere.
      exists u. split; [exact Hcl|].
      intros r Hr. destruct c as [X e x]. destruct e; try discriminate Hr.
      injection Hr as <-. now apply String.eqb_eq in Hhere.
    + replace (pre0 ++ c1 :: pre) with ((pre0 ++ [c1]) ++ pre)
        by now rewrite <- app_assoc.
      eapply IH; [apply clear_ok; exact Hcl|exact Hrest|reflexivity|exact Hneed].
Qed.

(** X10. Only hospital staff get anything done.  In every run of the
    handler, whatever the collaborators answer, before any call that
    reads a certificate or its file, sets up or performs the ledger write,
    or updates the record store, the identity provider was asked about
    the token of the request's authorization header and answered with a
    user without an error, and the role of that very user was read
    without an error and is hospital; and an update of the record store
    names that user as the reviewer. *)
Theorem stores_are_touched_for_hospital_staff_only :
  forall (req : Request) (S : Type)
         (oracle : forall X, VerifyCertificate.E X -> S -> X * S) (s : S),
    let tr := trace oracle (handler req) s in
    authorized req Anonymous tr = true /\
    (forall pre c post,
       tr = pre ++ c :: post -> needs_staff c = true ->
       exists header token r user r' profile,
         authorization req = Some header /\
         token = replace_first "Bearer " "" header /\
         In (MkCall (AuthGetUser token) r) pre /\
         error r = None /\ data r = Some user /\
         In (MkCall (SelectRole (user_id user)) r') pre /\
         error r' = None /\ data r' = Some profile /\ role profile = "hospital" /\
         (forall reviewer, reviewer_of c = Some reviewer -> reviewer = user_id user)).
Proof.
  intros req S oracle s tr.
  destruct (handler_staff_facts oracle req s) as (Hau & _). fold tr in Hau.
  split; [exact Hau|].
  intros pre c post Heq Hneed.
  destruct (authorized_sound req tr Anonymous [] I Hau pre c post Heq Hneed)
    as (u & [(token & r & user & Hin & Hp & He & Hd & Hu) (r' & p & Hin' & He' & Hd' & Hr)]
        & Hrev).
  cbn [app] in Hin, Hin'. subst u.
  unfold presented in Hp. destruct (authorization req) as [header|]; [|discriminate Hp].
  apply String.eqb_eq in Hp.
  exists header, token, r, user, r', p. repeat (split; [first [reflexivity|assumption]|]).
  exact Hrev.
Qed.

(** The demo approval is made by staff-1, and the stores are touched. *)
Lemma stores_are_touched_for_hospital_staff_only_witness :
  let tr := trace perform (handler (demo_request demo_address))
              (demo_world no_outage) in
  authorized (demo_request demo_address) Anonymous tr = true /\
  existsb needs_staff tr = true /\
  List.filter (fun r => negb (String.eqb r "staff-1"))
    (omap reviewer_of tr) = [].
Proof.
  split; [|vm_compute; split; reflexivity].
  apply (stores_are_touched_for_hospital_staff_only (demo_request demo_address)
           _ perform (demo_world no_outage)).
Defined.

(** X11. A success response is truthful, and it is given exactly when
    the record store took the update.  In every run of the handler,
    whatever the collaborators answer: the answer is a success with data
    exactly when an update of the record store was applied; the data then
    name the certificate and the decision of the request, the hash that
    was submitted to the ledger for the address of the request and
    accepted, the transaction that was waited for and the block of its
    receipt, and the update wrote that same hash, transaction, decision
    and contract address to the row of that certificate.  The only other
    200 is the answer to a preflight request, which makes no call. *)
Theorem success_reports_what_was_written :
  forall (req : Request) (S : Type)
         (oracle : forall X, VerifyCertificate.E X -> S -> X * S) (s : S),
    let tr := trace oracle (handler req) s in
    let out := outcome oracle (handler req) s in
    (forall d, out = Ok (mkResponse 200 (Success d)) -> reported req d tr) /\
    (existsb is_applied_update tr = true <->
     exists d, out = Ok (mkResponse 200 (Success d))) /\
    (forall text,
       out = Ok (mkResponse 200 (Text text)) <->
       method req = "OPTIONS" /\ text = "ok") /\
    (method req = "OPTIONS" -> tr = []).
Proof.
  intros req S oracle s tr out.
  destruct (handler_staff_facts oracle req s) as (_ & Hrep & Hup & Hpre).
  destruct (handler_request_facts oracle req s) as (_ & _ & _ & Hok).
  fold tr in Hrep, Hup, Hpre, Hok. fold out in Hrep, Hup, Hpre, Hok.
  split; [exact Hrep|]. split; [|split].
  - split; [exact Hup|]. intros [d Hd]. exact (Hok d Hd).
  - intros text. split.
    + intros H. destruct (Hpre text H) as (Hm & _ & Ht). auto.
    + intros [Hm ->]. unfold out, handler. rewrite Hm. reflexivity.
  - intros Hm. unfold tr, handler. rewrite Hm. reflexivity.
Qed.

(** The demo approval answers with what it wrote. *)
Lemma success_reports_what_was_written_witness :
  let tr := trace perform (handler (demo_request demo_address))
              (demo_world no_outage) in
  existsb is_applied_update tr = true /\
  exists d, reported (demo_request demo_address) d tr /\
            s_certHash d = computeFileHash demo_file.
Proof.
  pose proof (success_reports_what_was_written (demo_request demo_address)
                _ perform (demo_world no_outage)) as (Hrep & Hiff & _).
  assert (Hout : outcome perform (handler (demo_request demo_address))
                   (demo_world no_outage)
                 = Ok (mkResponse 200
                         (Success (mkSuccessData "cert-1" (computeFileHash demo_file)
                                     "0x0" 2 "0xfB6916095ca1df60bB79Ce92cE3Ea74c37c5d359"
                                     true "2024-05-01T10:00:00.000Z"))))
    by exact demo_run_succeeds.
  split; [apply Hiff; eexists; exact Hout|].
  eexists. split; [apply Hrep; exact Hout|reflexivity].
Defined.

(** *** From an approval to the public check *)

(** What a success leaves behind in the modelled stores: see
    [handler_success_world]. *)
Definition success_world (w : World) (req : Request) (out : Result Response)
    (w' : World) : Prop :=
  forall d, out = Ok (mkResponse 200 (Success d)) ->
    exists body donor a hv cert upd,
      json req = Ok body /\
      donorWalletAddress body = Some donor /\
      s_eligible d = VerifyCertificate.eligible body /\
      file_hash w req = Some (s_certHash d) /\
      Ethers.address_value donor = Ok a /\
      Ethers.bytes32_value (s_certHash d) = Ok hv /\
      DonorVerification.records_at (chain w') a
        = DonorVerification.mkRecord a hv (s_eligible d) (block_time w) true /\
      certificates w !! s_certificateId d = Some cert /\
      certificates w'
        = alter (apply_update upd) (s_certificateId d) (certificates w) /\
      u_cert_hash upd = s_certHash d /\
      u_eligible upd = s_eligible d /\
      u_tx_hash upd = s_txHash d /\
      u_chain_address upd = s_contractAddress d.

Ltac peel_success :=
  match goal with
  | |- context [outcome perform (Vis ?e ?k) ?s] =>
      rewrite ?(outcome_Vis perform e k s), ?(final_Vis perform e k s);
      cbn [perform fst snd]
  end.

Ltac success_step :=
  first
    [ rewrite outcome_Ret
    | rewrite outcome_Throw
    | rewrite final_Ret
    | rewrite final_Throw
    | peel_success
    | match goal with
      | |- context [submit ?w ?c ?d ?h ?e] =>
          let r := fresh "r" in
          let w' := fresh "w" in
          destruct (submit w c d h e) as [r w'] eqn:?; cbn [fst snd]
      | |- context [confirm ?w ?tx] =>
          let r := fresh "r" in
          let w' := fresh "w" in
          destruct (confirm w tx) as [r w'] eqn:?; cbn [fst snd]
      end
    | match goal with
      | |- context [match ?t with _ => _ end] => destruct t eqn:?
      end ].

Ltac success_exec :=
  unfold handler, attempt, lift;
  cbn [bind try_catch trigger await];
  repeat (success_step; cbn [bind try_catch trigger await data error fst snd]).

Lemma handler_success_world w req :
  success_world w req (outcome perform (handler req) w)
    (final perform (handler req) w).
Proof.
  success_exec.
  all: unfold success_world; intros d Hd; try discriminate Hd.
  all: try match goal with
           | H : fst (Some _, _) = None |- _ => discriminate H
           end.
  all: injection Hd as <-;
    cbn [s_certificateId s_certHash s_txHash s_blockNumber s_contractAddress
         s_eligible].
  all: match goal with
       | Hs : submit _ _ _ _ _ = (Ok _, _), Hc : confirm _ _ = (Ok _, _) |- _ =>
           destruct (submit_confirm _ _ _ _ _ _ _ _ _ Hs Hc)
             as (adr & hval & Hadr & Hhval & _ & _ & Hchn & Hcrt & _)
       end.
  all: repeat match goal with
              | H : data (single _ _) = Some _ |- _ => apply single_data in H
              end.
  all: do 6 eexists.
  all: repeat match goal with |- _ /\ _ => split end.
  all: cbn [chain certificates with_certificates u_cert_hash u_eligible u_tx_hash
            u_chain_address].
  all: try first
         [ eassumption
         | reflexivity
         | symmetry; eassumption
         | unfold file_hash, requested;
           repeat match goal with
                  | H : json _ = _ |- _ => rewrite H
                  | H : certificateId _ = _ |- _ => rewrite H
                  | H : certificates _ !! _ = _ |- _ => rewrite H
                  | H : bucket _ !! _ = _ |- _ => rewrite H
                  end; reflexivity
         | rewrite Hchn, LedgerFacts.records_at_written;
           rewrite decide_True by reflexivity; first [reflexivity | congruence]
         | rewrite Hcrt; reflexivity ].
Qed.

#[local] Arguments Sha256.sha256 : simpl never.
#[local] Arguments CertificateHash.hashHex : simpl never.

(** Two files have the same hash text, and the same [bytes32] value,
    exactly when they have the same digest. *)
Lemma file_hash_values b1 b2 v1 v2 :
  Ethers.bytes32_value (computeFileHash b1) = Ok v1 ->
  Ethers.bytes32_value (computeFileHash b2) = Ok v2 ->
  (v1 = v2 <-> Sha256.sha256 b1 = Sha256.sha256 b2).
Proof.
  intros H1 H2.
  destruct (HashFacts.hashHex_spec _ (HashFacts.sha256_bytes b1)) as (Hl1 & Hw1 & Hr1).
  destruct (HashFacts.hashHex_spec _ (HashFacts.sha256_bytes b2)) as (Hl2 & Hw2 & Hr2).
  split.
  - intros ->.
    apply UtilityFacts.bytes32_value_digits in H1 as (x1 & d1 & E1 & _ & _ & _ & Hn1).
    apply UtilityFacts.bytes32_value_digits in H2 as (x2 & d2 & E2 & _ & _ & _ & Hn2).
    unfold computeFileHash, CertificateHash.computeFileHash in E1, E2.
    apply (f_equal chars) in E1. apply (f_equal chars) in E2.
    rewrite HashFacts.chars_str in E1, E2.
    rewrite UtilityFacts.chars_0x in E1, E2.
    apply (f_equal (drop 2)) in E1. apply (f_equal (drop 2)) in E2.
    cbn [drop] in E1, E2. rewrite !drop_0 in E1, E2. subst d1 d2.
    assert (Hd : chars (CertificateHash.hashHex (Sha256.sha256 b1))
                 = chars (CertificateHash.hashHex (Sha256.sha256 b2))).
    { apply (UtilityFacts.hex_number_inj _ _ 0%N v2); try assumption.
      rewrite Hl1, Hl2, !HashFacts.sha256_length. reflexivity. }
    rewrite Hd in Hr1. congruence.
  - intros Heq. unfold computeFileHash, CertificateHash.computeFileHash in *.
    rewrite Heq in H1. congruence.
Qed.

Lemma file_hash_stored w req h :
  file_hash w req = Some h ->
  exists cid cert stored,
    requested req = Some cid /\
    certificates w !! cid = Some cert /\
    bucket w !! file_path cert = Some stored /\
    h = computeFileHash stored.
Proof.
  unfold file_hash. destruct (requested req) as [cid|]; [|discriminate].
  destruct (certificates w !! cid) as [cert|] eqn:Hc; [|discriminate].
  destruct (bucket w !! file_path cert) as [stored|] eqn:Hb; [|discriminate].
  intros [= <-]. exists cid, cert, stored. auto.
Qed.

(** X12. What is approved can be checked by anyone.  When the handler
    answers a request with success against the modelled stores, then
    afterwards: the row of the certificate carries the hash of the stored
    file, the decision, the transaction and the contract address of the
    answer; the ledger holds, for the address of the request, that same
    hash with the decision; and the public check of any file against that
    address, answered by the ledger, returns the decision as [eligible]
    and [matches = true] exactly when the file has the digest of the
    stored file. *)
Theorem approval_is_publicly_verifiable :
  forall (w : World) (req : Request) (d : SuccessData),
    outcome perform (handler req) w = Ok (mkResponse 200 (Success d)) ->
    let w' := final perform (handler req) w in
    exists body donor a hv cert stored,
      json req = Ok body /\
      donorWalletAddress body = Some donor /\
      Ethers.address_value donor = Ok a /\
      certificates w !! s_certificateId d = Some cert /\
      bucket w !! file_path cert = Some stored /\
      s_certHash d = computeFileHash stored /\
      Ethers.bytes32_value (s_certHash d) = Ok hv /\
      (exists cert',
         certificates w' !! s_certificateId d = Some cert' /\
         cert_hash cert' = Some (s_certHash d) /\
         Supabase.eligible cert' = Some (VerifyCertificate.eligible body) /\
         tx_hash cert' = Some (s_txHash d) /\
         chain_address cert' = Some (s_contractAddress d)) /\
      (forall m,
         DonorVerification.getRecord a m (chain w')
         = Ok ((hv, VerifyCertificate.eligible body, block_time w, true), chain w')) /\
      (forall (env : Browser.ViteEnv) (c : Browser.ReadContract) (t : N)
              (bytes : list Byte.byte) (S : Type)
              (oracle : forall X, Browser.E X -> S -> X * S) (s : S),
         Browser.getContract env = Ok c ->
         Ethers.address_value (Browser.rc_target c) = Ok t ->
         forallb (Browser.reads_from None (chain w'))
           (trace oracle
              (Browser.verifyHashOnBlockchain env donor (computeFileHash bytes)) s)
           = true ->
         exists v,
           outcome oracle
             (Browser.verifyHashOnBlockchain env donor (computeFileHash bytes)) s
             = Ok v /\
           Browser.v_eligible v = VerifyCertificate.eligible body /\
           (Browser.v_matches v = true <->
            Sha256.sha256 bytes = Sha256.sha256 stored)).
Proof.
  intros w req d Hout w'.
  destruct (handler_success_world w req d Hout)
    as (body & donor & a & hv & cert & upd & Hj & Hd & Hel & Hfh & Ha & Hhv & Hrec
        & Hcert & Hcerts & Hu1 & Hu2 & Hu3 & Hu4).
  fold w' in Hrec, Hcerts.
  destruct (handler_staff_facts perform req w) as (_ & Hrep & _).
  destruct (Hrep d Hout) as (body' & _ & _ & _ & _ & _ & Hj' & Hcid & _).
  rewrite Hj in Hj'. injection Hj' as <-.
  destruct (file_hash_stored w req _ Hfh) as (cid & cert0 & stored & Hreq & Hc0 & Hb & Hh).
  unfold requested in Hreq. rewrite Hj, Hcid in Hreq. injection Hreq as <-.
  rewrite Hcert in Hc0. injection Hc0 as <-.
  exists body, donor, a, hv, cert, stored.
  repeat (split; [assumption|]).
  split; [|split].
  - exists (apply_update upd cert). rewrite Hcerts, lookup_alter_eq, Hcert.
    cbn [fmap option_fmap option_map apply_update cert_hash Supabase.eligible tx_hash
         chain_address].
    rewrite Hu1, Hu2, Hu3, Hu4, Hel. repeat split.
  - intros m. rewrite LedgerFacts.getRecord_spec, Hrec, Hel. reflexivity.
  - intros env c t bytes S oracle s Hc Ht Hreads.
    pose proof (BrowserFacts.verifyHashOnBlockchain_run oracle env donor
                  (computeFileHash bytes) s) as Hv.
    unfold BrowserFacts.verify_facts in Hv. rewrite Hc in Hv.
    destruct Hv as (rv & _ & Htr & Hov). rewrite Htr in Hreads.
    cbn [forallb Browser.reads_from] in Hreads.
    apply andb_prop in Hreads as [Hrv _].
    destruct (BrowserFacts.computeFileHash_value bytes) as [hv' Hhv'].
    assert (Hargs : Browser.verify_args donor (computeFileHash bytes) = Ok (a, hv')).
    { unfold Browser.verify_args.
      unfold computeFileHash. rewrite Ha, Hhv'. reflexivity. }
    rewrite (BrowserFacts.node_verify_up _ c donor _ t a hv' Ht Hargs) in Hrv.
    cbv zeta in Hrv. rewrite Hrec in Hrv.
    cbn [DonorVerification.exists_ DonorVerification.eligible
         DonorVerification.timestamp DonorVerification.certHash] in Hrv.
    destruct rv as [[[e ts] mt]|]; [|discriminate Hrv].
    apply andb_prop in Hrv as [Hrv Hm]. apply andb_prop in Hrv as [He _].
    apply Bool.eqb_prop in He. apply Bool.eqb_prop in Hm. subst e mt.
    eexists. split; [exact Hov|]. cbn [Browser.v_eligible Browser.v_matches].
    split; [exact Hel|].
    rewrite Hh in Hhv.
    rewrite N.eqb_eq.
    rewrite (file_hash_values stored bytes hv hv' Hhv Hhv').
    split; intros; congruence.
Qed.

(** The demo approval, then the check of the very file and of another. *)
Lemma approval_is_publicly_verifiable_witness :
  let w' := final perform (handler (demo_request demo_address)) (demo_world no_outage) in
  (exists v,
     outcome (Browser.node_oracle None)
       (Browser.verifyHashOnBlockchain BrowserFacts.demo_env demo_address
          (computeFileHash demo_file)) (chain w') = Ok v /\
     Browser.v_matches v = true) /\
  (exists v,
     outcome (Browser.node_oracle None)
       (Browser.verifyHashOnBlockchain BrowserFacts.demo_env demo_address
          (computeFileHash BrowserFacts.other_file)) (chain w') = Ok v /\
     Browser.v_matches v = false).
Proof.
  intros w'.
  destruct (approval_is_publicly_verifiable (demo_world no_outage)
              (demo_request demo_address) _ demo_run_succeeds)
    as (body & donor & a & hv & cert & stored & Hj & Hd & _ & Hc & Hb & _ & _ & _ & _
        & Hcheck).
  injection Hj as <-. injection Hd as <-.
  vm_compute in Hc. injection Hc as <-. vm_compute in Hb. injection Hb as <-.
  fold w' in Hcheck.
  split.
  - edestruct (Hcheck BrowserFacts.demo_env) with (bytes := demo_file)
      as (v & Hv & _ & Hm);
      [ vm_compute; reflexivity | vm_compute; reflexivity
      | apply BrowserFacts.node_oracle_reads | ].
    exists v. split; [exact Hv|]. apply Hm. reflexivity.
  - edestruct (Hcheck BrowserFacts.demo_env) with (bytes := BrowserFacts.other_file)
      as (v & Hv & _ & Hm);
      [ vm_compute; reflexivity | vm_compute; reflexivity
      | apply BrowserFacts.node_oracle_reads | ].
    exists v. split; [exact Hv|].
    destruct (Browser.v_matches v); [|reflexivity].
    assert (Heq : Sha256.sha256 BrowserFacts.other_file
                  = Sha256.sha256 (HashFacts.bytes_of_string "health certificate"))
      by (apply Hm; reflexivity).
    vm_compute in Heq. discriminate Heq.
Defined.

End OrchestratorMore.
